(** * Tomasulo scheduling core of the tinyrv out-of-order pipeline

    A shallow embedding of [src/ooo.cpp]: the four stage operations of
    [Core] ([issue], [execute], [writeback], [commit]) as functions on an
    explicit machine state, in an error monad for the aborts of the C++
    (bounds-checked [at], assertions, contract violations of the
    collaborating containers).

    Reorder indices and station slots are [int] in the source and never
    negative; they are [nat] here. The producer ids of a station, which
    use the sentinel [-1], and the 32-bit data words, which the scheduler
    only moves, are [Z]. The trace output ([DT]) and the [dump] calls are
    observational and have no counterpart. *)

From Stdlib Require Import ZArith Lia.
From stdpp Require Import base option list gmap.

(** ** Aborts *)

Inductive fault : Type :=
  | OutOfRange          (* a bounds-checked access left its container *)
  | ContractViolation   (* a container operation was called outside its contract *)
  | AssertionFailed.    (* an [assert] of the core did not hold *)

Inductive outcome (A : Type) : Type :=
  | Ok (a : A)
  | Abort (f : fault).
Arguments Ok {A} a.
Arguments Abort {A} f.

#[global] Instance outcome_ret : MRet outcome := fun _ a => Ok a.
#[global] Instance outcome_bind : MBind outcome :=
  fun _ _ k m => match m with Ok a => k a | Abort f => Abort f end.

(** ** Instructions *)

(** Modelled from the spec: the flags structure [getExeFlags] returns,
    declared outside [ooo.cpp]; four immutable booleans. *)
Record ExeFlags : Type := mkExeFlags {
  use_rs1 : bool;
  use_rs2 : bool;
  use_rd  : bool;
  is_exit : bool
}.

(** Modelled from the spec: the instruction class, declared outside
    [ooo.cpp]; the scheduler sees it only through these accessors. *)
Record Instr : Type := mkInstr {
  getRs1 : nat;
  getRs2 : nat;
  getRd  : nat;
  getExeFlags : ExeFlags;
  getFUType : nat
}.

(** A bounds-checked read and write of a vector, as [std::vector::at]. *)
Definition at_ {A} (v : list A) (i : nat) : outcome A :=
  match v !! i with
  | Some x => Ok x
  | None => Abort OutOfRange
  end.

Definition at_put {A} (v : list A) (i : nat) (x : A) : outcome (list A) :=
  if decide (i < length v) then Ok (<[i := x]> v) else Abort OutOfRange.

(** ** Common data bus *)

Module CDB.

(** Modelled from the spec: the bus class is declared outside [ooo.cpp];
    a single-slot channel holding a result with its producer's reorder
    index and reservation-station slot. *)
Record data_t : Type := mk_data {
  result : Z;
  rob_index : nat;
  rs_index : nat
}.

Abbreviation t := (option data_t).

(** Modelled from the spec: occupancy of the single slot. *)
Definition empty (b : t) : bool :=
  match b with None => true | Some _ => false end.

(** Modelled from the spec: [push] must not be called on an occupied
    bus; the producer checks [empty] first. *)
Definition push (res : Z) (rob rs : nat) (b : t) : outcome t :=
  match b with
  | None => Ok (Some (mk_data res rob rs))
  | Some _ => Abort ContractViolation
  end.

(** Modelled from the spec: reading the message; fatal on an empty bus. *)
Definition data (b : t) : outcome data_t :=
  match b with
  | Some d => Ok d
  | None => Abort ContractViolation
  end.

(** Modelled from the spec: clearing the bus; fatal on an empty bus. *)
Definition pop (b : t) : outcome t :=
  match b with
  | Some _ => Ok None
  | None => Abort ContractViolation
  end.

End CDB.

(** ** Register alias table *)

Module RAT.

(** Modelled from the spec: the table class is declared outside
    [ooo.cpp]; a map from architectural register to reorder index, absent
    or present. This is its [exists]. *)
Definition exists_ (m : gmap nat nat) (reg : nat) : bool :=
  bool_decide (is_Some (m !! reg)).

(** Modelled from the spec: [get] on a register without a mapping is
    outside the contract; callers guard with [exists]. *)
Definition get (m : gmap nat nat) (reg : nat) : outcome nat :=
  match m !! reg with
  | Some i => Ok i
  | None => Abort ContractViolation
  end.

(** Modelled from the spec: [set] unconditionally overwrites. *)
Definition set (reg rob_index : nat) (m : gmap nat nat) : gmap nat nat :=
  <[reg := rob_index]> m.

(** Modelled from the spec: [clear] removes the mapping. *)
Definition clear (reg : nat) (m : gmap nat nat) : gmap nat nat :=
  delete reg m.

End RAT.

(** ** Reorder buffer *)

Module ROB.

(** Modelled from the spec: the buffer class is declared outside
    [ooo.cpp]; a circular, fixed-capacity FIFO. An entry carries the
    instruction, a [ready] flag and the [result]; its reorder index is its
    position in [store]. *)
Record entry_t : Type := mk_entry {
  instr : Instr;
  ready : bool;
  result : Z
}.

(** Modelled from the spec: the circular queue itself, a fixed store
    with the index of the oldest entry and the number of entries in
    flight. *)
Record t : Type := mk {
  store : list entry_t;
  head : nat;
  count : nat
}.

Definition capacity (q : t) : nat := length (store q).

(** Modelled from the spec: the capacity and occupancy queries gating
    issue and commit. *)
Definition full (q : t) : bool := bool_decide (capacity q ≤ count q).

Definition empty (q : t) : bool := bool_decide (count q = 0).

(** Modelled from the spec: the index of the oldest entry. *)
Definition head_index (q : t) : nat := head q.

(** The index the next allocation takes. *)
Definition tail_index (q : t) : nat := (head q + count q) mod capacity q.

(** Modelled from the spec: [allocate] appends a new not-ready entry at
    the tail and returns its index; it must not be called when full. *)
Definition allocate (i : Instr) (q : t) : outcome (nat * t) :=
  if full q then Abort ContractViolation
  else
    let index := tail_index q in
    Ok (index, mk (<[index := mk_entry i false 0]> (store q)) (head q) (S (count q))).

(** Modelled from the spec: access to the entry at a reorder index. *)
Definition get_entry (q : t) (idx : nat) : outcome entry_t := at_ (store q) idx.

(** Modelled from the spec: [update] marks the entry at the message's
    reorder index ready and stores its result. *)
Definition update (d : CDB.data_t) (q : t) : outcome t :=
  e ← get_entry q (CDB.rob_index d);
  Ok (mk (<[CDB.rob_index d := mk_entry (instr e) true (CDB.result d)]> (store q))
         (head q) (count q)).

(** Modelled from the spec: [pop] retires the oldest entry; it is
    outside the contract when empty or when the head is not ready. *)
Definition pop (q : t) : outcome t :=
  if empty q then Abort ContractViolation
  else
    e ← get_entry q (head q);
    if ready e
    then Ok (mk (store q) (S (head q) mod capacity q) (count q - 1))
    else Abort ContractViolation.

(** The reorder indices in flight, oldest first. *)
Definition live (q : t) : list nat :=
  (λ k, (head q + k) mod capacity q) <$> seq 0 (count q).

(** Whether the entry at [idx] holds an instruction writing register [reg]. *)
Definition writes (reg : nat) (q : t) (idx : nat) : bool :=
  match store q !! idx with
  | Some e => use_rd (getExeFlags (instr e)) && bool_decide (getRd (instr e) = reg)
  | None => false
  end.

(** The youngest in-flight entry whose instruction writes [reg]. *)
Definition youngest_writer (reg : nat) (q : t) : option nat :=
  last (filter (λ idx, writes reg q idx = true) (live q)).

End ROB.

(** ** Reservation stations *)

Module RS.

(** Modelled from the spec: the station entry, declared outside
    [ooo.cpp]. [Core::execute] reads [valid], [running], [rob_index],
    [rs1_data], [rs2_data] and [instr]; [rs1_index] and [rs2_index] are
    the pending-producer slot ids, [-1] once the operand is resolved. *)
Record entry_t : Type := mk_entry {
  valid : bool;
  running : bool;
  rob_index : nat;
  rs1_index : Z;
  rs2_index : Z;
  rs1_data : Z;
  rs2_data : Z;
  instr : Instr
}.

Abbreviation t := (list entry_t).

(** Modelled from the spec: a fixed-size slot array; [size], [full] (no
    slot free) and [get_entry]. *)
Definition size (pool : t) : nat := length pool.

Definition full (pool : t) : bool := forallb valid pool.

Definition get_entry (pool : t) (idx : nat) : outcome entry_t := at_ pool idx.

(** The slot [issue] claims: the first one that is not valid. *)
Definition free_slot (pool : t) : option nat :=
  fst <$> list_find (λ e, valid e = false) pool.

(** Modelled from the spec: [issue] claims a free slot and stores the
    operand state there, valid and not running; it must not be called on
    a full pool. *)
Definition issue (rob : nat) (rs1_rsid rs2_rsid rs1 rs2 : Z) (i : Instr) (pool : t)
    : outcome (nat * t) :=
  match free_slot pool with
  | Some idx =>
      Ok (idx, <[idx := mk_entry true false rob rs1_rsid rs2_rsid rs1 rs2 i]> pool)
  | None => Abort ContractViolation
  end.

(** Modelled from the spec: [operands_ready] is true iff both operand
    slots carry resolved data, their producer ids cleared. *)
Definition entry_operands_ready (e : entry_t) : bool :=
  bool_decide (rs1_index e = (-1)%Z) && bool_decide (rs2_index e = (-1)%Z).

Definition operands_ready (pool : t) (idx : nat) : bool :=
  match pool !! idx with
  | Some e => entry_operands_ready e
  | None => false
  end.

(** Modelled from the spec: [update_operands]; a pending operand whose
    producer slot is the broadcasting one takes the broadcast result and
    becomes resolved. *)
Definition update_operands (d : CDB.data_t) (e : entry_t) : entry_t :=
  let hit1 := bool_decide (rs1_index e = Z.of_nat (CDB.rs_index d)) in
  let hit2 := bool_decide (rs2_index e = Z.of_nat (CDB.rs_index d)) in
  mk_entry (valid e) (running e) (rob_index e)
    (if hit1 then (-1)%Z else rs1_index e)
    (if hit2 then (-1)%Z else rs2_index e)
    (if hit1 then CDB.result d else rs1_data e)
    (if hit2 then CDB.result d else rs2_data e)
    (instr e).

Definition invalidate (e : entry_t) : entry_t :=
  mk_entry false (running e) (rob_index e) (rs1_index e) (rs2_index e)
    (rs1_data e) (rs2_data e) (instr e).

(** Modelled from the spec: [release] invalidates a slot, making it
    available for reuse. *)
Definition release (idx : nat) (pool : t) : outcome t :=
  e ← get_entry pool idx;
  Ok (<[idx := invalidate e]> pool).

(** The assignment [entry.running = true] of [Core::execute]. *)
Definition set_running (e : entry_t) : entry_t :=
  mk_entry (valid e) true (rob_index e) (rs1_index e) (rs2_index e)
    (rs1_data e) (rs2_data e) (instr e).

(** Modelled from the spec: [locked]; the locking policy is an external
    concern of the load/store unit and is taken as an interface. *)
Class LockPolicy : Type := locked : t → nat → bool.

End RS.

(** ** Functional units *)

Module FU.

(** Modelled from the spec: what [get_output] returns, declared outside
    [ooo.cpp]; [Core::execute] reads these three members. *)
Record output_t : Type := mk_output {
  result : Z;
  rob_index : nat;
  rs_index : nat
}.

(** Modelled from the spec: the functional-unit class, declared outside
    [ooo.cpp]; the interface [Core::execute] uses, with the latency model
    behind it left to the unit. *)
Class FunctionalUnit (F : Type) : Type := {
  busy : F → bool;
  done : F → bool;
  issue : Instr → nat → nat → Z → Z → F → F;
  execute : F → F;
  get_output : F → output_t;
  clear : F → F
}.

End FU.

(** Modelled from the spec: what the contract of a functional unit says
    of the interface: [issue] makes the unit busy on the instruction of
    the given reorder index and station, [execute] only advances its
    countdown, [done] is a state of a busy unit, [get_output] reports the
    producer identifiers the unit was issued with, and [clear] releases
    the unit. The properties that need this say so. *)
Class LawfulUnit (F : Type) `{!FU.FunctionalUnit F} : Prop := {
  issue_busy (i : Instr) (rob rs : nat) (a b : Z) (fu : F) :
    FU.busy (FU.issue i rob rs a b fu) = true;
  issue_rob_index (i : Instr) (rob rs : nat) (a b : Z) (fu : F) :
    FU.rob_index (FU.get_output (FU.issue i rob rs a b fu)) = rob;
  issue_rs_index (i : Instr) (rob rs : nat) (a b : Z) (fu : F) :
    FU.rs_index (FU.get_output (FU.issue i rob rs a b fu)) = rs;
  execute_busy (fu : F) : FU.busy (FU.execute fu) = FU.busy fu;
  execute_rob_index (fu : F) :
    FU.busy fu = true →
    FU.rob_index (FU.get_output (FU.execute fu)) = FU.rob_index (FU.get_output fu);
  execute_rs_index (fu : F) :
    FU.busy fu = true →
    FU.rs_index (FU.get_output (FU.execute fu)) = FU.rs_index (FU.get_output fu);
  done_busy (fu : F) : FU.done fu = true → FU.busy fu = true;
  clear_idle (fu : F) : FU.busy (FU.clear fu) = false
}.

(** ** The core *)

Section CoreModel.

Context {F : Type} `{!FU.FunctionalUnit F} `{!RS.LockPolicy}.

(** Modelled from the spec: the members of [Core] the four stages
    touch, declared outside [ooo.cpp]. [RST_] is indexed by reorder index,
    [reg_file_] is accessed with [at], [perf_stats_instrs] is
    [perf_stats_.instrs]; the two counters are taken unbounded. *)
Record Core : Type := mkCore {
  issue_queue_ : list Instr;
  RAT_ : gmap nat nat;
  ROB_ : ROB.t;
  RS_ : RS.t;
  RST_ : nat → Z;
  CDB_ : CDB.t;
  FUs_ : list F;
  reg_file_ : list Z;
  perf_stats_instrs : nat;
  fetched_instrs_ : nat;
  exited_ : bool
}.

(** The assignment [RST_[rob_index] = rs_index]. *)
Definition RST_put (rob_index : nat) (rs_index : Z) (rst : nat → Z) : nat → Z :=
  λ i, if decide (i = rob_index) then rs_index else rst i.

(** *** issue *)

(** One of the two "get rs data" blocks of [Core::issue]: the pair
    (rsid, data) it leaves in [rs1_rsid]/[rs1_data] (or the rs2 pair),
    both initialised to [-1] and [0]. *)
Definition read_operand (c : Core) (use_rs : bool) (rs : nat) : outcome (Z * Z) :=
  if use_rs then
    if RAT.exists_ (RAT_ c) rs then
      rob_index ← RAT.get (RAT_ c) rs;
      e ← ROB.get_entry (ROB_ c) rob_index;
      if ROB.ready e
      then Ok ((-1)%Z, ROB.result e)
      else Ok (RST_ c rob_index, 0%Z)
    else
      v ← at_ (reg_file_ c) rs;
      Ok ((-1)%Z, v)
  else Ok ((-1)%Z, 0%Z).

Definition issue (c : Core) : outcome Core :=
  match issue_queue_ c with
  | [] => Ok c
  | instr :: queue' =>
      let exe_flags := getExeFlags instr in
      if RS.full (RS_ c) || ROB.full (ROB_ c) then Ok c
      else
        '(rs1_rsid, rs1_data) ← read_operand c (use_rs1 exe_flags) (getRs1 instr);
        '(rs2_rsid, rs2_data) ← read_operand c (use_rs2 exe_flags) (getRs2 instr);
        '(rob_index, rob') ← ROB.allocate instr (ROB_ c);
        let rat' :=
          if use_rd exe_flags then RAT.set (getRd instr) rob_index (RAT_ c)
          else RAT_ c in
        '(rs_index, rs') ←
          RS.issue rob_index rs1_rsid rs2_rsid rs1_data rs2_data instr (RS_ c);
        let rst' :=
          if use_rd exe_flags then RST_put rob_index (Z.of_nat rs_index) (RST_ c)
          else RST_ c in
        Ok (mkCore queue' rat' rob' rs' rst' (CDB_ c) (FUs_ c) (reg_file_ c)
              (perf_stats_instrs c) (fetched_instrs_ c) (exited_ c))
  end.

(** *** execute *)

(** First loop: every unit advances one cycle. *)
Definition advance (fus : list F) : list F := FU.execute <$> fus.

(** Second loop: the first unit that is done while the bus is empty
    pushes its output and is cleared; the scan stops there. *)
Fixpoint drain (fus : list F) (cdb : CDB.t) : outcome (list F * CDB.t) :=
  match fus with
  | [] => Ok ([], cdb)
  | fu :: rest =>
      if FU.done fu && CDB.empty cdb then
        let output := FU.get_output fu in
        cdb' ← CDB.push (FU.result output) (FU.rob_index output) (FU.rs_index output) cdb;
        Ok (FU.clear fu :: rest, cdb')
      else
        '(rest', cdb') ← drain rest cdb;
        Ok (fu :: rest', cdb')
  end.

(** Third loop, from slot [rs_index] with [n] slots left to visit: the
    first ready slot whose unit is not busy is sent to the unit and
    marked running; the scan stops there. *)
Fixpoint schedule (n rs_index : nat) (pool : RS.t) (fus : list F)
    : outcome (RS.t * list F) :=
  match n with
  | 0 => Ok (pool, fus)
  | S n' =>
      entry ← RS.get_entry pool rs_index;
      if RS.valid entry && negb (RS.running entry)
         && RS.operands_ready pool rs_index && negb (RS.locked pool rs_index)
      then
        let fu_type := getFUType (RS.instr entry) in
        fu ← at_ fus fu_type;
        if negb (FU.busy fu) then
          let fu' := FU.issue (RS.instr entry) (RS.rob_index entry) rs_index
                       (RS.rs1_data entry) (RS.rs2_data entry) fu in
          Ok (<[rs_index := RS.set_running entry]> pool, <[fu_type := fu']> fus)
        else schedule n' (S rs_index) pool fus
      else schedule n' (S rs_index) pool fus
  end.

Definition execute (c : Core) : outcome Core :=
  '(fus1, cdb') ← drain (advance (FUs_ c)) (CDB_ c);
  '(rs', fus2) ← schedule (RS.size (RS_ c)) 0 (RS_ c) fus1;
  Ok (mkCore (issue_queue_ c) (RAT_ c) (ROB_ c) rs' (RST_ c) cdb' fus2
        (reg_file_ c) (perf_stats_instrs c) (fetched_instrs_ c) (exited_ c)).

(** *** writeback *)

(** The wakeup loop, from slot [rs_index] with [n] slots left to visit. *)
Fixpoint wakeup (n rs_index : nat) (cdb_data : CDB.data_t) (pool : RS.t)
    : outcome RS.t :=
  match n with
  | 0 => Ok pool
  | S n' =>
      entry ← RS.get_entry pool rs_index;
      wakeup n' (S rs_index) cdb_data
        (if RS.valid entry
         then <[rs_index := RS.update_operands cdb_data entry]> pool
         else pool)
  end.

Definition writeback (c : Core) : outcome Core :=
  if CDB.empty (CDB_ c) then Ok c
  else
    cdb_data ← CDB.data (CDB_ c);
    rs1 ← wakeup (RS.size (RS_ c)) 0 cdb_data (RS_ c);
    rs2 ← RS.release (CDB.rs_index cdb_data) rs1;
    rob' ← ROB.update cdb_data (ROB_ c);
    cdb' ← CDB.pop (CDB_ c);
    Ok (mkCore (issue_queue_ c) (RAT_ c) rob' rs2 (RST_ c) cdb' (FUs_ c)
          (reg_file_ c) (perf_stats_instrs c) (fetched_instrs_ c) (exited_ c)).

(** *** commit *)

(** The register-file write and the guarded RAT clear of a committing
    instruction that writes a register. *)
Definition retire_rd (c : Core) (head_index : nat) (rob_head : ROB.entry_t)
    : outcome (list Z * gmap nat nat) :=
  let instr := ROB.instr rob_head in
  if use_rd (getExeFlags instr) then
    regs' ← at_put (reg_file_ c) (getRd instr) (ROB.result rob_head);
    if RAT.exists_ (RAT_ c) (getRd instr) then
      mapped ← RAT.get (RAT_ c) (getRd instr);
      if bool_decide (mapped = head_index)
      then Ok (regs', RAT.clear (getRd instr) (RAT_ c))
      else Ok (regs', RAT_ c)
    else Ok (regs', RAT_ c)
  else Ok (reg_file_ c, RAT_ c).

Definition commit (c : Core) : outcome Core :=
  if ROB.empty (ROB_ c) then Ok c
  else
    let head_index := ROB.head_index (ROB_ c) in
    rob_head ← ROB.get_entry (ROB_ c) head_index;
    if ROB.ready rob_head then
      let instr := ROB.instr rob_head in
      let exe_flags := getExeFlags instr in
      '(regs', rat') ← retire_rd c head_index rob_head;
      rob' ← ROB.pop (ROB_ c);
      if bool_decide (perf_stats_instrs c ≤ fetched_instrs_ c) then
        Ok (mkCore (issue_queue_ c) rat' rob' (RS_ c) (RST_ c) (CDB_ c) (FUs_ c)
              regs' (S (perf_stats_instrs c)) (fetched_instrs_ c)
              (if is_exit exe_flags then true else exited_ c))
      else Abort AssertionFailed
    else Ok c.

(** *** Runs of the scheduler

    The driver that calls the four stages each cycle is outside
    [ooo.cpp]; a run is any interleaving of stage calls that return, and
    of the front end refilling the issue queue and counting fetches. *)

Definition refill (queue : list Instr) (fetched : nat) (c : Core) : Core :=
  mkCore queue (RAT_ c) (ROB_ c) (RS_ c) (RST_ c) (CDB_ c) (FUs_ c)
    (reg_file_ c) (perf_stats_instrs c) fetched (exited_ c).

Inductive step : Core → Core → Prop :=
  | step_issue c c' : issue c = Ok c' → step c c'
  | step_execute c c' : execute c = Ok c' → step c c'
  | step_writeback c c' : writeback c = Ok c' → step c c'
  | step_commit c c' : commit c = Ok c' → step c c'
  | step_front_end c queue fetched : step c (refill queue fetched c).

(** Power-on: nothing renamed, nothing in flight. *)
Definition initial (c : Core) : Prop :=
  RAT_ c = ∅ ∧ ROB.count (ROB_ c) = 0.

Inductive reachable : Core → Prop :=
  | reachable_initial c : initial c → reachable c
  | reachable_step c c' : reachable c → step c c' → reachable c'.

(** *** Vocabulary of the properties *)

(** Where a used source register [rs] gets its operand from in state
    [c], as the pair (pending producer id, data): the result of a ready
    reorder entry, the station of a pending one, or the register file. *)
Inductive operand_source (c : Core) (rs : nat) : Z → Z → Prop :=
  | source_rob_ready rob_index e :
      RAT_ c !! rs = Some rob_index →
      ROB.store (ROB_ c) !! rob_index = Some e →
      ROB.ready e = true →
      operand_source c rs (-1)%Z (ROB.result e)
  | source_rob_pending rob_index e :
      RAT_ c !! rs = Some rob_index →
      ROB.store (ROB_ c) !! rob_index = Some e →
      ROB.ready e = false →
      operand_source c rs (RST_ c rob_index) 0%Z
  | source_reg_file v :
      RAT_ c !! rs = None →
      reg_file_ c !! rs = Some v →
      operand_source c rs (-1)%Z v.

(** The accesses of a "get rs data" block stay in range. *)
Definition operand_readable (c : Core) (use_rs : bool) (rs : nat) : Prop :=
  use_rs = true →
  match RAT_ c !! rs with
  | Some rob_index => rob_index < ROB.capacity (ROB_ c)
  | None => rs < length (reg_file_ c)
  end.

(** A slot the third loop of [execute] would pick up: ready to run, with
    its functional unit present in [fus] and not busy. *)
Definition eligible (pool : RS.t) (fus : list F) (rs_index : nat) : bool :=
  match pool !! rs_index with
  | Some entry =>
      RS.valid entry && negb (RS.running entry)
      && RS.operands_ready pool rs_index && negb (RS.locked pool rs_index)
      && match fus !! getFUType (RS.instr entry) with
         | Some fu => negb (FU.busy fu)
         | None => false
         end
  | None => false
  end.

(** Every valid slot names a functional unit that exists. *)
Definition units_present (pool : RS.t) (fus : list F) : Prop :=
  ∀ rs_index entry,
    pool !! rs_index = Some entry → RS.valid entry = true →
    getFUType (RS.instr entry) < length fus.

(** What a broadcast makes of a station entry: a valid one takes the
    operand update. *)
Definition woken (d : CDB.data_t) (e : RS.entry_t) : RS.entry_t :=
  if RS.valid e then RS.update_operands d e else e.

(** What [writeback] leaves in slot [rs_index] for an entry [e]: only the
    slot the message names is released. *)
Definition after_broadcast (d : CDB.data_t) (rs_index : nat) (e : RS.entry_t)
    : RS.entry_t :=
  if decide (rs_index = CDB.rs_index d) then RS.invalidate (woken d e) else woken d e.

(** A message on the bus names a station and a reorder entry that exist. *)
Definition bus_in_range (c : Core) : Prop :=
  match CDB_ c with
  | Some d =>
      CDB.rs_index d < RS.size (RS_ c) ∧ CDB.rob_index d < ROB.capacity (ROB_ c)
  | None => True
  end.

(** The RAT names, for each register, exactly the youngest in-flight
    instruction writing it; the buffer holds no more than its capacity. *)
Definition rat_tracks_rob (c : Core) : Prop :=
  ROB.count (ROB_ c) ≤ ROB.capacity (ROB_ c)
  ∧ ∀ reg, RAT_ c !! reg = ROB.youngest_writer reg (ROB_ c).

(** The commit of state [c] retires an exit instruction. *)
Definition retires_exit (c : Core) : Prop :=
  ROB.empty (ROB_ c) = false ∧
  ∃ e, ROB.store (ROB_ c) !! ROB.head_index (ROB_ c) = Some e ∧
       ROB.ready e = true ∧ is_exit (getExeFlags (ROB.instr e)) = true.

(** A slot the third loop of [execute] stops at to look up its unit:
    valid, not running, operands ready and not locked. *)
Definition ready_slot (pool : RS.t) (rs_index : nat) : bool :=
  match pool !! rs_index with
  | Some entry =>
      RS.valid entry && negb (RS.running entry)
      && RS.operands_ready pool rs_index && negb (RS.locked pool rs_index)
  | None => false
  end.

(** The instructions in flight, oldest first. *)
Definition in_flight (q : ROB.t) : list Instr :=
  omap (λ idx, ROB.instr <$> ROB.store q !! idx) (ROB.live q).

(** The instructions the core still has to retire, in the order they
    entered it: those in flight, then those waiting in the issue queue. *)
Definition program_order (c : Core) : list Instr :=
  in_flight (ROB_ c) ++ issue_queue_ c.

(** What a [commit] call from [c] to [c'] retired: the instruction at
    the head when the retirement count moved, nothing otherwise. *)
Definition retired_by (c c' : Core) : list Instr :=
  if decide (perf_stats_instrs c' = perf_stats_instrs c) then []
  else match ROB.store (ROB_ c) !! ROB.head_index (ROB_ c) with
       | Some e => [ROB.instr e]
       | None => []
       end.

(** A run of stage calls that return, from a first state to a last one,
    with the instructions it retires, in order, and the instructions the
    front end appends to the issue queue meanwhile. *)
Inductive run : Core → list Instr → list Instr → Core → Prop :=
  | run_here c : run c [] [] c
  | run_issue c retired fetched c1 c2 :
      run c retired fetched c1 → issue c1 = Ok c2 → run c retired fetched c2
  | run_execute c retired fetched c1 c2 :
      run c retired fetched c1 → execute c1 = Ok c2 → run c retired fetched c2
  | run_writeback c retired fetched c1 c2 :
      run c retired fetched c1 → writeback c1 = Ok c2 → run c retired fetched c2
  | run_commit c retired fetched c1 c2 :
      run c retired fetched c1 → commit c1 = Ok c2 →
      run c (retired ++ retired_by c1 c2) fetched c2
  | run_fetch c retired fetched c1 more n :
      run c retired fetched c1 →
      run c retired (fetched ++ more) (refill (issue_queue_ c1 ++ more) n c1).

(** *** Counting fetches *)

(** The instructions the core has retired, has in flight or has queued
    do not outnumber the instructions fetched. *)
Definition accounted (c : Core) : Prop :=
  perf_stats_instrs c + ROB.count (ROB_ c) + length (issue_queue_ c)
  ≤ fetched_instrs_ c.

(** Modelled from the spec: the front end that maintains
    [fetched_instrs_] is outside [ooo.cpp]; it counts an instruction as
    fetched before the instruction reaches the issue queue. A step of a
    counted run is a stage call that returns, or the front end appending
    instructions to the issue queue and advancing the fetch count by at
    least their number. *)
Inductive counted_step : Core → Core → Prop :=
  | counted_issue c c' : issue c = Ok c' → counted_step c c'
  | counted_execute c c' : execute c = Ok c' → counted_step c c'
  | counted_writeback c c' : writeback c = Ok c' → counted_step c c'
  | counted_commit c c' : commit c = Ok c' → counted_step c c'
  | counted_fetch c more n :
      length more ≤ n →
      counted_step c (refill (issue_queue_ c ++ more) (fetched_instrs_ c + n) c).

(** *** Coherence of the scheduler's tables *)

(** Station [rs_index] is valid and running for reorder index
    [rob_index]. *)
Definition holds (pool : RS.t) (rs_index rob_index : nat) : Prop :=
  ∃ e, pool !! rs_index = Some e
    ∧ RS.valid e = true ∧ RS.running e = true ∧ RS.rob_index e = rob_index.

(** A producer id is the sentinel or the slot of a valid station. *)
Definition names_station (pool : RS.t) (id : Z) : Prop :=
  id = (-1)%Z
  ∨ ∃ p ep, id = Z.of_nat p ∧ pool !! p = Some ep ∧ RS.valid ep = true.

(** The bus message and every busy unit work for a valid, running
    station, each for a different one. *)
Record holders (pool : RS.t) (fus : list F) (cdb : CDB.t) : Prop := {
  bus_holds (d : CDB.data_t) :
    cdb = Some d → holds pool (CDB.rs_index d) (CDB.rob_index d);
  unit_holds (t : nat) (fu : F) :
    fus !! t = Some fu → FU.busy fu = true →
    holds pool (FU.rs_index (FU.get_output fu)) (FU.rob_index (FU.get_output fu));
  units_apart (t1 t2 : nat) (fu1 fu2 : F) :
    fus !! t1 = Some fu1 → fus !! t2 = Some fu2 →
    FU.busy fu1 = true → FU.busy fu2 = true →
    FU.rs_index (FU.get_output fu1) = FU.rs_index (FU.get_output fu2) →
    t1 = t2;
  bus_apart (d : CDB.data_t) (t : nat) (fu : F) :
    cdb = Some d → fus !! t = Some fu → FU.busy fu = true →
    FU.rs_index (FU.get_output fu) ≠ CDB.rs_index d
}.

(** The stations and the reorder buffer agree: a valid station stands for
    an entry in flight that is not ready and carries the same instruction,
    no two valid stations stand for the same entry, every entry in flight
    that is not ready has its station, the RST finds the station of an
    entry that writes a register, and a pending producer id of a valid
    station names a valid station. *)
Record stations (pool : RS.t) (q : ROB.t) (rst : nat → Z) : Prop := {
  station_entry (k : nat) (e : RS.entry_t) :
    pool !! k = Some e → RS.valid e = true →
    RS.rob_index e ∈ ROB.live q
    ∧ ∃ r, ROB.store q !! RS.rob_index e = Some r
        ∧ ROB.ready r = false ∧ ROB.instr r = RS.instr e;
  station_unique (k1 k2 : nat) (e1 e2 : RS.entry_t) :
    pool !! k1 = Some e1 → pool !! k2 = Some e2 →
    RS.valid e1 = true → RS.valid e2 = true →
    RS.rob_index e1 = RS.rob_index e2 → k1 = k2;
  entry_station (i : nat) (r : ROB.entry_t) :
    i ∈ ROB.live q → ROB.store q !! i = Some r → ROB.ready r = false →
    ∃ k e, pool !! k = Some e ∧ RS.valid e = true ∧ RS.rob_index e = i;
  rst_station (k : nat) (e : RS.entry_t) :
    pool !! k = Some e → RS.valid e = true →
    use_rd (getExeFlags (RS.instr e)) = true →
    rst (RS.rob_index e) = Z.of_nat k;
  pending_station (k : nat) (e : RS.entry_t) :
    pool !! k = Some e → RS.valid e = true →
    names_station pool (RS.rs1_index e) ∧ names_station pool (RS.rs2_index e)
}.

Record coherent (c : Core) : Prop := {
  coherent_rat : rat_tracks_rob c;
  coherent_stations : stations (RS_ c) (ROB_ c) (RST_ c);
  coherent_holders : holders (RS_ c) (FUs_ c) (CDB_ c)
}.

(** Reset: nothing renamed or in flight, every station free, the bus
    empty and every unit idle. *)
Definition reset (c : Core) : Prop :=
  initial c
  ∧ CDB_ c = None
  ∧ (∀ k e, RS_ c !! k = Some e → RS.valid e = false)
  ∧ (∀ t fu, FUs_ c !! t = Some fu → FU.busy fu = false).

End CoreModel.

Arguments Core F : clear implicits.

(** ** A concrete machine

    A one-cycle adder as functional unit and a pool that never locks, to
    run the model on concrete states. *)

Module Sample.

Record unit_t : Type := mk_unit {
  u_busy : bool;
  u_left : nat;
  u_out : FU.output_t
}.

#[global] Instance unit_fu : FU.FunctionalUnit unit_t := {|
  FU.busy u := u_busy u;
  FU.done u := u_busy u && bool_decide (u_left u = 0);
  FU.issue _ rob rs a b _ := mk_unit true 1 (FU.mk_output (a + b) rob rs);
  FU.execute u := mk_unit (u_busy u) (pred (u_left u)) (u_out u);
  FU.get_output u := u_out u;
  FU.clear u := mk_unit false 0 (u_out u)
|}.

#[global] Instance never_locked : RS.LockPolicy := λ _ _, false.

Definition idle : unit_t := mk_unit false 0 (FU.mk_output 0 0 0).

Definition no_flags : ExeFlags := mkExeFlags false false false false.

Definition nop : Instr := mkInstr 0 0 0 no_flags 0.

(** add x1 <- x1, x2 : a destination that is also a source. *)
Definition add_1_1_2 : Instr := mkInstr 1 2 1 (mkExeFlags true true true false) 0.

(** An instruction that only writes x3. *)
Definition li_3 : Instr := mkInstr 0 0 3 (mkExeFlags false false true false) 0.

Definition exit_instr : Instr := mkInstr 0 0 0 (mkExeFlags false false false true) 0.

Definition free_station : RS.entry_t := RS.mk_entry false false 0 (-1) (-1) 0 0 nop.

Definition blank : ROB.entry_t := ROB.mk_entry nop false 0.

(** Power-on state with two reorder entries, two stations, one unit and
    four registers holding 10, 11, 12, 13. *)
Definition power_on (queue : list Instr) : Core unit_t :=
  mkCore queue ∅ (ROB.mk [blank; blank] 0 0) [free_station; free_station]
    (λ _, (-1)%Z) None [idle] [10; 11; 12; 13]%Z 0 (length queue) false.

(** The state a stage call returns, for chaining calls that are known to
    return. *)
Definition after (r : outcome (Core unit_t)) : Core unit_t :=
  match r with
  | Ok c => c
  | Abort _ => power_on []
  end.

(** A short run: both instructions issued, the add executed, its result
    on the bus, written back and committed. *)
Definition s_issued : Core unit_t := after (issue (power_on [add_1_1_2; li_3])).
Definition s_issued2 : Core unit_t := after (issue s_issued).
Definition s_running : Core unit_t := after (execute s_issued2).
Definition s_done : Core unit_t := after (execute s_running).
Definition s_written : Core unit_t := after (writeback s_done).
Definition s_committed : Core unit_t := after (commit s_written).

(** The add issued and a second add, reading the renamed x1, waiting. *)
Definition s_renamed : Core unit_t := after (issue (power_on [add_1_1_2; add_1_1_2])).

(** Both stations and both reorder entries taken, and one more
    instruction waiting in the issue queue. *)
Definition jammed : Core unit_t := refill [nop] 3 s_issued2.

(** An exit instruction, ready, at the head of the reorder buffer. *)
Definition exiting : Core unit_t :=
  mkCore [] ∅ (ROB.mk [ROB.mk_entry exit_instr true 0; blank] 0 1)
    [free_station; free_station] (λ _, (-1)%Z) None [idle] [10; 11; 12; 13]%Z
    0 1 false.

(** Two dependent adds issued and the first handed to the unit. *)
Definition s_dispatched : Core unit_t :=
  after (execute (after (issue s_renamed))).

(** Two dependent adds issued, the first executed and its result on the
    bus while the second still waits for it. *)
Definition s_waiting : Core unit_t :=
  after (execute (after (execute (after (issue s_renamed))))).

(** One add issued and executed, its result on the bus, and an add
    reading its destination at the front of the issue queue. *)
Definition s_forward : Core unit_t :=
  refill [add_1_1_2] 2
    (after (execute (after (execute (after (issue (power_on [add_1_1_2]))))))).

(** An instruction for a functional unit the machine does not have. *)
Definition on_unit_5 : Instr := mkInstr 0 0 0 no_flags 5.

Definition s_no_unit : Core unit_t := after (issue (power_on [on_unit_5])).

(** A run through an exit instruction: issued, executed, written back
    and committed, which sets the termination flag; then the add behind it
    goes the same way. *)
Definition x_issued : Core unit_t := after (issue (power_on [exit_instr; add_1_1_2])).
Definition x_running : Core unit_t := after (execute x_issued).
Definition x_done : Core unit_t := after (execute x_running).
Definition x_written : Core unit_t := after (writeback x_done).
Definition x_exited : Core unit_t := after (commit x_written).
Definition y_issued : Core unit_t := after (issue x_exited).
Definition y_running : Core unit_t := after (execute y_issued).
Definition y_done : Core unit_t := after (execute y_running).
Definition y_written : Core unit_t := after (writeback y_done).
Definition y_committed : Core unit_t := after (commit y_written).

End Sample.

(** * Properties *)

Section CoreProperties.

Context {F : Type} `{!FU.FunctionalUnit F} `{!RS.LockPolicy}.

Implicit Types (c : Core F) (pool : RS.t) (fus : list F) (q : ROB.t).

(** ** The error monad *)

Lemma bind_Ok {A B} (m : outcome A) (k : A → outcome B) (b : B) :
  m ≫= k = Ok b → ∃ a, m = Ok a ∧ k a = Ok b.
Proof. destruct m as [a|f]; simpl; [eauto | discriminate]. Qed.

Lemma at_Ok {A} (v : list A) (i : nat) (x : A) : at_ v i = Ok x ↔ v !! i = Some x.
Proof. unfold at_. destruct (v !! i); split; congruence. Qed.

Lemma at_in_range {A} (v : list A) (i : nat) :
  i < length v → ∃ x, at_ v i = Ok x ∧ v !! i = Some x.
Proof.
  intros Hi. destruct (lookup_lt_is_Some_2 v i Hi) as [x Hx].
  exists x. split; [by apply at_Ok | done].
Qed.

Ltac bind_inv H :=
  let a := fresh "a" in
  let Ha := fresh "Hrun" in
  apply bind_Ok in H as (a & Ha & H).

Tactic Notation "unbind" hyp(H) "as" ident(a) ident(Ha) :=
  apply bind_Ok in H as (a & Ha & H).

(** ** Reading a source operand *)

Lemma RAT_exists_true (m : gmap nat nat) (reg : nat) :
  RAT.exists_ m reg = true ↔ ∃ i, m !! reg = Some i.
Proof. unfold RAT.exists_. rewrite bool_decide_eq_true. reflexivity. Qed.

Lemma RAT_exists_false (m : gmap nat nat) (reg : nat) :
  RAT.exists_ m reg = false ↔ m !! reg = None.
Proof.
  unfold RAT.exists_. rewrite bool_decide_eq_false, <- eq_None_not_Some. reflexivity.
Qed.

Lemma read_operand_unused c (rs : nat) : read_operand c false rs = Ok ((-1)%Z, 0%Z).
Proof. reflexivity. Qed.

Lemma read_operand_source c (rs : nat) (rsid data : Z) :
  read_operand c true rs = Ok (rsid, data) → operand_source c rs rsid data.
Proof.
  unfold read_operand. destruct (RAT.exists_ (RAT_ c) rs) eqn:Hex.
  - apply RAT_exists_true in Hex as [i Hi]. unfold RAT.get. rewrite Hi. simpl.
    intros Hrd. bind_inv Hrd. apply at_Ok in Hrun.
    destruct (ROB.ready a) eqn:Hready; inversion Hrd; subst.
    + by eapply source_rob_ready.
    + by eapply source_rob_pending.
  - apply RAT_exists_false in Hex. intros Hrd. bind_inv Hrd.
    apply at_Ok in Hrun. inversion Hrd; subst. by apply source_reg_file.
Qed.

Lemma read_operand_total c (use_rs : bool) (rs : nat) :
  operand_readable c use_rs rs → ∃ p, read_operand c use_rs rs = Ok p.
Proof.
  unfold operand_readable, read_operand. destruct use_rs; [|eauto].
  intros Hrange. specialize (Hrange eq_refl).
  destruct (RAT.exists_ (RAT_ c) rs) eqn:Hex.
  - apply RAT_exists_true in Hex as [i Hi]. rewrite Hi in Hrange.
    unfold RAT.get, ROB.get_entry. rewrite Hi. simpl.
    destruct (at_in_range _ _ Hrange) as (e & -> & _). simpl.
    destruct (ROB.ready e); eauto.
  - apply RAT_exists_false in Hex. rewrite Hex in Hrange.
    destruct (at_in_range _ _ Hrange) as (v & -> & _). simpl. eauto.
Qed.

(** ** Claiming a station and a reorder entry *)

Lemma RS_full_false pool :
  RS.full pool = false →
  ∃ idx e, RS.free_slot pool = Some idx ∧ pool !! idx = Some e ∧ RS.valid e = false
           ∧ ∀ j e', j < idx → pool !! j = Some e' → RS.valid e' = true.
Proof.
  unfold RS.full, RS.free_slot. intros Hfull.
  destruct (list_find (λ e, RS.valid e = false) pool) as [[idx e]|] eqn:Hfind.
  - apply list_find_Some in Hfind as (Hidx & Hv & Hlow).
    exists idx, e. repeat split; [done..|].
    intros j e' Hj He'. specialize (Hlow j e' He' Hj). by destruct (RS.valid e').
  - exfalso. apply list_find_None in Hfind.
    assert (forallb RS.valid pool = true); [|congruence].
    apply forallb_forall. intros e He. apply list_elem_of_In in He.
    rewrite Forall_forall in Hfind. specialize (Hfind e He).
    by destruct (RS.valid e).
Qed.

Lemma RS_free_slot_Some pool (idx : nat) :
  RS.free_slot pool = Some idx →
  ∃ e, pool !! idx = Some e ∧ RS.valid e = false.
Proof.
  unfold RS.free_slot. destruct (list_find _ pool) as [[i e]|] eqn:Hfind; [|done].
  intros [= <-]. apply list_find_Some in Hfind as (? & ? & _). eauto.
Qed.

(** The state [issue] builds when it does not stall. *)
Lemma issue_inv c c' :
  issue c = Ok c' →
  c' = c ∨
  ∃ instr queue' a1 d1 a2 d2 rs_index,
    issue_queue_ c = instr :: queue'
    ∧ RS.full (RS_ c) = false ∧ ROB.full (ROB_ c) = false
    ∧ read_operand c (use_rs1 (getExeFlags instr)) (getRs1 instr) = Ok (a1, d1)
    ∧ read_operand c (use_rs2 (getExeFlags instr)) (getRs2 instr) = Ok (a2, d2)
    ∧ RS.free_slot (RS_ c) = Some rs_index
    ∧ c' = mkCore queue'
        (if use_rd (getExeFlags instr)
         then <[getRd instr := ROB.tail_index (ROB_ c)]> (RAT_ c) else RAT_ c)
        (ROB.mk (<[ROB.tail_index (ROB_ c) := ROB.mk_entry instr false 0]>
                   (ROB.store (ROB_ c)))
                (ROB.head (ROB_ c)) (S (ROB.count (ROB_ c))))
        (<[rs_index := RS.mk_entry true false (ROB.tail_index (ROB_ c)) a1 a2 d1 d2 instr]>
           (RS_ c))
        (if use_rd (getExeFlags instr)
         then RST_put (ROB.tail_index (ROB_ c)) (Z.of_nat rs_index) (RST_ c)
         else RST_ c)
        (CDB_ c) (FUs_ c) (reg_file_ c) (perf_stats_instrs c) (fetched_instrs_ c)
        (exited_ c).
Proof.
  unfold issue. destruct (issue_queue_ c) as [|instr queue'] eqn:Hq.
  { intros [= <-]. by left. }
  destruct (RS.full (RS_ c)) eqn:Hrs; simpl.
  { intros [= <-]. by left. }
  destruct (ROB.full (ROB_ c)) eqn:Hrob; simpl.
  { intros [= <-]. by left. }
  intros Hrun. right.
  bind_inv Hrun. destruct a as [a1 d1].
  bind_inv Hrun. destruct a as [a2 d2].
  unfold ROB.allocate in Hrun. rewrite Hrob in Hrun. simpl in Hrun.
  unfold RS.issue in Hrun.
  destruct (RS.free_slot (RS_ c)) as [rs_index|] eqn:Hfree; [|discriminate].
  simpl in Hrun. injection Hrun as <-.
  exists instr, queue', a1, d1, a2, d2, rs_index. unfold RAT.set. done.
Qed.

Lemma issue_runs c instr queue' :
  issue_queue_ c = instr :: queue' →
  RS.full (RS_ c) = false → ROB.full (ROB_ c) = false →
  operand_readable c (use_rs1 (getExeFlags instr)) (getRs1 instr) →
  operand_readable c (use_rs2 (getExeFlags instr)) (getRs2 instr) →
  ∃ c', issue c = Ok c' ∧ c' ≠ c.
Proof.
  intros Hq Hrs Hrob Hr1 Hr2.
  destruct (read_operand_total _ _ _ Hr1) as [[a1 d1] H1].
  destruct (read_operand_total _ _ _ Hr2) as [[a2 d2] H2].
  destruct (RS_full_false _ Hrs) as (idx & e & Hfree & _).
  unfold issue. rewrite Hq, Hrs, Hrob. simpl. rewrite H1. simpl. rewrite H2. simpl.
  unfold ROB.allocate. rewrite Hrob. simpl. unfold RS.issue. rewrite Hfree. simpl.
  eexists. split; [reflexivity|]. intros Heq.
  apply (f_equal issue_queue_) in Heq. simpl in Heq. rewrite Hq in Heq.
  apply (f_equal length) in Heq. simpl in Heq. lia.
Qed.


(** The station [issue] fills, with the operand pairs it read. *)
Lemma issue_entry c instr queue' :
  issue_queue_ c = instr :: queue' →
  RS.full (RS_ c) = false → ROB.full (ROB_ c) = false →
  operand_readable c (use_rs1 (getExeFlags instr)) (getRs1 instr) →
  operand_readable c (use_rs2 (getExeFlags instr)) (getRs2 instr) →
  ∃ c' rs_index a1 d1 a2 d2,
    issue c = Ok c'
    ∧ RS.free_slot (RS_ c) = Some rs_index
    ∧ read_operand c (use_rs1 (getExeFlags instr)) (getRs1 instr) = Ok (a1, d1)
    ∧ read_operand c (use_rs2 (getExeFlags instr)) (getRs2 instr) = Ok (a2, d2)
    ∧ RS_ c' !! rs_index
      = Some (RS.mk_entry true false (ROB.tail_index (ROB_ c)) a1 a2 d1 d2 instr)
    ∧ RAT_ c' = (if use_rd (getExeFlags instr)
                 then <[getRd instr := ROB.tail_index (ROB_ c)]> (RAT_ c)
                 else RAT_ c).
Proof.
  intros Hq Hrs Hrob Hr1 Hr2.
  destruct (issue_runs c instr queue' Hq Hrs Hrob Hr1 Hr2) as (c' & Hrun & Hne).
  destruct (issue_inv _ _ Hrun) as [->|Hinv]; [done|].
  destruct Hinv as (i & q' & a1 & d1 & a2 & d2 & rs_index &
                    Hq' & _ & _ & H1 & H2 & Hfree & ->).
  rewrite Hq in Hq'. injection Hq' as <- <-.
  eexists; exists rs_index, a1, d1, a2, d2.
  split; [exact Hrun|]. repeat split; try done. simpl.
  destruct (RS_free_slot_Some _ _ Hfree) as (e & He & _).
  apply list_lookup_insert_eq. by eapply lookup_lt_Some.
Qed.

(** ** Issue *)

(** C2: when [issue] takes an instruction, each source operand it uses
    is resolved by priority: from the result of the reorder entry the RAT
    names when that entry is ready (no pending producer), else as a
    pending dependency on the station RST gives for that entry, and from
    the register file when the RAT has no mapping. *)
Theorem issue_resolves_sources c instr queue' :
  issue_queue_ c = instr :: queue' →
  RS.full (RS_ c) = false → ROB.full (ROB_ c) = false →
  operand_readable c (use_rs1 (getExeFlags instr)) (getRs1 instr) →
  operand_readable c (use_rs2 (getExeFlags instr)) (getRs2 instr) →
  ∃ c' rs_index e,
    issue c = Ok c'
    ∧ RS.free_slot (RS_ c) = Some rs_index
    ∧ RS_ c' !! rs_index = Some e
    ∧ RS.instr e = instr
    ∧ (use_rs1 (getExeFlags instr) = true →
       operand_source c (getRs1 instr) (RS.rs1_index e) (RS.rs1_data e))
    ∧ (use_rs2 (getExeFlags instr) = true →
       operand_source c (getRs2 instr) (RS.rs2_index e) (RS.rs2_data e)).
Proof.
  intros Hq Hrs Hrob Hr1 Hr2.
  destruct (issue_entry c instr queue' Hq Hrs Hrob Hr1 Hr2)
    as (c' & rs_index & a1 & d1 & a2 & d2 & Hrun & Hfree & H1 & H2 & He & _).
  exists c', rs_index, (RS.mk_entry true false (ROB.tail_index (ROB_ c)) a1 a2 d1 d2 instr).
  split; [done|]. split; [done|]. split; [done|]. split; [done|].
  simpl. split; intros Huse; rewrite Huse in *; by apply read_operand_source.
Qed.

(** C10: a source the instruction does not use enters its station
    resolved, with producer id [-1] and data [0]; it stays resolved under
    every broadcast, so readiness of the station depends on the other
    operand alone. *)
Theorem unused_source_is_resolved c instr queue' :
  issue_queue_ c = instr :: queue' →
  RS.full (RS_ c) = false → ROB.full (ROB_ c) = false →
  operand_readable c (use_rs1 (getExeFlags instr)) (getRs1 instr) →
  operand_readable c (use_rs2 (getExeFlags instr)) (getRs2 instr) →
  ∃ c' rs_index e,
    issue c = Ok c'
    ∧ RS_ c' !! rs_index = Some e
    ∧ RS.instr e = instr
    ∧ (use_rs1 (getExeFlags instr) = false →
       RS.rs1_index e = (-1)%Z ∧ RS.rs1_data e = 0%Z
       ∧ (∀ d, RS.rs1_index (RS.update_operands d e) = (-1)%Z)
       ∧ RS.operands_ready (RS_ c') rs_index = bool_decide (RS.rs2_index e = (-1)%Z))
    ∧ (use_rs2 (getExeFlags instr) = false →
       RS.rs2_index e = (-1)%Z ∧ RS.rs2_data e = 0%Z
       ∧ (∀ d, RS.rs2_index (RS.update_operands d e) = (-1)%Z)
       ∧ RS.operands_ready (RS_ c') rs_index = bool_decide (RS.rs1_index e = (-1)%Z)).
Proof.
  intros Hq Hrs Hrob Hr1 Hr2.
  destruct (issue_entry c instr queue' Hq Hrs Hrob Hr1 Hr2)
    as (c' & rs_index & a1 & d1 & a2 & d2 & Hrun & Hfree & H1 & H2 & He & _).
  exists c', rs_index, (RS.mk_entry true false (ROB.tail_index (ROB_ c)) a1 a2 d1 d2 instr).
  split; [done|]. split; [done|]. split; [done|].
  unfold RS.operands_ready. rewrite He. unfold RS.entry_operands_ready. simpl.
  split; intros Huse; rewrite Huse in *; rewrite read_operand_unused in *;
    simplify_eq; (split; [done|]); (split; [done|]); split.
  - intros d. by case_bool_decide.
  - done.
  - intros d. by case_bool_decide.
  - by rewrite andb_true_r.
Qed.

(** C6: a non-empty issue queue meeting a full station pool or a full
    reorder buffer leaves the whole state as it was, however often
    [issue] is repeated. *)
Theorem issue_stall_no_effect c (n : nat) :
  issue_queue_ c ≠ [] →
  RS.full (RS_ c) || ROB.full (ROB_ c) = true →
  issue c = Ok c ∧ Nat.iter n (λ r, r ≫= issue) (Ok c) = Ok c.
Proof.
  intros Hq Hfull.
  assert (Hone : issue c = Ok c).
  { unfold issue. destruct (issue_queue_ c); [done|]. by rewrite Hfull. }
  split; [done|]. induction n as [|n IH]; [done|].
  simpl. rewrite IH. simpl. done.
Qed.

(** ** Writeback *)

Lemma wakeup_lookup (n : nat) : ∀ (i : nat) (d : CDB.data_t) pool,
  i + n ≤ length pool →
  ∃ pool', wakeup n i d pool = Ok pool'
    ∧ length pool' = length pool
    ∧ ∀ j, pool' !! j
         = if decide (i ≤ j < i + n) then woken d <$> pool !! j else pool !! j.
Proof.
  induction n as [|n IH]; intros i d pool Hlen; simpl.
  - exists pool. repeat split; [done..|]. intros j. case_decide; [lia|done].
  - destruct (at_in_range pool i) as (e & Hat & He); [lia|].
    unfold RS.get_entry. rewrite Hat. simpl.
    assert (Hstep : (if RS.valid e then <[i := RS.update_operands d e]> pool else pool)
                    = <[i := woken d e]> pool).
    { unfold woken. destruct (RS.valid e); [done|]. symmetry. by apply list_insert_id. }
    rewrite Hstep.
    destruct (IH (S i) d (<[i := woken d e]> pool)) as (pool' & Hrun & Hl & Hlook).
    { rewrite length_insert. lia. }
    exists pool'. split; [done|]. split; [by rewrite Hl, length_insert|].
    intros j. rewrite Hlook. destruct (decide (j = i)) as [->|Hne].
    + rewrite list_lookup_insert_eq by lia. rewrite He. simpl.
      repeat case_decide; try lia; done.
    + rewrite list_lookup_insert_ne by done.
      repeat case_decide; try lia; done.
Qed.

Lemma wakeup_all (d : CDB.data_t) pool :
  wakeup (RS.size pool) 0 d pool = Ok (woken d <$> pool).
Proof.
  destruct (wakeup_lookup (RS.size pool) 0 d pool) as (pool' & -> & Hl & Hlook).
  { unfold RS.size. lia. }
  f_equal. apply list_eq. intros j. rewrite Hlook, list_lookup_fmap.
  case_decide as Hj; [done|].
  unfold RS.size in Hj. rewrite lookup_ge_None_2 by lia. done.
Qed.

(** C3: on an empty bus [writeback] changes nothing; on a message it
    updates the operands of every valid station, releases the one station
    the message names, marks the reorder entry of the message ready with
    its result, and empties the bus. Either way the bus is empty when
    [writeback] returns. *)
Theorem writeback_broadcasts c :
  bus_in_range c →
  ∃ c', writeback c = Ok c'
    ∧ CDB_ c' = None
    ∧ match CDB_ c with
      | None => c' = c
      | Some d =>
          ∃ old, ROB.store (ROB_ c) !! CDB.rob_index d = Some old
            ∧ c' = mkCore (issue_queue_ c) (RAT_ c)
                     (ROB.mk (<[CDB.rob_index d :=
                                  ROB.mk_entry (ROB.instr old) true (CDB.result d)]>
                                (ROB.store (ROB_ c)))
                             (ROB.head (ROB_ c)) (ROB.count (ROB_ c)))
                     (imap (after_broadcast d) (RS_ c))
                     (RST_ c) None (FUs_ c) (reg_file_ c)
                     (perf_stats_instrs c) (fetched_instrs_ c) (exited_ c)
      end.
Proof.
  unfold bus_in_range, writeback. destruct (CDB_ c) as [d|] eqn:Hbus; simpl.
  - intros [Hrs Hrob]. rewrite wakeup_all. simpl.
    unfold RS.release, RS.get_entry, ROB.update, ROB.get_entry.
    destruct (at_in_range (woken d <$> RS_ c) (CDB.rs_index d)) as (e & -> & He).
    { by rewrite length_fmap. }
    destruct (at_in_range (ROB.store (ROB_ c)) (CDB.rob_index d)) as (old & -> & Hold);
      [done|]. simpl.
    eexists. split; [reflexivity|]. split; [done|].
    exists old. split; [done|]. f_equal.
    apply list_eq. intros j. rewrite list_lookup_imap. unfold after_broadcast.
    destruct (decide (j = CDB.rs_index d)) as [->|Hne].
    + rewrite list_lookup_insert_eq by (rewrite length_fmap; exact Hrs).
      rewrite list_lookup_fmap in He.
      destruct (RS_ c !! CDB.rs_index d) as [e0|]; [|done].
      simpl in *. by injection He as <-.
    + rewrite list_lookup_insert_ne by done. rewrite list_lookup_fmap.
      by destruct (RS_ c !! j).
  - intros _. exists c. by rewrite Hbus.
Qed.

(** ** Execute: draining one unit onto the bus *)

Lemma drain_length fus (cdb : CDB.t) fus' (cdb' : CDB.t) :
  drain fus cdb = Ok (fus', cdb') → length fus' = length fus.
Proof.
  revert fus'. induction fus as [|fu rest IH]; intros fus' Hrun; simpl in Hrun.
  - by injection Hrun as <- <-.
  - destruct (FU.done fu && CDB.empty cdb).
    + bind_inv Hrun. by injection Hrun as <- <-.
    + bind_inv Hrun. destruct a as [rest' cdb1]. injection Hrun as <- <-.
      simpl. f_equal. by apply IH.
Qed.

Lemma drain_occupied fus (d : CDB.data_t) : drain fus (Some d) = Ok (fus, Some d).
Proof.
  induction fus as [|fu rest IH]; simpl; [done|].
  rewrite andb_false_r, IH. done.
Qed.

Lemma drain_none_done fus :
  (∀ i fu, fus !! i = Some fu → FU.done fu = false) →
  drain fus None = Ok (fus, None).
Proof.
  induction fus as [|fu rest IH]; intros Hnone; simpl; [done|].
  rewrite (Hnone 0 fu eq_refl). simpl. rewrite IH; [done|].
  intros i fu' Hi. by apply (Hnone (S i)).
Qed.

Lemma drain_first_done fus (i : nat) (fu : F) :
  fus !! i = Some fu → FU.done fu = true →
  (∀ j fu', j < i → fus !! j = Some fu' → FU.done fu' = false) →
  drain fus None
  = Ok (<[i := FU.clear fu]> fus,
        Some (CDB.mk_data (FU.result (FU.get_output fu))
                (FU.rob_index (FU.get_output fu)) (FU.rs_index (FU.get_output fu)))).
Proof.
  revert i. induction fus as [|fu0 rest IH]; intros i Hi Hdone Hfirst; [done|].
  destruct i as [|i]; simpl in *.
  - injection Hi as ->. by rewrite Hdone.
  - rewrite (Hfirst 0 fu0); [|lia|done]. simpl.
    rewrite (IH i Hi Hdone); [done|].
    intros j fu' Hj. apply (Hfirst (S j)). lia.
Qed.

Lemma execute_drain_total c :
  ∃ fus1 (cdb' : CDB.t), drain (advance (FUs_ c)) (CDB_ c) = Ok (fus1, cdb').
Proof.
  destruct (CDB_ c) as [d|]; [rewrite drain_occupied; eauto|].
  generalize (advance (FUs_ c)). intros fus.
  induction fus as [|fu rest (fus1 & cdb' & IH)]; simpl; [eauto|].
  destruct (FU.done fu); simpl; [eauto|]. rewrite IH. simpl. eauto.
Qed.

(** The dispatch scan changes at most one unit, and only one that is not
    busy. *)
Lemma schedule_touches_idle (n : nat) : ∀ (i : nat) pool fus pool' fus',
  schedule n i pool fus = Ok (pool', fus') →
  fus' = fus
  ∨ ∃ t fu fu', fus !! t = Some fu ∧ FU.busy fu = false ∧ fus' = <[t := fu']> fus.
Proof.
  induction n as [|n IH]; intros i pool fus pool' fus' Hrun; simpl in Hrun.
  { injection Hrun as <- <-. by left. }
  unbind Hrun as e He.
  destruct (RS.valid e && negb (RS.running e) && RS.operands_ready pool i
            && negb (RS.locked pool i)); [|by eapply IH].
  unbind Hrun as fu Hfu. apply at_Ok in Hfu.
  destruct (FU.busy fu) eqn:Hbusy; simpl in Hrun; [by eapply IH|].
  injection Hrun as <- <-. right.
  eexists _, fu, _. split; [exact Hfu|]. split; [exact Hbusy|reflexivity].
Qed.

(** C5: in [execute], once every unit has advanced, at most one done
    unit drains: on an empty bus the first done unit in scan order pushes
    its output and is cleared, every other unit is left as it is; on an
    occupied bus no unit is touched and the bus keeps its message. The
    bus [execute] returns is the one this scan leaves, and for units that
    stay busy while done, a done unit that did not drain is still there,
    unchanged, when [execute] returns. *)
Theorem execute_drains_one c :
  ∃ fus1 (cdb' : CDB.t),
    drain (advance (FUs_ c)) (CDB_ c) = Ok (fus1, cdb')
    ∧ advance (FUs_ c) = FU.execute <$> FUs_ c
    ∧ (∀ c', execute c = Ok c' → CDB_ c' = cdb')
    ∧ (∀ d, CDB_ c = Some d → fus1 = advance (FUs_ c) ∧ cdb' = Some d)
    ∧ (CDB_ c = None →
       (∀ i fu, advance (FUs_ c) !! i = Some fu → FU.done fu = false) →
       fus1 = advance (FUs_ c) ∧ cdb' = None)
    ∧ (CDB_ c = None →
       ∀ i fu, advance (FUs_ c) !! i = Some fu → FU.done fu = true →
         (∀ j fu', j < i → advance (FUs_ c) !! j = Some fu' → FU.done fu' = false) →
         fus1 = <[i := FU.clear fu]> (advance (FUs_ c))
         ∧ cdb' = Some (CDB.mk_data (FU.result (FU.get_output fu))
                          (FU.rob_index (FU.get_output fu))
                          (FU.rs_index (FU.get_output fu)))
         ∧ ∀ j, j ≠ i → fus1 !! j = advance (FUs_ c) !! j)
    ∧ ((∀ fu : F, FU.done fu = true → FU.busy fu = true) →
       ∀ c' j fu, execute c = Ok c' → fus1 !! j = Some fu → FU.done fu = true →
         FUs_ c' !! j = Some fu).
Proof.
  destruct (execute_drain_total c) as (fus1 & cdb' & Hrun). exists fus1, cdb'.
  split; [done|]. split; [done|]. split; [|split; [|split; [|split]]].
  - intros c' Hexec. unfold execute in Hexec. rewrite Hrun in Hexec. simpl in Hexec.
    bind_inv Hexec. destruct a as [rs' fus2]. by injection Hexec as <-.
  - intros d Hbus. rewrite Hbus, drain_occupied in Hrun. by injection Hrun as <- <-.
  - intros Hbus Hnone. rewrite Hbus, (drain_none_done _ Hnone) in Hrun.
    by injection Hrun as <- <-.
  - intros Hbus i fu Hi Hdone Hfirst.
    rewrite Hbus, (drain_first_done _ i fu Hi Hdone Hfirst) in Hrun.
    injection Hrun as <- <-. split; [done|]. split; [done|].
    intros j Hne. by rewrite list_lookup_insert_ne.
  - intros Hlaw c' j fu Hexec Hj Hdone.
    unfold execute in Hexec. rewrite Hrun in Hexec. simpl in Hexec.
    unbind Hexec as p Hsched. destruct p as [rs' fus2]. injection Hexec as <-. simpl.
    destruct (schedule_touches_idle _ _ _ _ _ _ Hsched)
      as [->|(t & fu0 & fu' & Ht & Hidle & ->)]; [done|].
    destruct (decide (j = t)) as [->|Hne].
    + rewrite Hj in Ht. injection Ht as <-. rewrite (Hlaw fu Hdone) in Hidle. done.
    + by rewrite list_lookup_insert_ne.
Qed.

(** ** Execute: dispatching one station *)

Lemma schedule_scan (n : nat) : ∀ (i : nat) pool fus,
  i + n ≤ length pool → units_present pool fus →
  ∃ pool' fus', schedule n i pool fus = Ok (pool', fus')
    ∧ ((∀ j, i ≤ j < i + n → eligible pool fus j = false)
       ∧ pool' = pool ∧ fus' = fus
       ∨ ∃ k e fu,
           i ≤ k < i + n
           ∧ pool !! k = Some e
           ∧ fus !! getFUType (RS.instr e) = Some fu
           ∧ eligible pool fus k = true
           ∧ (∀ j, i ≤ j < k → eligible pool fus j = false)
           ∧ pool' = <[k := RS.set_running e]> pool
           ∧ fus' = <[getFUType (RS.instr e) :=
                        FU.issue (RS.instr e) (RS.rob_index e) k
                          (RS.rs1_data e) (RS.rs2_data e) fu]> fus).
Proof.
  induction n as [|n IH]; intros i pool fus Hlen Hunits; simpl.
  { exists pool, fus. split; [done|]. left. split; [|done]. intros j Hj. lia. }
  destruct (at_in_range pool i) as (e & Hat & He); [lia|].
  unfold RS.get_entry. rewrite Hat. simpl.
  assert (Hskip : eligible pool fus i = false →
    ∃ pool' fus', schedule n (S i) pool fus = Ok (pool', fus')
    ∧ ((∀ j, i ≤ j < i + S n → eligible pool fus j = false)
       ∧ pool' = pool ∧ fus' = fus
       ∨ ∃ k e fu,
           i ≤ k < i + S n
           ∧ pool !! k = Some e
           ∧ fus !! getFUType (RS.instr e) = Some fu
           ∧ eligible pool fus k = true
           ∧ (∀ j, i ≤ j < k → eligible pool fus j = false)
           ∧ pool' = <[k := RS.set_running e]> pool
           ∧ fus' = <[getFUType (RS.instr e) :=
                        FU.issue (RS.instr e) (RS.rob_index e) k
                          (RS.rs1_data e) (RS.rs2_data e) fu]> fus)).
  { intros Hnot. destruct (IH (S i) pool fus) as (pool' & fus' & Hrun & Hcases);
      [lia|done|].
    exists pool', fus'. split; [done|].
    destruct Hcases as [(Hnone & -> & ->)|(k & e' & fu & Hk & He' & Hfu & Hel & Hlow & -> & ->)].
    - left. split; [|done]. intros j Hj.
      destruct (decide (j = i)) as [->|]; [done|]. apply Hnone. lia.
    - right. exists k, e', fu. repeat split; try done; try lia.
      intros j Hj. destruct (decide (j = i)) as [->|]; [done|]. apply Hlow. lia. }
  destruct (RS.valid e && negb (RS.running e) && RS.operands_ready pool i
            && negb (RS.locked pool i)) eqn:Hready.
  - assert (Hvalid : RS.valid e = true).
    { by destruct (RS.valid e). }
    destruct (at_in_range fus (getFUType (RS.instr e))) as (fu & Hfuat & Hfu).
    { by eapply Hunits. }
    rewrite Hfuat. simpl. destruct (FU.busy fu) eqn:Hbusy; simpl.
    + apply Hskip. unfold eligible. rewrite He, Hready, Hfu, Hbusy. done.
    + eexists _, _. split; [reflexivity|]. right. exists i, e, fu.
      repeat split; try done; try lia.
      unfold eligible. rewrite He, Hready, Hfu, Hbusy. done.
  - apply Hskip. unfold eligible. rewrite He, Hready. done.
Qed.

(** C4: [execute] dispatches at most one station: the lowest-indexed
    slot that is valid, not running, with both operands ready, not locked
    and whose functional unit is not busy after the drain. That slot,
    which was not running, has [running] true afterwards and every other
    field as before, and is handed to its unit; no other slot changes. *)
Theorem execute_dispatches_lowest c :
  units_present (RS_ c) (FUs_ c) →
  ∃ fus1 (cdb' : CDB.t) c',
    drain (advance (FUs_ c)) (CDB_ c) = Ok (fus1, cdb')
    ∧ execute c = Ok c'
    ∧ ((∀ j, eligible (RS_ c) fus1 j = false)
       ∧ RS_ c' = RS_ c ∧ FUs_ c' = fus1
       ∨ ∃ k e fu,
           RS_ c !! k = Some e
           ∧ fus1 !! getFUType (RS.instr e) = Some fu
           ∧ eligible (RS_ c) fus1 k = true
           ∧ (∀ j, j < k → eligible (RS_ c) fus1 j = false)
           ∧ RS.running e = false
           ∧ (∃ e', RS_ c' !! k = Some e'
                ∧ RS.running e' = true
                ∧ RS.valid e' = true
                ∧ RS.rob_index e' = RS.rob_index e
                ∧ RS.instr e' = RS.instr e
                ∧ RS.rs1_index e' = RS.rs1_index e
                ∧ RS.rs2_index e' = RS.rs2_index e
                ∧ RS.rs1_data e' = RS.rs1_data e
                ∧ RS.rs2_data e' = RS.rs2_data e)
           ∧ RS_ c' = <[k := RS.set_running e]> (RS_ c)
           ∧ (∀ j, j ≠ k → RS_ c' !! j = RS_ c !! j)
           ∧ FUs_ c' = <[getFUType (RS.instr e) :=
                          FU.issue (RS.instr e) (RS.rob_index e) k
                            (RS.rs1_data e) (RS.rs2_data e) fu]> fus1).
Proof.
  intros Hunits.
  destruct (execute_drain_total c) as (fus1 & cdb' & Hdrain).
  assert (Hunits1 : units_present (RS_ c) fus1).
  { intros j e Hj Hv. rewrite (drain_length _ _ _ _ Hdrain).
    unfold advance. rewrite length_fmap. by eapply Hunits. }
  destruct (schedule_scan (RS.size (RS_ c)) 0 (RS_ c) fus1) as (pool' & fus' & Hrun & Hcases).
  { unfold RS.size. lia. }
  { done. }
  exists fus1, cdb'. eexists. split; [done|].
  unfold execute. rewrite Hdrain. simpl. rewrite Hrun. simpl.
  split; [reflexivity|]. simpl.
  destruct Hcases as [(Hnone & -> & ->)|(k & e & fu & Hk & He & Hfu & Hel & Hlow & -> & ->)].
  - left. split; [|done]. intros j.
    destruct (decide (j < RS.size (RS_ c))) as [Hj|Hj]; [apply Hnone; lia|].
    unfold eligible. unfold RS.size in Hj. by rewrite lookup_ge_None_2 by lia.
  - right. exists k, e, fu.
    assert (Hflags : RS.valid e = true ∧ RS.running e = false).
    { unfold eligible in Hel. rewrite He in Hel.
      destruct (RS.valid e); [|done]. by destruct (RS.running e). }
    destruct Hflags as [Hvalid Hidle].
    split; [done|]. split; [done|]. split; [done|].
    split; [intros j Hj; apply Hlow; lia|]. split; [done|]. split.
    { exists (RS.set_running e).
      rewrite list_lookup_insert_eq by (by eapply lookup_lt_Some). done. }
    split; [done|]. split; [|done].
    intros j Hj. by rewrite list_lookup_insert_ne.
Qed.

(** ** The reorder buffer as a queue *)

Lemma mod_offset_inj (h n x y : nat) :
  x < n → y < n → (h + x) mod n = (h + y) mod n → x = y.
Proof.
  intros Hx Hy Heq.
  pose proof (Nat.div_mod_eq (h + x) n) as Dx.
  pose proof (Nat.div_mod_eq (h + y) n) as Dy.
  rewrite Heq in Dx.
  assert (Hd : (h + x) `div` n = (h + y) `div` n) by nia.
  rewrite Hd in Dx. lia.
Qed.

Lemma live_NoDup q : ROB.count q ≤ ROB.capacity q → NoDup (ROB.live q).
Proof.
  intros Hcount. unfold ROB.live. apply NoDup_fmap_2_strong; [|apply NoDup_seq].
  intros x y Hx Hy Heq. apply elem_of_seq in Hx, Hy.
  eapply mod_offset_inj; [| |exact Heq]; lia.
Qed.

Lemma tail_not_live q : ROB.count q < ROB.capacity q → ROB.tail_index q ∉ ROB.live q.
Proof.
  intros Hcount Hin. unfold ROB.live, ROB.tail_index in Hin.
  apply list_elem_of_fmap in Hin as (k & Heq & Hk). apply elem_of_seq in Hk.
  apply mod_offset_inj in Heq; lia.
Qed.

Lemma live_bound q (idx : nat) :
  ROB.count q ≤ ROB.capacity q → idx ∈ ROB.live q → idx < ROB.capacity q.
Proof.
  unfold ROB.live. intros Hcount Hin.
  apply list_elem_of_fmap in Hin as (k & -> & Hk). apply elem_of_seq in Hk.
  apply Nat.mod_upper_bound. lia.
Qed.

Lemma youngest_writer_live (reg : nat) q (idx : nat) :
  ROB.youngest_writer reg q = Some idx → idx ∈ ROB.live q.
Proof.
  unfold ROB.youngest_writer. intros Hlast. apply last_Some_elem_of in Hlast.
  by apply list_elem_of_filter in Hlast as [_ ?].
Qed.

Lemma youngest_writer_writes (reg : nat) q (idx : nat) :
  ROB.youngest_writer reg q = Some idx → ROB.writes reg q idx = true.
Proof.
  unfold ROB.youngest_writer. intros Hlast. apply last_Some_elem_of in Hlast.
  by apply list_elem_of_filter in Hlast as [? _].
Qed.

Lemma filter_writes_ext (reg : nat) q q' (l : list nat) :
  (∀ idx, idx ∈ l → ROB.writes reg q' idx = ROB.writes reg q idx) →
  filter (λ idx, ROB.writes reg q' idx = true) l
  = filter (λ idx, ROB.writes reg q idx = true) l.
Proof.
  induction l as [|x l IH]; intros Hext; [done|].
  rewrite !filter_cons. rewrite (Hext x) by apply list_elem_of_here.
  rewrite IH; [done|]. intros idx Hin. apply Hext. by apply list_elem_of_further.
Qed.

(** Allocation appends the tail index to the entries in flight. *)
Lemma youngest_writer_allocate (reg : nat) q (i : Instr) :
  ROB.count q < ROB.capacity q →
  ROB.youngest_writer reg
    (ROB.mk (<[ROB.tail_index q := ROB.mk_entry i false 0]> (ROB.store q))
       (ROB.head q) (S (ROB.count q)))
  = if use_rd (getExeFlags i) && bool_decide (getRd i = reg)
    then Some (ROB.tail_index q)
    else ROB.youngest_writer reg q.
Proof.
  intros Hcount. unfold ROB.youngest_writer.
  set (q' := ROB.mk _ _ _).
  assert (Hlive : ROB.live q' = ROB.live q ++ [ROB.tail_index q]).
  { unfold ROB.live, ROB.tail_index, q', ROB.capacity.
    cbn [ROB.store ROB.head ROB.count].
    rewrite length_insert, seq_S, fmap_app. done. }
  assert (Htail : ROB.tail_index q < length (ROB.store q)).
  { unfold ROB.tail_index. apply Nat.mod_upper_bound. unfold ROB.capacity in Hcount. lia. }
  rewrite Hlive, filter_app.
  rewrite (filter_writes_ext reg q q' (ROB.live q)).
  2:{ intros idx Hin. unfold ROB.writes, q'. simpl.
      rewrite list_lookup_insert_ne; [done|].
      intros <-. by apply (tail_not_live q). }
  rewrite filter_cons, filter_nil.
  assert (Hw : ROB.writes reg q' (ROB.tail_index q)
               = use_rd (getExeFlags i) && bool_decide (getRd i = reg)).
  { unfold ROB.writes, q'. simpl. by rewrite list_lookup_insert_eq. }
  rewrite Hw. destruct (use_rd (getExeFlags i) && bool_decide (getRd i = reg)).
  - rewrite decide_True by done. apply last_snoc.
  - rewrite decide_False by done. by rewrite app_nil_r.
Qed.

(** Popping removes the head index from the entries in flight. *)
Lemma live_pop q :
  ROB.count q ≠ 0 → ROB.head q < ROB.capacity q →
  ROB.live q
  = ROB.head q
    :: ROB.live (ROB.mk (ROB.store q) (S (ROB.head q) mod ROB.capacity q) (ROB.count q - 1)).
Proof.
  intros Hcount Hhead. unfold ROB.live, ROB.capacity. simpl.
  destruct (ROB.count q) as [|n]; [done|]. simpl.
  rewrite Nat.add_0_r, Nat.mod_small by done. f_equal.
  rewrite Nat.sub_0_r, <- fmap_S_seq, <- list_fmap_compose.
  apply list_fmap_ext. intros _ k _. simpl.
  rewrite Nat.Div0.add_mod_idemp_l. f_equal. lia.
Qed.

Lemma youngest_writer_pop (reg : nat) q :
  ROB.count q ≤ ROB.capacity q → ROB.count q ≠ 0 → ROB.head q < ROB.capacity q →
  ROB.youngest_writer reg
    (ROB.mk (ROB.store q) (S (ROB.head q) mod ROB.capacity q) (ROB.count q - 1))
  = if decide (ROB.youngest_writer reg q = Some (ROB.head q)) then None
    else ROB.youngest_writer reg q.
Proof.
  intros Hcap Hcount Hhead.
  pose proof (live_NoDup q Hcap) as Hnodup.
  unfold ROB.youngest_writer. rewrite (live_pop q Hcount Hhead) in *.
  set (rest := ROB.live _) in *.
  apply NoDup_cons in Hnodup as [Hfresh _].
  change (filter (λ idx, ROB.writes reg (ROB.mk (ROB.store q)
            (S (ROB.head q) mod ROB.capacity q) (ROB.count q - 1)) idx = true) rest)
    with (filter (λ idx, ROB.writes reg q idx = true) rest).
  assert (Hnot : last (filter (λ idx, ROB.writes reg q idx = true) rest)
                 ≠ Some (ROB.head q)).
  { intros Hlast. apply last_Some_elem_of, list_elem_of_filter in Hlast as [_ ?]. done. }
  rewrite filter_cons. destruct (decide (ROB.writes reg q (ROB.head q) = true)).
  - destruct (filter _ rest) as [|x r] eqn:Hf.
    + simpl. by rewrite decide_True.
    + rewrite last_cons_cons. by rewrite decide_False.
  - by rewrite decide_False.
Qed.

(** ** Commit *)

(** The state [commit] builds when it retires the head. *)
Lemma commit_inv c c' :
  commit c = Ok c' →
  c' = c ∧ (ROB.count (ROB_ c) = 0
            ∨ ∃ e, ROB.store (ROB_ c) !! ROB.head (ROB_ c) = Some e ∧ ROB.ready e = false)
  ∨
  ∃ e, ROB.count (ROB_ c) ≠ 0
    ∧ ROB.store (ROB_ c) !! ROB.head (ROB_ c) = Some e
    ∧ ROB.ready e = true
    ∧ perf_stats_instrs c ≤ fetched_instrs_ c
    ∧ c' = mkCore (issue_queue_ c)
        (if use_rd (getExeFlags (ROB.instr e))
            && bool_decide (RAT_ c !! getRd (ROB.instr e) = Some (ROB.head (ROB_ c)))
         then delete (getRd (ROB.instr e)) (RAT_ c) else RAT_ c)
        (ROB.mk (ROB.store (ROB_ c))
           (S (ROB.head (ROB_ c)) mod ROB.capacity (ROB_ c)) (ROB.count (ROB_ c) - 1))
        (RS_ c) (RST_ c) (CDB_ c) (FUs_ c)
        (if use_rd (getExeFlags (ROB.instr e))
         then <[getRd (ROB.instr e) := ROB.result e]> (reg_file_ c) else reg_file_ c)
        (S (perf_stats_instrs c)) (fetched_instrs_ c)
        (if is_exit (getExeFlags (ROB.instr e)) then true else exited_ c).
Proof.
  unfold commit. destruct (ROB.empty (ROB_ c)) eqn:Hempty.
  { intros [= <-]. left. split; [done|]. left.
    unfold ROB.empty in Hempty. by apply bool_decide_eq_true in Hempty. }
  unfold ROB.empty in Hempty. apply bool_decide_eq_false in Hempty.
  intros Hrun. unbind Hrun as e Hentry.
  pose proof Hentry as Hhead. apply at_Ok in Hhead. unfold ROB.head_index in *.
  destruct (ROB.ready e) eqn:Hready; [|simplify_eq; left; eauto].
  right. exists e. unbind Hrun as p Hretire. destruct p as [regs' rat'].
  unfold ROB.pop, ROB.empty in Hrun.
  rewrite (bool_decide_false (ROB.count (ROB_ c) = 0)) in Hrun by done.
  unfold ROB.get_entry in *. rewrite Hentry in Hrun. simpl in Hrun.
  rewrite Hready in Hrun. simpl in Hrun.
  case_bool_decide as Hassert; [|discriminate]. injection Hrun as <-.
  split; [done|]. split; [done|]. split; [done|]. split; [done|].
  unfold retire_rd in Hretire. destruct (use_rd (getExeFlags (ROB.instr e))); simpl.
  - unbind Hretire as regs Hput. unfold at_put in Hput.
    case_decide; [|discriminate]. injection Hput as <-.
    unfold RAT.get, RAT.clear in Hretire.
    destruct (RAT.exists_ (RAT_ c) (getRd (ROB.instr e))) eqn:Hex.
    + apply RAT_exists_true in Hex as [i Hi]. rewrite Hi in *. simpl in Hretire.
      case_bool_decide as Hi'; subst.
      * injection Hretire as <- <-. by rewrite bool_decide_true.
      * injection Hretire as <- <-. rewrite bool_decide_false; [done|congruence].
    + apply RAT_exists_false in Hex. rewrite Hex. injection Hretire as <- <-.
      by rewrite bool_decide_false.
  - by injection Hretire as <- <-.
Qed.

Lemma writes_update (reg : nat) q (d : CDB.data_t) (old : ROB.entry_t) (idx : nat) :
  ROB.store q !! CDB.rob_index d = Some old →
  ROB.writes reg
    (ROB.mk (<[CDB.rob_index d := ROB.mk_entry (ROB.instr old) true (CDB.result d)]>
               (ROB.store q)) (ROB.head q) (ROB.count q)) idx
  = ROB.writes reg q idx.
Proof.
  intros Hold. unfold ROB.writes. simpl.
  destruct (decide (idx = CDB.rob_index d)) as [->|Hne].
  - rewrite list_lookup_insert_eq by (by eapply lookup_lt_Some). by rewrite Hold.
  - by rewrite list_lookup_insert_ne.
Qed.

Lemma writeback_inv c c' :
  writeback c = Ok c' →
  c' = c ∨
  ∃ d old (pool' : RS.t),
    CDB_ c = Some d
    ∧ ROB.store (ROB_ c) !! CDB.rob_index d = Some old
    ∧ c' = mkCore (issue_queue_ c) (RAT_ c)
             (ROB.mk (<[CDB.rob_index d :=
                          ROB.mk_entry (ROB.instr old) true (CDB.result d)]>
                        (ROB.store (ROB_ c)))
                     (ROB.head (ROB_ c)) (ROB.count (ROB_ c)))
             pool' (RST_ c) None (FUs_ c) (reg_file_ c)
             (perf_stats_instrs c) (fetched_instrs_ c) (exited_ c).
Proof.
  unfold writeback. destruct (CDB_ c) as [d|] eqn:Hbus; simpl.
  - intros Hrun. right. unbind Hrun as pool1 Hwake.
    unbind Hrun as pool2 Hrelease. unbind Hrun as rob' Hupdate.
    unfold ROB.update in Hupdate. unbind Hupdate as old Hold. apply at_Ok in Hold.
    injection Hupdate as <-. unfold CDB.pop in Hrun. simpl in Hrun.
    injection Hrun as <-. by exists d, old, pool2.
  - intros [= <-]. by left.
Qed.

Lemma execute_inv c c' :
  execute c = Ok c' →
  ∃ (pool' : RS.t) (cdb' : CDB.t) fus',
    c' = mkCore (issue_queue_ c) (RAT_ c) (ROB_ c) pool' (RST_ c) cdb' fus'
           (reg_file_ c) (perf_stats_instrs c) (fetched_instrs_ c) (exited_ c).
Proof.
  unfold execute. intros Hrun. bind_inv Hrun. destruct a as [fus1 cdb'].
  bind_inv Hrun. destruct a as [pool' fus2]. injection Hrun as <-. eauto.
Qed.

(** ** The RAT follows the reorder buffer *)

Lemma rat_tracks_initial c : initial c → rat_tracks_rob c.
Proof.
  intros [Hrat Hcount]. split; [lia|]. intros reg.
  unfold ROB.youngest_writer, ROB.live. by rewrite Hrat, Hcount, lookup_empty.
Qed.

Lemma rat_tracks_issue c c' : rat_tracks_rob c → issue c = Ok c' → rat_tracks_rob c'.
Proof.
  intros [Hcap Hrat] Hrun. destruct (issue_inv _ _ Hrun) as [->|Hinv]; [done|].
  destruct Hinv as (instr & queue' & a1 & d1 & a2 & d2 & rs_index &
                    _ & _ & Hfull & _ & _ & _ & ->).
  unfold ROB.full in Hfull. apply bool_decide_eq_false in Hfull.
  split; simpl.
  - unfold ROB.capacity in *. simpl. rewrite length_insert. lia.
  - intros reg. rewrite youngest_writer_allocate by lia.
    destruct (use_rd (getExeFlags instr)); simpl; [|apply Hrat].
    case_bool_decide as Hreg.
    + subst. by rewrite lookup_insert_eq.
    + rewrite lookup_insert_ne by done. apply Hrat.
Qed.

Lemma head_writes (reg : nat) q (e : ROB.entry_t) :
  ROB.store q !! ROB.head q = Some e →
  ROB.writes reg q (ROB.head q) = true →
  use_rd (getExeFlags (ROB.instr e)) = true ∧ getRd (ROB.instr e) = reg.
Proof.
  unfold ROB.writes. intros ->. intros Hw. apply andb_true_iff in Hw as [? Hreg].
  by apply bool_decide_eq_true in Hreg.
Qed.

Lemma rat_tracks_commit c c' : rat_tracks_rob c → commit c = Ok c' → rat_tracks_rob c'.
Proof.
  intros [Hcap Hrat] Hrun. destruct (commit_inv _ _ Hrun) as [[-> _]|Hinv]; [done|].
  destruct Hinv as (e & Hcount & Hhead & _ & _ & ->).
  assert (Hlt : ROB.head (ROB_ c) < ROB.capacity (ROB_ c)) by (by eapply lookup_lt_Some).
  split; simpl.
  - unfold ROB.capacity in *. simpl. lia.
  - intros reg. rewrite youngest_writer_pop by done. rewrite <- Hrat.
    assert (Hwr : RAT_ c !! reg = Some (ROB.head (ROB_ c)) →
                  use_rd (getExeFlags (ROB.instr e)) = true ∧ getRd (ROB.instr e) = reg).
    { rewrite Hrat. intros Hy. eapply head_writes; [done|].
      by eapply youngest_writer_writes. }
    destruct (use_rd (getExeFlags (ROB.instr e))) eqn:Hrd; simpl.
    + case_bool_decide as Hmap.
      * destruct (decide (getRd (ROB.instr e) = reg)) as [<-|Hne].
        -- rewrite lookup_delete_eq. by rewrite decide_True.
        -- rewrite lookup_delete_ne by done.
           rewrite decide_False; [done|]. intros Hy. by destruct (Hwr Hy).
      * rewrite decide_False; [done|]. intros Hy. destruct (Hwr Hy) as [_ <-]. done.
    + rewrite decide_False; [done|]. intros Hy. by destruct (Hwr Hy).
Qed.

Lemma rat_tracks_writeback c c' :
  rat_tracks_rob c → writeback c = Ok c' → rat_tracks_rob c'.
Proof.
  intros [Hcap Hrat] Hrun. destruct (writeback_inv _ _ Hrun) as [->|Hinv]; [done|].
  destruct Hinv as (d & old & pool' & _ & Hold & ->).
  split; simpl.
  - unfold ROB.capacity in *. simpl. by rewrite length_insert.
  - intros reg. rewrite Hrat. unfold ROB.youngest_writer. f_equal.
    set (q' := ROB.mk _ _ _).
    assert (Hlive : ROB.live q' = ROB.live (ROB_ c)).
    { unfold ROB.live, ROB.capacity, q'. simpl. by rewrite length_insert. }
    rewrite Hlive. symmetry. apply filter_writes_ext.
    intros idx _. by apply writes_update.
Qed.

Lemma rat_tracks_step c c' : rat_tracks_rob c → step c c' → rat_tracks_rob c'.
Proof.
  intros Hinv Hstep. destruct Hstep as [c c' Hrun|c c' Hrun|c c' Hrun|c c' Hrun|c queue n].
  - by eapply rat_tracks_issue.
  - by destruct (execute_inv _ _ Hrun) as (pool' & cdb' & fus' & ->).
  - by eapply rat_tracks_writeback.
  - by eapply rat_tracks_commit.
  - done.
Qed.

Lemma reachable_rat_tracks c : reachable c → rat_tracks_rob c.
Proof.
  induction 1 as [c Hinit|c c' _ IH Hstep].
  - by apply rat_tracks_initial.
  - by eapply rat_tracks_step.
Qed.

(** C1: in every reachable state a RAT mapping for a register names the
    youngest in-flight instruction writing that register. Issue of a
    register-writing instruction maps its destination to the reorder index
    it has just allocated; commit clears the destination's mapping when it
    names the committing head, and leaves a mapping that names a younger
    entry in place. *)
Theorem rat_names_youngest_writer c :
  reachable c →
  (∀ reg rob_index,
     RAT_ c !! reg = Some rob_index →
     ROB.youngest_writer reg (ROB_ c) = Some rob_index)
  ∧ (∀ c' instr queue',
       issue c = Ok c' → issue_queue_ c = instr :: queue' →
       RS.full (RS_ c) = false → ROB.full (ROB_ c) = false →
       use_rd (getExeFlags instr) = true →
       ROB.allocate instr (ROB_ c) = Ok (ROB.tail_index (ROB_ c), ROB_ c')
       ∧ RAT_ c' !! getRd instr = Some (ROB.tail_index (ROB_ c)))
  ∧ (∀ c' reg younger,
       commit c = Ok c' →
       RAT_ c !! reg = Some younger → younger ≠ ROB.head_index (ROB_ c) →
       RAT_ c' !! reg = Some younger)
  ∧ (∀ c' reg,
       commit c = Ok c' → c' ≠ c →
       RAT_ c !! reg = Some (ROB.head_index (ROB_ c)) →
       RAT_ c' !! reg = None).
Proof.
  intros Hreach. pose proof (reachable_rat_tracks c Hreach) as [Hcap Hrat].
  split; [|split; [|split]].
  - intros reg rob_index Hmap. by rewrite <- Hrat.
  - intros c' instr queue' Hrun Hq Hrs Hrob Hrd.
    destruct (issue_inv _ _ Hrun) as [->|Hinv].
    { exfalso. unfold issue in Hrun. rewrite Hq, Hrs, Hrob in Hrun. simpl in Hrun.
      unbind Hrun as p1 H1. destruct p1. unbind Hrun as p2 H2. destruct p2.
      unbind Hrun as p3 H3. destruct p3. unbind Hrun as p4 H4. destruct p4.
      injection Hrun as Hrun. apply (f_equal issue_queue_) in Hrun. simpl in Hrun.
      rewrite Hq in Hrun. apply (f_equal length) in Hrun. simpl in Hrun. lia. }
    destruct Hinv as (i & q' & a1 & d1 & a2 & d2 & rs_index &
                      Hq' & _ & _ & _ & _ & _ & ->).
    rewrite Hq in Hq'. injection Hq' as <- <-. simpl. rewrite Hrd.
    split; [|by rewrite lookup_insert_eq].
    unfold ROB.allocate. by rewrite Hrob.
  - intros c' reg younger Hrun Hmap Hne.
    destruct (commit_inv _ _ Hrun) as [[-> _]|(e & _ & _ & _ & _ & ->)]; [done|]. simpl.
    destruct (use_rd (getExeFlags (ROB.instr e))); simpl; [|done].
    case_bool_decide as Hhead; [|done].
    destruct (decide (getRd (ROB.instr e) = reg)) as [<-|Hreg].
    + unfold ROB.head_index in Hne. congruence.
    + by rewrite lookup_delete_ne.
  - intros c' reg Hrun Hne Hmap.
    destruct (commit_inv _ _ Hrun) as [[-> _]|(e & _ & Hhead & _ & _ & ->)]; [done|]. simpl.
    unfold ROB.head_index in Hmap.
    assert (Hy : ROB.youngest_writer reg (ROB_ c) = Some (ROB.head (ROB_ c))).
    { by rewrite <- Hrat. }
    apply youngest_writer_writes in Hy.
    destruct (head_writes reg _ e Hhead Hy) as [-> <-]. simpl.
    rewrite bool_decide_true by done. apply lookup_delete_eq.
Qed.

(** C9: [issue] reads its sources in the state it starts from and only
    then allocates and renames: an instruction whose destination is also
    one of its sources has that source resolved against the previous
    producer or the register file, while the RAT it leaves names the
    instruction's own new reorder entry, which the read never consulted. *)
Theorem issue_reads_before_rename c instr queue' :
  reachable c →
  issue_queue_ c = instr :: queue' →
  RS.full (RS_ c) = false → ROB.full (ROB_ c) = false →
  operand_readable c (use_rs1 (getExeFlags instr)) (getRs1 instr) →
  operand_readable c (use_rs2 (getExeFlags instr)) (getRs2 instr) →
  use_rd (getExeFlags instr) = true →
  ∃ c' rs_index e,
    issue c = Ok c'
    ∧ RS_ c' !! rs_index = Some e
    ∧ RS.instr e = instr
    ∧ RS.rob_index e = ROB.tail_index (ROB_ c)
    ∧ RAT_ c' !! getRd instr = Some (ROB.tail_index (ROB_ c))
    ∧ (use_rs1 (getExeFlags instr) = true → getRs1 instr = getRd instr →
       operand_source c (getRs1 instr) (RS.rs1_index e) (RS.rs1_data e)
       ∧ RAT_ c !! getRs1 instr ≠ Some (ROB.tail_index (ROB_ c)))
    ∧ (use_rs2 (getExeFlags instr) = true → getRs2 instr = getRd instr →
       operand_source c (getRs2 instr) (RS.rs2_index e) (RS.rs2_data e)
       ∧ RAT_ c !! getRs2 instr ≠ Some (ROB.tail_index (ROB_ c))).
Proof.
  intros Hreach Hq Hrs Hrob Hr1 Hr2 Hrd.
  pose proof (reachable_rat_tracks c Hreach) as [Hcap Hrat].
  assert (Hfresh : ∀ reg, RAT_ c !! reg ≠ Some (ROB.tail_index (ROB_ c))).
  { intros reg Hmap. rewrite Hrat in Hmap. apply youngest_writer_live in Hmap.
    apply (tail_not_live (ROB_ c)); [|done].
    unfold ROB.full in Hrob. apply bool_decide_eq_false in Hrob. lia. }
  destruct (issue_entry c instr queue' Hq Hrs Hrob Hr1 Hr2)
    as (c' & rs_index & a1 & d1 & a2 & d2 & Hrun & Hfree & H1 & H2 & He & Hrat').
  exists c', rs_index, (RS.mk_entry true false (ROB.tail_index (ROB_ c)) a1 a2 d1 d2 instr).
  split; [done|]. split; [done|]. split; [done|]. split; [done|].
  split; [by rewrite Hrat', Hrd, lookup_insert_eq|]. simpl.
  split; intros Huse _; rewrite Huse in *; (split; [by apply read_operand_source|done]).
Qed.

(** ** Retirement count and termination *)

(** What the assertion of [commit] guards: it is evaluated on the count
    before the increment. *)
Lemma commit_counts c c' :
  commit c = Ok c' → c' ≠ c →
  perf_stats_instrs c ≤ fetched_instrs_ c
  ∧ perf_stats_instrs c' = S (perf_stats_instrs c)
  ∧ fetched_instrs_ c' = fetched_instrs_ c.
Proof.
  intros Hrun Hne.
  destruct (commit_inv _ _ Hrun) as [[-> _]|(e & _ & _ & _ & Hle & ->)]; done.
Qed.

(** A retiring commit entered with the count already above the fetch
    count does not return. *)
Lemma commit_asserts c (e : ROB.entry_t) :
  ROB.empty (ROB_ c) = false →
  ROB.store (ROB_ c) !! ROB.head_index (ROB_ c) = Some e →
  ROB.ready e = true →
  fetched_instrs_ c < perf_stats_instrs c →
  ∃ f, commit c = Abort f.
Proof.
  intros Hempty Hhead Hready Hover.
  destruct (commit c) as [c'|f] eqn:Hrun; [|eauto]. exfalso.
  unfold ROB.head_index in Hhead.
  unfold ROB.empty in Hempty. apply bool_decide_eq_false in Hempty.
  destruct (commit_inv _ _ Hrun) as [[_ [?|(e' & He' & Hnot)]]|(e' & _ & _ & _ & Hle & _)].
  - done.
  - rewrite Hhead in He'. injection He' as <-. congruence.
  - lia.
Qed.

Lemma commit_exited c c' (e : ROB.entry_t) :
  commit c = Ok c' →
  ROB.empty (ROB_ c) = false →
  ROB.store (ROB_ c) !! ROB.head_index (ROB_ c) = Some e →
  ROB.ready e = true →
  exited_ c' = if is_exit (getExeFlags (ROB.instr e)) then true else exited_ c.
Proof.
  intros Hrun Hempty Hhead Hready. unfold ROB.head_index in Hhead.
  unfold ROB.empty in Hempty. apply bool_decide_eq_false in Hempty.
  destruct (commit_inv _ _ Hrun) as [[_ [?|(e' & He' & Hnot)]]|(e' & _ & He' & _ & _ & ->)].
  - done.
  - rewrite Hhead in He'. injection He' as <-. congruence.
  - rewrite Hhead in He'. by injection He' as <-.
Qed.

(** C8: along any step of a run the termination flag turns true exactly
    when that step is a [commit] retiring an exit instruction from the
    head of the reorder buffer; [issue], [execute], [writeback] and the
    front end never set it. *)
Theorem exit_only_at_commit c c' :
  step c c' →
  exited_ c = false →
  (exited_ c' = true ↔ commit c = Ok c' ∧ retires_exit c).
Proof.
  intros Hstep Hlive. split.
  - intros Hexit.
    destruct Hstep as [c c' Hrun|c c' Hrun|c c' Hrun|c c' Hrun|c queue n].
    + exfalso. destruct (issue_inv _ _ Hrun) as [->|Hinv]; [congruence|].
      destruct Hinv as (? & ? & ? & ? & ? & ? & ? & _ & _ & _ & _ & _ & _ & ->).
      simpl in Hexit. congruence.
    + exfalso. destruct (execute_inv _ _ Hrun) as (? & ? & ? & ->).
      simpl in Hexit. congruence.
    + exfalso. destruct (writeback_inv _ _ Hrun) as [->|(? & ? & ? & _ & _ & ->)];
        simpl in Hexit; congruence.
    + split; [done|].
      destruct (commit_inv _ _ Hrun) as [[-> _]|(e & Hcount & Hhead & Hready & _ & ->)];
        [congruence|].
      simpl in Hexit. split.
      * unfold ROB.empty. by apply bool_decide_eq_false.
      * exists e. split; [done|]. split; [done|].
        destruct (is_exit (getExeFlags (ROB.instr e))); [done|congruence].
    + exfalso. simpl in Hexit. congruence.
  - intros [Hrun (Hempty & e & Hhead & Hready & Hexit)].
    rewrite (commit_exited c c' e Hrun Hempty Hhead Hready). by rewrite Hexit.
Qed.

(** * Further properties of the four stages *)

(** ** Which aborts the stages can raise *)

Lemma bind_Abort {A B} (m : outcome A) (k : A → outcome B) (f : fault) :
  m ≫= k = Abort f → m = Abort f ∨ ∃ a, m = Ok a ∧ k a = Abort f.
Proof. destruct m as [a|f']; simpl; [eauto|]. intros [= ->]. by left. Qed.

Lemma at_Abort {A} (v : list A) (i : nat) (f : fault) :
  at_ v i = Abort f → f = OutOfRange ∧ length v ≤ i.
Proof.
  unfold at_. destruct (v !! i) eqn:Hi; [done|]. intros [= <-].
  split; [done|]. by apply lookup_ge_None.
Qed.

Lemma read_operand_Abort c (use_rs : bool) (rs : nat) (f : fault) :
  read_operand c use_rs rs = Abort f → f = OutOfRange.
Proof.
  unfold read_operand. destruct use_rs; [|done].
  destruct (RAT.exists_ (RAT_ c) rs) eqn:Hex.
  - apply RAT_exists_true in Hex as [i Hi]. unfold RAT.get. rewrite Hi. simpl.
    intros Hrun. apply bind_Abort in Hrun as [Hrun|(e & _ & Hrun)].
    + by apply at_Abort in Hrun as [? _].
    + by destruct (ROB.ready e).
  - intros Hrun. apply bind_Abort in Hrun as [Hrun|(v & _ & Hrun)]; [|done].
    by apply at_Abort in Hrun as [? _].
Qed.

Lemma schedule_Abort (n : nat) : ∀ (i : nat) pool fus (f : fault),
  schedule n i pool fus = Abort f → f = OutOfRange.
Proof.
  induction n as [|n IH]; intros i pool fus f Hrun; simpl in Hrun; [done|].
  apply bind_Abort in Hrun as [Hrun|(e & _ & Hrun)].
  { by apply at_Abort in Hrun as [? _]. }
  destruct (RS.valid e && negb (RS.running e) && RS.operands_ready pool i
            && negb (RS.locked pool i)); [|by eapply IH].
  apply bind_Abort in Hrun as [Hrun|(fu & _ & Hrun)].
  { by apply at_Abort in Hrun as [? _]. }
  destruct (FU.busy fu); simpl in Hrun; [by eapply IH|done].
Qed.

Lemma wakeup_Abort (n : nat) : ∀ (i : nat) (d : CDB.data_t) pool (f : fault),
  wakeup n i d pool = Abort f → f = OutOfRange.
Proof.
  induction n as [|n IH]; intros i d pool f Hrun; simpl in Hrun; [done|].
  apply bind_Abort in Hrun as [Hrun|(e & _ & Hrun)].
  - by apply at_Abort in Hrun as [? _].
  - by eapply IH.
Qed.

(** X1: the guards of the four stages keep every container call inside
    its contract: [issue], [execute] and [writeback] can only fail on a
    bounds-checked access, and [commit] on one or on its assertion. *)
Theorem stages_respect_contracts c (f : fault) :
  (issue c = Abort f → f = OutOfRange)
  ∧ (execute c = Abort f → f = OutOfRange)
  ∧ (writeback c = Abort f → f = OutOfRange)
  ∧ (commit c = Abort f → f = OutOfRange ∨ f = AssertionFailed).
Proof.
  split; [|split; [|split]].
  - unfold issue. destruct (issue_queue_ c) as [|instr queue']; [done|].
    destruct (RS.full (RS_ c)) eqn:Hrs; simpl; [done|].
    destruct (ROB.full (ROB_ c)) eqn:Hrob; simpl; [done|].
    intros Hrun. apply bind_Abort in Hrun as [Hrun|([a1 d1] & _ & Hrun)].
    { by eapply read_operand_Abort. }
    apply bind_Abort in Hrun as [Hrun|([a2 d2] & _ & Hrun)].
    { by eapply read_operand_Abort. }
    unfold ROB.allocate in Hrun. rewrite Hrob in Hrun. simpl in Hrun.
    destruct (RS_full_false _ Hrs) as (idx & e & Hfree & _).
    unfold RS.issue in Hrun. rewrite Hfree in Hrun. done.
  - unfold execute. destruct (execute_drain_total c) as (fus1 & cdb' & ->). simpl.
    intros Hrun. apply bind_Abort in Hrun as [Hrun|([pool' fus2] & _ & Hrun)]; [|done].
    by eapply schedule_Abort.
  - unfold writeback. destruct (CDB_ c) as [d|]; simpl; [|done].
    intros Hrun. apply bind_Abort in Hrun as [Hrun|(pool1 & _ & Hrun)].
    { by eapply wakeup_Abort. }
    apply bind_Abort in Hrun as [Hrun|(pool2 & _ & Hrun)].
    { unfold RS.release in Hrun. apply bind_Abort in Hrun as [Hrun|(e & _ & Hrun)]; [|done].
      by apply at_Abort in Hrun as [? _]. }
    apply bind_Abort in Hrun as [Hrun|(rob' & _ & Hrun)]; [|done].
    unfold ROB.update in Hrun. apply bind_Abort in Hrun as [Hrun|(e & _ & Hrun)]; [|done].
    by apply at_Abort in Hrun as [? _].
  - unfold commit. destruct (ROB.empty (ROB_ c)) eqn:Hempty; [done|].
    intros Hrun. apply bind_Abort in Hrun as [Hrun|(e & He & Hrun)].
    { left. by apply at_Abort in Hrun as [? _]. }
    destruct (ROB.ready e) eqn:Hready; [|done].
    apply bind_Abort in Hrun as [Hrun|([regs' rat'] & _ & Hrun)].
    { left. unfold retire_rd in Hrun.
      destruct (use_rd (getExeFlags (ROB.instr e))); [|done].
      apply bind_Abort in Hrun as [Hrun|(regs & _ & Hrun)].
      - unfold at_put in Hrun. case_decide; [done|]. by injection Hrun as <-.
      - destruct (RAT.exists_ (RAT_ c) (getRd (ROB.instr e))) eqn:Hex; [|done].
        apply RAT_exists_true in Hex as [i Hi]. unfold RAT.get in Hrun.
        rewrite Hi in Hrun. simpl in Hrun. by case_bool_decide. }
    unfold ROB.pop in Hrun. rewrite Hempty in Hrun.
    unfold ROB.head_index in He. rewrite He in Hrun. simpl in Hrun.
    rewrite Hready in Hrun. simpl in Hrun.
    case_bool_decide; [done|]. injection Hrun as <-. by right.
Qed.

(** ** What issue leaves alone *)

(** The state [issue] builds from a queue front it does take. *)
Lemma issue_inv_taken c c' instr queue' :
  issue c = Ok c' →
  issue_queue_ c = instr :: queue' →
  RS.full (RS_ c) = false → ROB.full (ROB_ c) = false →
  ∃ a1 d1 a2 d2 rs_index,
    read_operand c (use_rs1 (getExeFlags instr)) (getRs1 instr) = Ok (a1, d1)
    ∧ read_operand c (use_rs2 (getExeFlags instr)) (getRs2 instr) = Ok (a2, d2)
    ∧ RS.free_slot (RS_ c) = Some rs_index
    ∧ c' = mkCore queue'
        (if use_rd (getExeFlags instr)
         then <[getRd instr := ROB.tail_index (ROB_ c)]> (RAT_ c) else RAT_ c)
        (ROB.mk (<[ROB.tail_index (ROB_ c) := ROB.mk_entry instr false 0]>
                   (ROB.store (ROB_ c)))
                (ROB.head (ROB_ c)) (S (ROB.count (ROB_ c))))
        (<[rs_index := RS.mk_entry true false (ROB.tail_index (ROB_ c)) a1 a2 d1 d2 instr]>
           (RS_ c))
        (if use_rd (getExeFlags instr)
         then RST_put (ROB.tail_index (ROB_ c)) (Z.of_nat rs_index) (RST_ c)
         else RST_ c)
        (CDB_ c) (FUs_ c) (reg_file_ c) (perf_stats_instrs c) (fetched_instrs_ c)
        (exited_ c).
Proof.
  intros Hrun Hq Hrs Hrob. unfold issue in Hrun. rewrite Hq, Hrs, Hrob in Hrun.
  simpl in Hrun.
  unbind Hrun as p1 H1. destruct p1 as [a1 d1].
  unbind Hrun as p2 H2. destruct p2 as [a2 d2].
  unfold ROB.allocate in Hrun. rewrite Hrob in Hrun. simpl in Hrun.
  unfold RS.issue in Hrun.
  destruct (RS.free_slot (RS_ c)) as [rs_index|] eqn:Hfree; [|discriminate].
  simpl in Hrun. injection Hrun as <-.
  exists a1, d1, a2, d2, rs_index. unfold RAT.set. done.
Qed.

Lemma tail_in_store q : ROB.full q = false → ROB.tail_index q < length (ROB.store q).
Proof.
  unfold ROB.full, ROB.tail_index, ROB.capacity. intros Hfull.
  apply bool_decide_eq_false in Hfull. apply Nat.mod_upper_bound. lia.
Qed.

(** X2: whatever [issue] does, it leaves the bus, the functional units,
    the register file, the two counters and the termination flag as they
    were, and the pool and the reorder buffer at their sizes; it changes
    the RAT at most at the destination of the instruction it takes, and
    the RST at most at the reorder index it allocates, and neither for an
    instruction that writes no register. *)
Theorem issue_frame c c' :
  issue c = Ok c' →
  CDB_ c' = CDB_ c ∧ FUs_ c' = FUs_ c ∧ reg_file_ c' = reg_file_ c
  ∧ perf_stats_instrs c' = perf_stats_instrs c
  ∧ fetched_instrs_ c' = fetched_instrs_ c
  ∧ exited_ c' = exited_ c
  ∧ RS.size (RS_ c') = RS.size (RS_ c)
  ∧ ROB.capacity (ROB_ c') = ROB.capacity (ROB_ c)
  ∧ ROB.head_index (ROB_ c') = ROB.head_index (ROB_ c)
  ∧ (∀ reg, RAT_ c' !! reg ≠ RAT_ c !! reg →
       ∃ instr, head (issue_queue_ c) = Some instr
         ∧ use_rd (getExeFlags instr) = true ∧ reg = getRd instr)
  ∧ (∀ idx, RST_ c' idx ≠ RST_ c idx →
       ∃ instr, head (issue_queue_ c) = Some instr
         ∧ use_rd (getExeFlags instr) = true ∧ idx = ROB.tail_index (ROB_ c)).
Proof.
  intros Hrun. destruct (issue_inv _ _ Hrun) as [->|Hinv].
  { repeat split; try done; intros x Hne; done. }
  destruct Hinv as (instr & queue' & a1 & d1 & a2 & d2 & rs_index &
                    Hq & _ & _ & _ & _ & _ & ->).
  simpl. unfold RS.size, ROB.capacity, ROB.head_index. simpl.
  rewrite !length_insert, Hq. simpl.
  split; [done|]. split; [done|]. split; [done|]. split; [done|].
  split; [done|]. split; [done|]. split; [done|]. split; [done|]. split; [done|].
  split.
  - intros reg Hne. exists instr. split; [done|].
    destruct (use_rd (getExeFlags instr)); [|done]. split; [done|].
    destruct (decide (reg = getRd instr)) as [|Hreg]; [done|].
    by rewrite lookup_insert_ne in Hne.
  - intros idx Hne. exists instr. split; [done|].
    destruct (use_rd (getExeFlags instr)); [|done]. split; [done|].
    unfold RST_put in Hne. by case_decide.
Qed.

(** X3: [issue] never overwrites state that is in use: every station
    that was valid keeps its entry, and every reorder entry that was in
    flight keeps its instruction, its ready flag and its result. *)
Theorem issue_keeps_in_flight c c' :
  ROB.count (ROB_ c) ≤ ROB.capacity (ROB_ c) →
  issue c = Ok c' →
  (∀ rs_index e, RS_ c !! rs_index = Some e → RS.valid e = true →
     RS_ c' !! rs_index = Some e)
  ∧ (∀ idx, idx ∈ ROB.live (ROB_ c) →
       ROB.store (ROB_ c') !! idx = ROB.store (ROB_ c) !! idx).
Proof.
  intros Hcap Hrun. destruct (issue_inv _ _ Hrun) as [->|Hinv]; [done|].
  destruct Hinv as (instr & queue' & a1 & d1 & a2 & d2 & rs_index &
                    _ & _ & Hfull & _ & _ & Hfree & ->).
  simpl. split.
  - intros j e Hj Hvalid. destruct (RS_free_slot_Some _ _ Hfree) as (e0 & He0 & Hfree0).
    rewrite list_lookup_insert_ne; [done|]. intros <-. congruence.
  - intros idx Hlive. rewrite list_lookup_insert_ne; [done|]. intros <-.
    apply (tail_not_live (ROB_ c)); [|done].
    unfold ROB.full in Hfull. apply bool_decide_eq_false in Hfull. lia.
Qed.

(** X4: a true dependency through renaming. When two instructions issue
    back to back and the second reads the register the first writes, the
    second enters its station waiting on the station of the first: its
    producer id is that slot, so it is not ready to run, whatever the
    register file holds. *)
Theorem issue_chains_dependency c c1 c2 (a b : Instr) rest :
  issue_queue_ c = a :: b :: rest →
  RS.full (RS_ c) = false → ROB.full (ROB_ c) = false →
  issue c = Ok c1 →
  RS.full (RS_ c1) = false → ROB.full (ROB_ c1) = false →
  issue c1 = Ok c2 →
  use_rd (getExeFlags a) = true →
  use_rs1 (getExeFlags b) = true →
  getRs1 b = getRd a →
  ∃ ka kb eb,
    RS.free_slot (RS_ c) = Some ka
    ∧ RS.free_slot (RS_ c1) = Some kb
    ∧ ka ≠ kb
    ∧ RS_ c2 !! kb = Some eb
    ∧ RS.instr eb = b
    ∧ RS.rs1_index eb = Z.of_nat ka
    ∧ RS.rs1_data eb = 0%Z
    ∧ RS.operands_ready (RS_ c2) kb = false.
Proof.
  intros Hq Hrs Hrob Hrun1 Hrs1 Hrob1 Hrun2 Hrd Huse Hreg.
  destruct (issue_inv_taken _ _ _ _ Hrun1 Hq Hrs Hrob)
    as (a1 & d1 & a2 & d2 & ka & _ & _ & Hka & Hc1).
  assert (Hq1 : issue_queue_ c1 = b :: rest) by (by rewrite Hc1).
  destruct (issue_inv_taken _ _ _ _ Hrun2 Hq1 Hrs1 Hrob1)
    as (b1 & e1 & b2 & e2 & kb & Hread & _ & Hkb & Hc2).
  pose proof (tail_in_store _ Hrob) as Htail.
  destruct (RS_free_slot_Some _ _ Hka) as (ea & Hea & _).
  destruct (RS_free_slot_Some _ _ Hkb) as (eb0 & Heb0 & Hfree).
  assert (Hne : ka ≠ kb).
  { intros <-. rewrite Hc1 in Heb0. simpl in Heb0.
    rewrite list_lookup_insert_eq in Heb0 by (by eapply lookup_lt_Some).
    injection Heb0 as <-. done. }
  assert (Hb1 : b1 = Z.of_nat ka ∧ e1 = 0%Z).
  { rewrite Huse, Hreg in Hread. unfold read_operand in Hread.
    assert (Hmap : RAT_ c1 !! getRd a = Some (ROB.tail_index (ROB_ c))).
    { rewrite Hc1. simpl. rewrite Hrd. apply lookup_insert_eq. }
    assert (Hex : RAT.exists_ (RAT_ c1) (getRd a) = true).
    { apply RAT_exists_true. eauto. }
    rewrite Hex in Hread. unfold RAT.get in Hread. rewrite Hmap in Hread.
    simpl in Hread. unfold ROB.get_entry in Hread.
    assert (Hent : at_ (ROB.store (ROB_ c1)) (ROB.tail_index (ROB_ c))
                   = Ok (ROB.mk_entry a false 0)).
    { apply at_Ok. rewrite Hc1. simpl. by apply list_lookup_insert_eq. }
    rewrite Hent in Hread. simpl in Hread. injection Hread as <- <-.
    rewrite Hc1. simpl. rewrite Hrd. unfold RST_put.
    by rewrite decide_True. }
  destruct Hb1 as [-> ->].
  assert (Hlook : RS_ c2 !! kb
                  = Some (RS.mk_entry true false (ROB.tail_index (ROB_ c1))
                            (Z.of_nat ka) b2 0 e2 b)).
  { rewrite Hc2. simpl. apply list_lookup_insert_eq. by eapply lookup_lt_Some. }
  exists ka, kb, (RS.mk_entry true false (ROB.tail_index (ROB_ c1)) (Z.of_nat ka) b2 0 e2 b).
  split; [done|]. split; [done|]. split; [done|]. split; [done|].
  split; [done|]. split; [done|]. split; [done|].
  unfold RS.operands_ready. rewrite Hlook. unfold RS.entry_operands_ready. simpl.
  rewrite bool_decide_false by lia. done.
Qed.

(** ** What a broadcast delivers *)

(** The state [writeback] builds from a message in range. *)
Lemma writeback_message c (d : CDB.data_t) :
  CDB_ c = Some d →
  CDB.rs_index d < RS.size (RS_ c) →
  CDB.rob_index d < ROB.capacity (ROB_ c) →
  ∃ old, ROB.store (ROB_ c) !! CDB.rob_index d = Some old
    ∧ writeback c
      = Ok (mkCore (issue_queue_ c) (RAT_ c)
              (ROB.mk (<[CDB.rob_index d :=
                           ROB.mk_entry (ROB.instr old) true (CDB.result d)]>
                         (ROB.store (ROB_ c)))
                      (ROB.head (ROB_ c)) (ROB.count (ROB_ c)))
              (imap (after_broadcast d) (RS_ c))
              (RST_ c) None (FUs_ c) (reg_file_ c)
              (perf_stats_instrs c) (fetched_instrs_ c) (exited_ c)).
Proof.
  intros Hbus Hrs Hrob. unfold writeback. rewrite Hbus. simpl.
  rewrite wakeup_all. simpl.
  unfold RS.release, RS.get_entry, ROB.update, ROB.get_entry.
  destruct (at_in_range (woken d <$> RS_ c) (CDB.rs_index d)) as (e & -> & He).
  { by rewrite length_fmap. }
  destruct (at_in_range (ROB.store (ROB_ c)) (CDB.rob_index d)) as (old & -> & Hold);
    [done|]. simpl.
  exists old. split; [done|]. do 2 f_equal.
  apply list_eq. intros j. rewrite list_lookup_imap. unfold after_broadcast.
  destruct (decide (j = CDB.rs_index d)) as [->|Hne].
  - rewrite list_lookup_insert_eq by (rewrite length_fmap; exact Hrs).
    rewrite list_lookup_fmap in He.
    destruct (RS_ c !! CDB.rs_index d) as [e0|]; [|done].
    simpl in *. by injection He as <-.
  - rewrite list_lookup_insert_ne by done. rewrite list_lookup_fmap.
    by destruct (RS_ c !! j).
Qed.

Lemma RS_not_full pool (k : nat) (e : RS.entry_t) :
  pool !! k = Some e → RS.valid e = false → RS.full pool = false.
Proof.
  intros Hk Hfree. unfold RS.full. destruct (forallb RS.valid pool) eqn:Hall; [|done].
  rewrite forallb_forall in Hall.
  rewrite (Hall e) in Hfree; [done|]. apply list_elem_of_In.
  by eapply list_elem_of_lookup_2.
Qed.

(** X5: no waiter is left behind. After [writeback] of a message from
    station [k], no valid station still names [k] as a producer; a valid
    station that waited on [k] for an operand holds the broadcast result
    there, resolved; an operand that waited on something else, or on
    nothing, is as it was; and a station that is not valid is skipped. *)
Theorem writeback_wakes_every_waiter c (d : CDB.data_t) :
  CDB_ c = Some d →
  bus_in_range c →
  ∃ c', writeback c = Ok c'
    ∧ (∀ j e', RS_ c' !! j = Some e' → RS.valid e' = true →
         RS.rs1_index e' ≠ Z.of_nat (CDB.rs_index d)
         ∧ RS.rs2_index e' ≠ Z.of_nat (CDB.rs_index d))
    ∧ (∀ j e, RS_ c !! j = Some e → RS.valid e = true → j ≠ CDB.rs_index d →
         ∃ e', RS_ c' !! j = Some e'
           ∧ RS.valid e' = true ∧ RS.running e' = RS.running e
           ∧ RS.rob_index e' = RS.rob_index e ∧ RS.instr e' = RS.instr e
           ∧ (RS.rs1_index e = Z.of_nat (CDB.rs_index d) →
              RS.rs1_index e' = (-1)%Z ∧ RS.rs1_data e' = CDB.result d)
           ∧ (RS.rs1_index e ≠ Z.of_nat (CDB.rs_index d) →
              RS.rs1_index e' = RS.rs1_index e ∧ RS.rs1_data e' = RS.rs1_data e)
           ∧ (RS.rs2_index e = Z.of_nat (CDB.rs_index d) →
              RS.rs2_index e' = (-1)%Z ∧ RS.rs2_data e' = CDB.result d)
           ∧ (RS.rs2_index e ≠ Z.of_nat (CDB.rs_index d) →
              RS.rs2_index e' = RS.rs2_index e ∧ RS.rs2_data e' = RS.rs2_data e))
    ∧ (∀ j e, RS_ c !! j = Some e → RS.valid e = false → j ≠ CDB.rs_index d →
         RS_ c' !! j = Some e).
Proof.
  intros Hbus Hrange. unfold bus_in_range in Hrange. rewrite Hbus in Hrange.
  destruct Hrange as [Hrs Hrob].
  destruct (writeback_message c d Hbus Hrs Hrob) as (old & _ & Hrun).
  eexists. split; [exact Hrun|]. simpl. split; [|split].
  - intros j e' Hj Hvalid. rewrite list_lookup_imap in Hj.
    destruct (RS_ c !! j) as [e|]; [|done]. simpl in Hj. injection Hj as <-.
    unfold after_broadcast, woken in *.
    destruct (decide (j = CDB.rs_index d)); [done|].
    destruct (RS.valid e) eqn:Hv; [|congruence]. simpl.
    split; case_bool_decide; lia.
  - intros j e Hj Hvalid Hne. rewrite list_lookup_imap, Hj. simpl.
    unfold after_broadcast, woken. rewrite decide_False by done. rewrite Hvalid.
    eexists. split; [reflexivity|]. simpl.
    split; [done|]. split; [done|]. split; [done|]. split; [done|].
    split; [|split; [|split]]; intros Hwait.
    + by rewrite bool_decide_true.
    + by rewrite bool_decide_false.
    + by rewrite bool_decide_true.
    + by rewrite bool_decide_false.
  - intros j e Hj Hvalid Hne. rewrite list_lookup_imap, Hj. simpl.
    unfold after_broadcast, woken. rewrite decide_False by done. by rewrite Hvalid.
Qed.

(** X6: forwarding through the reorder buffer. When the bus carries the
    result of the entry the RAT names for a source register, a
    [writeback] followed by an [issue] always goes through (the release
    frees a station) and hands the new instruction that result as a
    resolved operand. *)
Theorem issue_after_writeback_forwards c (d : CDB.data_t) (b : Instr) rest :
  CDB_ c = Some d →
  bus_in_range c →
  issue_queue_ c = b :: rest →
  ROB.full (ROB_ c) = false →
  use_rs1 (getExeFlags b) = true →
  RAT_ c !! getRs1 b = Some (CDB.rob_index d) →
  operand_readable c (use_rs2 (getExeFlags b)) (getRs2 b) →
  ∃ c1 c2 kb eb,
    writeback c = Ok c1
    ∧ issue c1 = Ok c2
    ∧ RS_ c2 !! kb = Some eb
    ∧ RS.instr eb = b
    ∧ RS.rs1_index eb = (-1)%Z
    ∧ RS.rs1_data eb = CDB.result d.
Proof.
  intros Hbus Hrange Hq Hrob Huse Hmap Hr2.
  unfold bus_in_range in Hrange. rewrite Hbus in Hrange. destruct Hrange as [Hrs Hrd].
  destruct (writeback_message c d Hbus Hrs Hrd) as (old & Hold & Hrun).
  set (c1 := mkCore _ _ _ _ _ _ _ _ _ _ _) in Hrun.
  assert (Hcap : ROB.capacity (ROB_ c1) = ROB.capacity (ROB_ c)).
  { unfold ROB.capacity, c1. simpl. by rewrite length_insert. }
  assert (Hfree : RS.full (RS_ c1) = false).
  { destruct (lookup_lt_is_Some_2 (RS_ c) (CDB.rs_index d) Hrs) as [e He].
    apply (RS_not_full _ (CDB.rs_index d) (RS.invalidate (woken d e))); [|done].
    unfold c1. simpl. rewrite list_lookup_imap, He. simpl.
    unfold after_broadcast. by rewrite decide_True. }
  assert (Hrob1 : ROB.full (ROB_ c1) = false).
  { unfold ROB.full in *. by rewrite Hcap. }
  assert (Hread1 : read_operand c1 true (getRs1 b) = Ok ((-1)%Z, CDB.result d)).
  { unfold read_operand.
    assert (Hex : RAT.exists_ (RAT_ c1) (getRs1 b) = true).
    { apply RAT_exists_true. by exists (CDB.rob_index d). }
    rewrite Hex. unfold RAT.get. change (RAT_ c1) with (RAT_ c). rewrite Hmap. simpl.
    unfold ROB.get_entry, at_. cbn [ROB.store].
    rewrite list_lookup_insert_eq by exact Hrd. done. }
  destruct (issue_entry c1 b rest) as (c2 & kb & a1 & d1 & a2 & d2 & Hrun2 & _ & H1 & _ & He & _).
  - done.
  - done.
  - done.
  - intros _. change (RAT_ c1) with (RAT_ c). rewrite Hmap, Hcap. exact Hrd.
  - intros Hu. specialize (Hr2 Hu). change (RAT_ c1) with (RAT_ c).
    change (reg_file_ c1) with (reg_file_ c). by rewrite Hcap.
  - rewrite Huse, Hread1 in H1. injection H1 as <- <-.
    exists c1, c2, kb. eexists. split; [done|]. split; [done|]. split; [exact He|]. done.
Qed.

(** ** What execute leaves alone, and when it throws *)

Lemma schedule_inv (n : nat) : ∀ (i : nat) pool fus pool' fus',
  schedule n i pool fus = Ok (pool', fus') →
  pool' = pool ∧ fus' = fus
  ∨ ∃ k e fu,
      pool !! k = Some e
      ∧ RS.valid e = true ∧ RS.running e = false
      ∧ fus !! getFUType (RS.instr e) = Some fu
      ∧ pool' = <[k := RS.set_running e]> pool
      ∧ fus' = <[getFUType (RS.instr e) :=
                   FU.issue (RS.instr e) (RS.rob_index e) k
                     (RS.rs1_data e) (RS.rs2_data e) fu]> fus.
Proof.
  induction n as [|n IH]; intros i pool fus pool' fus' Hrun; simpl in Hrun.
  { injection Hrun as <- <-. by left. }
  unbind Hrun as e He. apply at_Ok in He.
  destruct (RS.valid e && negb (RS.running e) && RS.operands_ready pool i
            && negb (RS.locked pool i)) eqn:Hready; [|by eapply IH].
  unbind Hrun as fu Hfu. apply at_Ok in Hfu.
  destruct (FU.busy fu) eqn:Hbusy; simpl in Hrun; [by eapply IH|].
  injection Hrun as <- <-. right. exists i, e, fu.
  destruct (RS.valid e); [|done]. destruct (RS.running e); done.
Qed.

(** X7: whatever [execute] does, it leaves the issue queue, the RAT, the
    reorder buffer, the RST, the register file, the counters and the
    termination flag as they were, keeps the number of stations and of
    units, and changes no station other than by setting [running] on one
    that was valid and not running: it never frees a station and never
    touches an operand. *)
Theorem execute_frame c c' :
  execute c = Ok c' →
  issue_queue_ c' = issue_queue_ c ∧ RAT_ c' = RAT_ c ∧ ROB_ c' = ROB_ c
  ∧ RST_ c' = RST_ c ∧ reg_file_ c' = reg_file_ c
  ∧ perf_stats_instrs c' = perf_stats_instrs c
  ∧ fetched_instrs_ c' = fetched_instrs_ c
  ∧ exited_ c' = exited_ c
  ∧ RS.size (RS_ c') = RS.size (RS_ c)
  ∧ length (FUs_ c') = length (FUs_ c)
  ∧ ∀ j e, RS_ c !! j = Some e →
      RS_ c' !! j = Some e
      ∨ (RS.valid e = true ∧ RS.running e = false
         ∧ RS_ c' !! j = Some (RS.set_running e)).
Proof.
  unfold execute. intros Hrun.
  unbind Hrun as p1 Hdrain. destruct p1 as [fus1 cdb'].
  unbind Hrun as p2 Hsched. destruct p2 as [pool' fus2]. injection Hrun as <-. simpl.
  pose proof (drain_length _ _ _ _ Hdrain) as Hlen.
  unfold advance in Hlen. rewrite length_fmap in Hlen.
  do 8 (split; [done|]).
  destruct (schedule_inv _ _ _ _ _ _ Hsched)
    as [[-> ->]|(k & e & fu & Hk & Hv & Hr & _ & -> & ->)].
  - split; [done|]. split; [done|]. intros j e Hj. by left.
  - unfold RS.size. rewrite !length_insert. split; [done|]. split; [done|].
    intros j e' Hj. destruct (decide (j = k)) as [->|Hne].
    + right. rewrite Hk in Hj. injection Hj as <-.
      rewrite list_lookup_insert_eq by (by eapply lookup_lt_Some). done.
    + left. by rewrite list_lookup_insert_ne.
Qed.

Lemma schedule_unready (n i : nat) pool fus :
  i < length pool → ready_slot pool i = false →
  schedule (S n) i pool fus = schedule n (S i) pool fus.
Proof.
  intros Hi Hready. simpl. unfold RS.get_entry.
  destruct (at_in_range pool i Hi) as (e & -> & He). simpl.
  unfold ready_slot in Hready. rewrite He in Hready. by rewrite Hready.
Qed.

Lemma schedule_reaches (m : nat) : ∀ (n i : nat) pool fus,
  i + m ≤ length pool →
  (∀ j, i ≤ j < i + m → ready_slot pool j = false) →
  schedule (m + n) i pool fus = schedule n (i + m) pool fus.
Proof.
  induction m as [|m IH]; intros n i pool fus Hlen Hnone.
  { by rewrite Nat.add_0_r. }
  change (S m + n) with (S (m + n)). rewrite schedule_unready; [|lia|apply Hnone; lia].
  rewrite IH; [f_equal; lia|lia|]. intros j Hj. apply Hnone. lia.
Qed.

Lemma schedule_at_ready (n k : nat) pool fus (e : RS.entry_t) :
  pool !! k = Some e → ready_slot pool k = true →
  schedule (S n) k pool fus
  = (fu ← at_ fus (getFUType (RS.instr e));
     if negb (FU.busy fu)
     then Ok (<[k := RS.set_running e]> pool,
              <[getFUType (RS.instr e) :=
                  FU.issue (RS.instr e) (RS.rob_index e) k
                    (RS.rs1_data e) (RS.rs2_data e) fu]> fus)
     else schedule n (S k) pool fus).
Proof.
  intros Hk Hready. simpl. unfold RS.get_entry.
  apply at_Ok in Hk as Hat. rewrite Hat. simpl.
  unfold ready_slot in Hready. rewrite Hk in Hready. by rewrite Hready.
Qed.

(** The dispatch scan of a pool arrives at its lowest ready slot. *)
Lemma schedule_lowest_ready (k : nat) pool fus (e : RS.entry_t) :
  pool !! k = Some e → ready_slot pool k = true →
  (∀ j, j < k → ready_slot pool j = false) →
  schedule (RS.size pool) 0 pool fus
  = (fu ← at_ fus (getFUType (RS.instr e));
     if negb (FU.busy fu)
     then Ok (<[k := RS.set_running e]> pool,
              <[getFUType (RS.instr e) :=
                  FU.issue (RS.instr e) (RS.rob_index e) k
                    (RS.rs1_data e) (RS.rs2_data e) fu]> fus)
     else schedule (RS.size pool - S k) (S k) pool fus).
Proof.
  intros Hk Hready Hlow. pose proof (lookup_lt_Some _ _ _ Hk) as Hlt.
  unfold RS.size.
  replace (length pool) with (k + S (length pool - S k)) at 1 by lia.
  rewrite schedule_reaches; [|lia|intros j Hj; apply Hlow; lia].
  simpl (0 + k). by apply schedule_at_ready.
Qed.

(** X8: [execute] throws when the lowest ready slot names a functional
    unit that does not exist: the bounds-checked [FUs_.at] fails and no
    later slot is considered. *)
Theorem execute_missing_unit c (k : nat) (e : RS.entry_t) :
  RS_ c !! k = Some e →
  ready_slot (RS_ c) k = true →
  (∀ j, j < k → ready_slot (RS_ c) j = false) →
  length (FUs_ c) ≤ getFUType (RS.instr e) →
  execute c = Abort OutOfRange.
Proof.
  intros Hk Hready Hlow Hmissing. unfold execute.
  destruct (execute_drain_total c) as (fus1 & cdb' & Hdrain). rewrite Hdrain. simpl.
  pose proof (drain_length _ _ _ _ Hdrain) as Hlen.
  unfold advance in Hlen. rewrite length_fmap in Hlen.
  rewrite (schedule_lowest_ready k _ _ e Hk Hready Hlow).
  unfold at_. rewrite lookup_ge_None_2 by lia. done.
Qed.

(** X9: a unit that drains can take new work in the same call. On an
    empty bus, when the first done unit is also the unit of the lowest
    ready slot and clearing it leaves it not busy, [execute] puts the
    unit's output on the bus and hands the slot to the cleared unit. *)
Theorem execute_drains_then_dispatches c (t k : nat) (fu : F) (e : RS.entry_t) :
  CDB_ c = None →
  advance (FUs_ c) !! t = Some fu →
  FU.done fu = true →
  (∀ j fu', j < t → advance (FUs_ c) !! j = Some fu' → FU.done fu' = false) →
  FU.busy (FU.clear fu) = false →
  RS_ c !! k = Some e →
  ready_slot (RS_ c) k = true →
  (∀ j, j < k → ready_slot (RS_ c) j = false) →
  getFUType (RS.instr e) = t →
  ∃ c', execute c = Ok c'
    ∧ CDB_ c' = Some (CDB.mk_data (FU.result (FU.get_output fu))
                        (FU.rob_index (FU.get_output fu))
                        (FU.rs_index (FU.get_output fu)))
    ∧ FUs_ c' !! t = Some (FU.issue (RS.instr e) (RS.rob_index e) k
                             (RS.rs1_data e) (RS.rs2_data e) (FU.clear fu))
    ∧ RS_ c' !! k = Some (RS.set_running e).
Proof.
  intros Hbus Ht Hdone Hfirst Hidle Hk Hready Hlow Htype. unfold execute.
  rewrite Hbus, (drain_first_done _ t fu Ht Hdone Hfirst). simpl.
  rewrite (schedule_lowest_ready k _ _ e Hk Hready Hlow). rewrite Htype.
  pose proof (lookup_lt_Some _ _ _ Ht) as Hlt.
  unfold at_. rewrite list_lookup_insert_eq by done. simpl. rewrite Hidle. simpl.
  eexists. split; [reflexivity|]. simpl. split; [done|]. split.
  - rewrite list_lookup_insert_eq; [done|]. by rewrite length_insert.
  - rewrite list_lookup_insert_eq; [done|]. by eapply lookup_lt_Some.
Qed.

(** ** The outcomes of commit *)

Lemma retire_rd_total c (head_index : nat) (e : ROB.entry_t) :
  (use_rd (getExeFlags (ROB.instr e)) = true →
   getRd (ROB.instr e) < length (reg_file_ c)) →
  ∃ p, retire_rd c head_index e = Ok p.
Proof.
  intros Hrd. unfold retire_rd.
  destruct (use_rd (getExeFlags (ROB.instr e))); [|eauto].
  unfold at_put. rewrite decide_True by auto. simpl.
  destruct (RAT.exists_ (RAT_ c) (getRd (ROB.instr e))) eqn:Hex; [|eauto].
  apply RAT_exists_true in Hex as [i Hi]. unfold RAT.get. rewrite Hi. simpl.
  case_bool_decide; eauto.
Qed.

(** [commit] up to its assertion, on a ready head whose destination is
    in range. *)
Lemma commit_to_assertion c (e : ROB.entry_t) :
  ROB.empty (ROB_ c) = false →
  ROB.store (ROB_ c) !! ROB.head_index (ROB_ c) = Some e →
  ROB.ready e = true →
  (use_rd (getExeFlags (ROB.instr e)) = true →
   getRd (ROB.instr e) < length (reg_file_ c)) →
  ∃ c', commit c
        = if bool_decide (perf_stats_instrs c ≤ fetched_instrs_ c)
          then Ok c' else Abort AssertionFailed.
Proof.
  intros Hempty Hhead Hready Hrd.
  unfold commit. rewrite Hempty. unfold ROB.get_entry.
  apply at_Ok in Hhead as Hat. rewrite Hat. simpl. rewrite Hready.
  destruct (retire_rd_total c (ROB.head_index (ROB_ c)) e Hrd) as [[regs' rat'] ->].
  simpl. unfold ROB.pop. rewrite Hempty. unfold ROB.get_entry.
  unfold ROB.head_index in Hat. rewrite Hat. simpl. rewrite Hready. simpl.
  eexists. reflexivity.
Qed.

(** The state [commit] builds when nothing stops the retirement. *)
Lemma commit_runs c (e : ROB.entry_t) :
  ROB.empty (ROB_ c) = false →
  ROB.store (ROB_ c) !! ROB.head_index (ROB_ c) = Some e →
  ROB.ready e = true →
  (use_rd (getExeFlags (ROB.instr e)) = true →
   getRd (ROB.instr e) < length (reg_file_ c)) →
  perf_stats_instrs c ≤ fetched_instrs_ c →
  commit c
  = Ok (mkCore (issue_queue_ c)
          (if use_rd (getExeFlags (ROB.instr e))
              && bool_decide (RAT_ c !! getRd (ROB.instr e) = Some (ROB.head (ROB_ c)))
           then delete (getRd (ROB.instr e)) (RAT_ c) else RAT_ c)
          (ROB.mk (ROB.store (ROB_ c))
             (S (ROB.head (ROB_ c)) mod ROB.capacity (ROB_ c)) (ROB.count (ROB_ c) - 1))
          (RS_ c) (RST_ c) (CDB_ c) (FUs_ c)
          (if use_rd (getExeFlags (ROB.instr e))
           then <[getRd (ROB.instr e) := ROB.result e]> (reg_file_ c) else reg_file_ c)
          (S (perf_stats_instrs c)) (fetched_instrs_ c)
          (if is_exit (getExeFlags (ROB.instr e)) then true else exited_ c)).
Proof.
  intros Hempty Hhead Hready Hrd Hle.
  destruct (commit_to_assertion c e Hempty Hhead Hready Hrd) as [c' Hrun].
  rewrite bool_decide_true in Hrun by done. rewrite Hrun. f_equal.
  unfold ROB.head_index in Hhead.
  unfold ROB.empty in Hempty. apply bool_decide_eq_false in Hempty.
  destruct (commit_inv _ _ Hrun)
    as [[_ [?|(e' & He' & Hnot)]]|(e' & _ & He' & _ & _ & ->)].
  - done.
  - rewrite Hhead in He'. injection He' as <-. congruence.
  - rewrite Hhead in He'. by injection He' as <-.
Qed.

(** X10: the complete outcome table of [commit] on a non-empty reorder
    buffer, in the order the source decides it: a head index outside the
    buffer throws; a head that is not ready changes nothing; a ready head
    writing a register outside the register file throws, whatever the
    counters; otherwise the assertion on the counters decides between an
    abort and retiring exactly one entry. *)
Theorem commit_outcome c :
  ROB.empty (ROB_ c) = false →
  match ROB.store (ROB_ c) !! ROB.head_index (ROB_ c) with
  | None => commit c = Abort OutOfRange
  | Some e =>
      if ROB.ready e then
        if use_rd (getExeFlags (ROB.instr e))
           && bool_decide (length (reg_file_ c) ≤ getRd (ROB.instr e))
        then commit c = Abort OutOfRange
        else if bool_decide (perf_stats_instrs c ≤ fetched_instrs_ c)
        then ∃ c', commit c = Ok c'
               ∧ ROB.count (ROB_ c') = ROB.count (ROB_ c) - 1
               ∧ perf_stats_instrs c' = S (perf_stats_instrs c)
        else commit c = Abort AssertionFailed
      else commit c = Ok c
  end.
Proof.
  intros Hempty.
  destruct (ROB.store (ROB_ c) !! ROB.head_index (ROB_ c)) as [e|] eqn:Hhead.
  - destruct (ROB.ready e) eqn:Hready.
    + destruct (use_rd (getExeFlags (ROB.instr e))
                && bool_decide (length (reg_file_ c) ≤ getRd (ROB.instr e))) eqn:Hout.
      * apply andb_true_iff in Hout as [Hrd Hlen]. apply bool_decide_eq_true in Hlen.
        unfold commit. rewrite Hempty. unfold ROB.get_entry, at_. rewrite Hhead. simpl.
        rewrite Hready. unfold retire_rd. rewrite Hrd. unfold at_put.
        rewrite decide_False by lia. done.
      * assert (Hrd : use_rd (getExeFlags (ROB.instr e)) = true →
                      getRd (ROB.instr e) < length (reg_file_ c)).
        { intros Hu. rewrite Hu in Hout. simpl in Hout.
          apply bool_decide_eq_false in Hout. lia. }
        clear Hout. case_bool_decide as Hle.
        -- rewrite (commit_runs c e Hempty Hhead Hready Hrd Hle).
           eexists. split; [done|]. done.
        -- destruct (commit_to_assertion c e Hempty Hhead Hready Hrd) as [c' Hrun].
           by rewrite bool_decide_false in Hrun.
    + unfold commit. rewrite Hempty. unfold ROB.get_entry, at_. rewrite Hhead. simpl.
      by rewrite Hready.
  - unfold commit. rewrite Hempty. unfold ROB.get_entry, at_. by rewrite Hhead.
Qed.

Lemma commit_rd_out_of_range c (e : ROB.entry_t) :
  ROB.empty (ROB_ c) = false →
  ROB.store (ROB_ c) !! ROB.head_index (ROB_ c) = Some e →
  ROB.ready e = true →
  use_rd (getExeFlags (ROB.instr e)) = true →
  length (reg_file_ c) ≤ getRd (ROB.instr e) →
  commit c = Abort OutOfRange.
Proof.
  intros Hempty Hhead Hready Hrd Hlen.
  unfold commit. rewrite Hempty. unfold ROB.get_entry, at_. rewrite Hhead. simpl.
  rewrite Hready. unfold retire_rd. rewrite Hrd. unfold at_put.
  rewrite decide_False by lia. done.
Qed.

(** ** The retirement count against the fetch count *)

Lemma commit_Abort c (f : fault) :
  commit c = Abort f →
  f = OutOfRange
  ∨ f = AssertionFailed ∧ fetched_instrs_ c < perf_stats_instrs c.
Proof.
  unfold commit. destruct (ROB.empty (ROB_ c)) eqn:Hempty; [done|].
  intros Hrun. apply bind_Abort in Hrun as [Hrun|(e & He & Hrun)].
  { left. by apply at_Abort in Hrun as [? _]. }
  destruct (ROB.ready e) eqn:Hready; [|done].
  apply bind_Abort in Hrun as [Hrun|([regs' rat'] & _ & Hrun)].
  { left. unfold retire_rd in Hrun.
    destruct (use_rd (getExeFlags (ROB.instr e))); [|done].
    apply bind_Abort in Hrun as [Hrun|(regs & _ & Hrun)].
    - unfold at_put in Hrun. case_decide; [done|]. by injection Hrun as <-.
    - destruct (RAT.exists_ (RAT_ c) (getRd (ROB.instr e))) eqn:Hex; [|done].
      apply RAT_exists_true in Hex as [i Hi]. unfold RAT.get in Hrun.
      rewrite Hi in Hrun. simpl in Hrun. by case_bool_decide. }
  unfold ROB.pop in Hrun. rewrite Hempty in Hrun.
  unfold ROB.head_index in He. rewrite He in Hrun. simpl in Hrun.
  rewrite Hready in Hrun. simpl in Hrun.
  case_bool_decide as Hle; [done|]. injection Hrun as <-. right. split; [done|lia].
Qed.

Lemma accounted_step c c' : accounted c → counted_step c c' → accounted c'.
Proof.
  unfold accounted. intros Hacc Hstep.
  destruct Hstep as [c c' Hrun|c c' Hrun|c c' Hrun|c c' Hrun|c more n Hn].
  - destruct (issue_inv _ _ Hrun) as [->|Hinv]; [done|].
    destruct Hinv as (instr & queue' & a1 & d1 & a2 & d2 & rs_index &
                      Hq & _ & _ & _ & _ & _ & ->).
    rewrite Hq in Hacc. simpl in *. lia.
  - by destruct (execute_inv _ _ Hrun) as (pool' & cdb' & fus' & ->).
  - by destruct (writeback_inv _ _ Hrun) as [->|(d & old & pool' & _ & _ & ->)].
  - destruct (commit_inv _ _ Hrun) as [[-> _]|(e & Hcount & _ & _ & _ & ->)]; [done|].
    simpl. lia.
  - simpl. rewrite length_app. lia.
Qed.

Lemma accounted_run c c' : accounted c → rtc counted_step c c' → accounted c'.
Proof.
  intros Hacc Hrun. induction Hrun as [c|c c1 c' Hstep _ IH]; [done|].
  apply IH. by eapply accounted_step.
Qed.

(** C7: with a front end that counts its fetches, the retired count
    never exceeds the fetch count along a run; the assertion of [commit]
    never fails there; a [commit] that retires an instruction increments
    the counter and leaves it at most the fetch count; and in any state a
    retiring [commit] entered with the retired count above the fetch count
    is stopped by the assertion. *)
Theorem committed_never_exceeds_fetched c c' :
  accounted c →
  rtc counted_step c c' →
  perf_stats_instrs c' ≤ fetched_instrs_ c'
  ∧ (∀ f, commit c' = Abort f → f = OutOfRange)
  ∧ (∀ c'', commit c' = Ok c'' →
       c'' = c'
       ∧ (ROB.count (ROB_ c') = 0
          ∨ ∃ e, ROB.store (ROB_ c') !! ROB.head (ROB_ c') = Some e
               ∧ ROB.ready e = false)
       ∨ perf_stats_instrs c'' = S (perf_stats_instrs c')
         ∧ ROB.count (ROB_ c'') = ROB.count (ROB_ c') - 1
         ∧ fetched_instrs_ c'' = fetched_instrs_ c'
         ∧ perf_stats_instrs c'' ≤ fetched_instrs_ c'')
  ∧ (∀ c0 e,
       ROB.empty (ROB_ c0) = false →
       ROB.store (ROB_ c0) !! ROB.head_index (ROB_ c0) = Some e →
       ROB.ready e = true →
       (use_rd (getExeFlags (ROB.instr e)) = true →
        getRd (ROB.instr e) < length (reg_file_ c0)) →
       fetched_instrs_ c0 < perf_stats_instrs c0 →
       commit c0 = Abort AssertionFailed).
Proof.
  intros Hacc Hrun. pose proof (accounted_run c c' Hacc Hrun) as Hacc'.
  unfold accounted in Hacc'.
  split; [lia|]. split; [|split].
  - intros f Hf. destruct (commit_Abort c' f Hf) as [->|[_ Hover]]; [done|lia].
  - intros c'' Hok.
    destruct (commit_inv _ _ Hok) as [[-> Hidle]|(e & Hcount & _ & _ & _ & ->)].
    + left. by split.
    + right. simpl. repeat split; lia.
  - intros c0 e Hempty Hhead Hready Hrd Hover.
    destruct (commit_to_assertion c0 e Hempty Hhead Hready Hrd) as [c1 Hc1].
    rewrite bool_decide_false in Hc1 by lia. done.
Qed.

(** X11: a retiring [commit] writes exactly one register: the destination
    of the head takes the head's result and every other register keeps
    its value; a head that writes no register leaves the register file and
    the RAT as they were. The issue queue, the stations, the RST, the bus,
    the units and the fetch count are not touched. *)
Theorem commit_writes_one_register c c' (e : ROB.entry_t) :
  commit c = Ok c' →
  ROB.empty (ROB_ c) = false →
  ROB.store (ROB_ c) !! ROB.head_index (ROB_ c) = Some e →
  ROB.ready e = true →
  issue_queue_ c' = issue_queue_ c ∧ RS_ c' = RS_ c ∧ RST_ c' = RST_ c
  ∧ CDB_ c' = CDB_ c ∧ FUs_ c' = FUs_ c
  ∧ fetched_instrs_ c' = fetched_instrs_ c
  ∧ length (reg_file_ c') = length (reg_file_ c)
  ∧ (use_rd (getExeFlags (ROB.instr e)) = true →
     reg_file_ c' !! getRd (ROB.instr e) = Some (ROB.result e)
     ∧ ∀ reg, reg ≠ getRd (ROB.instr e) → reg_file_ c' !! reg = reg_file_ c !! reg)
  ∧ (use_rd (getExeFlags (ROB.instr e)) = false →
     reg_file_ c' = reg_file_ c ∧ RAT_ c' = RAT_ c).
Proof.
  intros Hrun Hempty Hhead Hready.
  assert (Hrd : use_rd (getExeFlags (ROB.instr e)) = true →
                getRd (ROB.instr e) < length (reg_file_ c)).
  { intros Hu. destruct (decide (getRd (ROB.instr e) < length (reg_file_ c))); [done|].
    rewrite (commit_rd_out_of_range c e) in Hrun; [done..|lia]. }
  destruct (commit_to_assertion c e Hempty Hhead Hready Hrd) as [c0 Hrun0].
  case_bool_decide as Hle; [|congruence].
  rewrite (commit_runs c e Hempty Hhead Hready Hrd Hle) in Hrun.
  injection Hrun as <-. simpl.
  do 6 (split; [done|]).
  destruct (use_rd (getExeFlags (ROB.instr e))) eqn:Hu; simpl.
  - rewrite length_insert. split; [done|]. split; [|done]. intros _. split.
    + apply list_lookup_insert_eq. auto.
    + intros reg Hne. by rewrite list_lookup_insert_ne.
  - split; [done|]. split; [done|]. done.
Qed.

(** X12: a result broadcast for the head of the reorder buffer retires
    with the next [commit]: [writeback] followed by [commit] leaves the
    broadcast result in the destination register, takes the entry out of
    the buffer and leaves the bus empty, whether or not the head was
    ready before. *)
Theorem writeback_then_commit c (d : CDB.data_t) (old : ROB.entry_t) :
  CDB_ c = Some d →
  bus_in_range c →
  ROB.empty (ROB_ c) = false →
  CDB.rob_index d = ROB.head_index (ROB_ c) →
  ROB.store (ROB_ c) !! ROB.head_index (ROB_ c) = Some old →
  use_rd (getExeFlags (ROB.instr old)) = true →
  getRd (ROB.instr old) < length (reg_file_ c) →
  perf_stats_instrs c ≤ fetched_instrs_ c →
  ∃ c1 c2,
    writeback c = Ok c1
    ∧ commit c1 = Ok c2
    ∧ reg_file_ c2 !! getRd (ROB.instr old) = Some (CDB.result d)
    ∧ ROB.count (ROB_ c2) = ROB.count (ROB_ c) - 1
    ∧ perf_stats_instrs c2 = S (perf_stats_instrs c)
    ∧ CDB_ c2 = None.
Proof.
  intros Hbus Hrange Hempty Hidx Hold Hu Hrd Hle.
  unfold bus_in_range in Hrange. rewrite Hbus in Hrange. destruct Hrange as [Hrs Hrob].
  destruct (writeback_message c d Hbus Hrs Hrob) as (old' & Hold' & Hrun).
  rewrite Hidx, Hold in Hold'. injection Hold' as <-.
  set (c1 := mkCore _ _ _ _ _ _ _ _ _ _ _) in Hrun.
  set (e1 := ROB.mk_entry (ROB.instr old) true (CDB.result d)).
  assert (Hhead1 : ROB.store (ROB_ c1) !! ROB.head_index (ROB_ c1) = Some e1).
  { unfold c1, ROB.head_index. cbn [ROB_ ROB.store ROB.head].
    unfold ROB.head_index in Hidx. rewrite Hidx.
    apply list_lookup_insert_eq. by eapply lookup_lt_Some. }
  pose proof (commit_runs c1 e1 Hempty Hhead1 eq_refl (λ _, Hrd) Hle) as Hrun2.
  exists c1. eexists. split; [exact Hrun|]. split; [exact Hrun2|]. simpl.
  rewrite Hu. split; [|done]. by apply list_lookup_insert_eq.
Qed.

(** ** Termination is final *)

Lemma step_keeps_exited c c' : step c c' → exited_ c = true → exited_ c' = true.
Proof.
  intros Hstep Hexit.
  destruct Hstep as [c c' Hrun|c c' Hrun|c c' Hrun|c c' Hrun|c queue n].
  - destruct (issue_inv _ _ Hrun) as [->|Hinv]; [done|].
    by destruct Hinv as (? & ? & ? & ? & ? & ? & ? & _ & _ & _ & _ & _ & _ & ->).
  - by destruct (execute_inv _ _ Hrun) as (? & ? & ? & ->).
  - by destruct (writeback_inv _ _ Hrun) as [->|(? & ? & ? & _ & _ & ->)].
  - destruct (commit_inv _ _ Hrun) as [[-> _]|(e & _ & _ & _ & _ & ->)]; [done|].
    simpl. by destruct (is_exit (getExeFlags (ROB.instr e))).
  - done.
Qed.

(** X13: once the termination flag is set, no sequence of stage calls
    and front-end refills clears it. *)
Theorem exited_is_final c c' :
  rtc step c c' → exited_ c = true → exited_ c' = true.
Proof.
  induction 1 as [c|c c1 c' Hstep _ IH]; [done|].
  intros Hexit. apply IH. by eapply step_keeps_exited.
Qed.

(** ** Retirement follows program order *)

Lemma omap_ext_in {A B} (f g : A → option B) (l : list A) :
  (∀ x, x ∈ l → f x = g x) → omap f l = omap g l.
Proof.
  induction l as [|x l IH]; intros Hext; [done|]. csimpl.
  rewrite (Hext x) by apply list_elem_of_here.
  rewrite IH; [done|]. intros y Hy. apply Hext. by apply list_elem_of_further.
Qed.

Lemma in_flight_allocate q (i : Instr) :
  ROB.count q < ROB.capacity q →
  in_flight (ROB.mk (<[ROB.tail_index q := ROB.mk_entry i false 0]> (ROB.store q))
               (ROB.head q) (S (ROB.count q)))
  = in_flight q ++ [i].
Proof.
  intros Hcount. unfold in_flight.
  set (q' := ROB.mk _ _ _).
  assert (Hlive : ROB.live q' = ROB.live q ++ [ROB.tail_index q]).
  { unfold ROB.live, ROB.tail_index, q', ROB.capacity.
    cbn [ROB.store ROB.head ROB.count].
    rewrite length_insert, seq_S, fmap_app. done. }
  assert (Htail : ROB.tail_index q < length (ROB.store q)).
  { unfold ROB.tail_index. apply Nat.mod_upper_bound. unfold ROB.capacity in Hcount. lia. }
  rewrite Hlive, omap_app. f_equal.
  - apply omap_ext_in. intros idx Hin. unfold q'. cbn [ROB.store].
    rewrite list_lookup_insert_ne; [done|]. intros <-. by apply (tail_not_live q).
  - csimpl. unfold q'. cbn [ROB.store]. by rewrite list_lookup_insert_eq.
Qed.

Lemma in_flight_pop q (e : ROB.entry_t) :
  ROB.count q ≠ 0 →
  ROB.store q !! ROB.head q = Some e →
  in_flight q
  = ROB.instr e
    :: in_flight (ROB.mk (ROB.store q) (S (ROB.head q) mod ROB.capacity q)
                    (ROB.count q - 1)).
Proof.
  intros Hcount Hhead. unfold in_flight.
  rewrite (live_pop q Hcount) by (by eapply lookup_lt_Some).
  csimpl. by rewrite Hhead.
Qed.

Lemma in_flight_update q (idx : nat) (old : ROB.entry_t) (r : bool) (v : Z) :
  ROB.store q !! idx = Some old →
  in_flight (ROB.mk (<[idx := ROB.mk_entry (ROB.instr old) r v]> (ROB.store q))
               (ROB.head q) (ROB.count q))
  = in_flight q.
Proof.
  intros Hold. unfold in_flight.
  assert (Hlive : ROB.live (ROB.mk (<[idx := ROB.mk_entry (ROB.instr old) r v]>
                                      (ROB.store q)) (ROB.head q) (ROB.count q))
                  = ROB.live q).
  { unfold ROB.live, ROB.capacity. simpl. by rewrite length_insert. }
  rewrite Hlive. apply omap_ext_in. intros x _. cbn [ROB.store].
  destruct (decide (x = idx)) as [->|Hne].
  - rewrite list_lookup_insert_eq by (by eapply lookup_lt_Some). by rewrite Hold.
  - by rewrite list_lookup_insert_ne.
Qed.

(** X14: retirement follows program order. Along any run of stage calls
    and front-end refills, the instructions retired so far, followed by
    those in flight and those still queued, are the instructions that
    were in flight and queued at the start followed by those fetched
    since: no instruction is lost, duplicated or reordered, and the
    retirement counter has advanced by the number retired. *)
Theorem run_retires_in_program_order c (retired fetched : list Instr) c' :
  run c retired fetched c' →
  ROB.count (ROB_ c) ≤ ROB.capacity (ROB_ c) →
  retired ++ program_order c' = program_order c ++ fetched
  ∧ perf_stats_instrs c' = perf_stats_instrs c + length retired
  ∧ ROB.count (ROB_ c') ≤ ROB.capacity (ROB_ c').
Proof.
  intros Hrun Hcap.
  induction Hrun as [c|c retired fetched c1 c2 _ IH Hcall|c retired fetched c1 c2 _ IH Hcall
                     |c retired fetched c1 c2 _ IH Hcall|c retired fetched c1 c2 _ IH Hcall
                     |c retired fetched c1 more n _ IH].
  - rewrite app_nil_r. simpl. split; [done|]. split; [lia|done].
  - destruct (IH Hcap) as (Hpo & Hperf & Hcap1).
    destruct (issue_inv _ _ Hcall) as [->|Hinv]; [done|].
    destruct Hinv as (instr & queue' & a1 & d1 & a2 & d2 & rs_index &
                      Hq & _ & Hfull & _ & _ & _ & ->).
    unfold ROB.full in Hfull. apply bool_decide_eq_false in Hfull.
    unfold program_order in *. simpl. rewrite in_flight_allocate by lia.
    rewrite Hq in Hpo. rewrite <- app_assoc. simpl.
    split; [done|]. split; [done|].
    unfold ROB.capacity in *. simpl. rewrite length_insert. lia.
  - destruct (IH Hcap) as (Hpo & Hperf & Hcap1).
    by destruct (execute_inv _ _ Hcall) as (pool' & cdb' & fus' & ->).
  - destruct (IH Hcap) as (Hpo & Hperf & Hcap1).
    destruct (writeback_inv _ _ Hcall) as [->|(d & old & pool' & _ & Hold & ->)]; [done|].
    unfold program_order in *. simpl. rewrite in_flight_update by done.
    split; [done|]. split; [done|].
    unfold ROB.capacity in *. simpl. by rewrite length_insert.
  - destruct (IH Hcap) as (Hpo & Hperf & Hcap1).
    destruct (commit_inv _ _ Hcall) as [[-> _]|(e & Hcount & Hhead & _ & _ & Hc2)].
    + unfold retired_by. rewrite decide_True by done. rewrite !app_nil_r.
      split; [done|]. split; [lia|done].
    + assert (Hret : retired_by c1 c2 = [ROB.instr e]).
      { unfold retired_by, ROB.head_index. rewrite Hc2. simpl.
        rewrite decide_False by lia. by rewrite Hhead. }
      rewrite Hret, length_app. simpl.
      rewrite <- app_assoc. simpl. rewrite <- Hpo.
      unfold program_order. rewrite (in_flight_pop (ROB_ c1) e Hcount Hhead).
      rewrite Hc2. simpl. split; [done|]. split; [lia|].
      unfold ROB.capacity in *. simpl. lia.
  - destruct (IH Hcap) as (Hpo & Hperf & Hcap1).
    unfold program_order in *. simpl. rewrite (app_assoc _ fetched more), <- Hpo.
    rewrite <- !app_assoc. split; [done|]. split; done.
Qed.

(** ** Issue from a reachable state *)

Lemma reachable_operand_readable c (use_rs : bool) (rs : nat) :
  reachable c →
  (use_rs = true → rs < length (reg_file_ c)) →
  operand_readable c use_rs rs.
Proof.
  intros Hreach Hreg Huse. pose proof (reachable_rat_tracks c Hreach) as [Hcap Hrat].
  destruct (RAT_ c !! rs) as [i|] eqn:Hmap; [|auto].
  rewrite Hrat in Hmap. apply youngest_writer_live in Hmap.
  by apply live_bound.
Qed.

(** X15: from a reachable state [issue] cannot fail on the reorder
    buffer: every index the RAT holds is the index of an entry in flight.
    With a free station, a free reorder entry and the used source
    registers inside the register file, [issue] returns and has taken the
    front of the queue. *)
Theorem issue_safe_when_reachable c (instr : Instr) queue' :
  reachable c →
  issue_queue_ c = instr :: queue' →
  RS.full (RS_ c) = false → ROB.full (ROB_ c) = false →
  (use_rs1 (getExeFlags instr) = true → getRs1 instr < length (reg_file_ c)) →
  (use_rs2 (getExeFlags instr) = true → getRs2 instr < length (reg_file_ c)) →
  (∀ reg rob_index, RAT_ c !! reg = Some rob_index →
     rob_index ∈ ROB.live (ROB_ c) ∧ rob_index < ROB.capacity (ROB_ c))
  ∧ ∃ c', issue c = Ok c'
      ∧ issue_queue_ c' = queue'
      ∧ ROB.count (ROB_ c') = S (ROB.count (ROB_ c)).
Proof.
  intros Hreach Hq Hrs Hrob Hr1 Hr2.
  pose proof (reachable_rat_tracks c Hreach) as [Hcap Hrat]. split.
  - intros reg i Hmap. rewrite Hrat in Hmap. apply youngest_writer_live in Hmap.
    split; [done|]. by apply live_bound.
  - destruct (issue_runs c instr queue' Hq Hrs Hrob) as (c' & Hrun & _).
    { by apply reachable_operand_readable. }
    { by apply reachable_operand_readable. }
    exists c'. split; [done|].
    destruct (issue_inv_taken _ _ _ _ Hrun Hq Hrs Hrob)
      as (a1 & d1 & a2 & d2 & rs_index & _ & _ & _ & ->). done.
Qed.

(** X16: with nothing in flight nothing is renamed. In a reachable state
    whose reorder buffer is empty the RAT is empty, so the instruction
    [issue] takes reads every source it uses from the register file and
    enters its station ready to run. *)
Theorem issue_on_drained_core c (instr : Instr) queue' :
  reachable c →
  ROB.count (ROB_ c) = 0 →
  issue_queue_ c = instr :: queue' →
  RS.full (RS_ c) = false → ROB.full (ROB_ c) = false →
  (use_rs1 (getExeFlags instr) = true → getRs1 instr < length (reg_file_ c)) →
  (use_rs2 (getExeFlags instr) = true → getRs2 instr < length (reg_file_ c)) →
  RAT_ c = ∅
  ∧ ∃ c' rs_index e,
      issue c = Ok c'
      ∧ RS_ c' !! rs_index = Some e
      ∧ RS.instr e = instr
      ∧ RS.operands_ready (RS_ c') rs_index = true
      ∧ (use_rs1 (getExeFlags instr) = true →
         reg_file_ c !! getRs1 instr = Some (RS.rs1_data e))
      ∧ (use_rs2 (getExeFlags instr) = true →
         reg_file_ c !! getRs2 instr = Some (RS.rs2_data e)).
Proof.
  intros Hreach Hcount Hq Hrs Hrob Hr1 Hr2.
  pose proof (reachable_rat_tracks c Hreach) as [Hcap Hrat].
  assert (Hempty : RAT_ c = ∅).
  { apply map_eq. intros reg. rewrite Hrat, lookup_empty.
    unfold ROB.youngest_writer, ROB.live. by rewrite Hcount. }
  split; [done|].
  assert (Hread : ∀ use_rs rs, (use_rs = true → rs < length (reg_file_ c)) →
            ∃ v, read_operand c use_rs rs = Ok ((-1)%Z, v)
                 ∧ (use_rs = true → reg_file_ c !! rs = Some v)).
  { intros use_rs rs Hin. unfold read_operand. destruct use_rs.
    - assert (Hex : RAT.exists_ (RAT_ c) rs = false).
      { apply RAT_exists_false. by rewrite Hempty, lookup_empty. }
      rewrite Hex. destruct (at_in_range _ _ (Hin eq_refl)) as (v & -> & Hv).
      exists v. done.
    - exists 0%Z. done. }
  destruct (Hread _ _ Hr1) as (v1 & Hread1 & Hv1).
  destruct (Hread _ _ Hr2) as (v2 & Hread2 & Hv2).
  destruct (issue_entry c instr queue' Hq Hrs Hrob)
    as (c' & rs_index & a1 & d1 & a2 & d2 & Hrun & _ & H1 & H2 & He & _).
  { by apply reachable_operand_readable. }
  { by apply reachable_operand_readable. }
  rewrite Hread1 in H1. rewrite Hread2 in H2.
  injection H1 as <- <-. injection H2 as <- <-.
  exists c', rs_index. eexists. split; [done|]. split; [exact He|].
  split; [done|]. split; [|done].
  unfold RS.operands_ready. by rewrite He.
Qed.

(** ** Coherence of the tables along runs *)

Section Coherence.

Context `{!LawfulUnit F}.

Lemma holds_insert_other pool (k rs rob : nat) (x : RS.entry_t) :
  holds pool rs rob → rs ≠ k → holds (<[k := x]> pool) rs rob.
Proof.
  intros (e & He & Hv & Hr & Hi) Hne. exists e.
  by rewrite list_lookup_insert_ne.
Qed.

Lemma holds_set_running pool (k rs rob : nat) (e : RS.entry_t) :
  pool !! k = Some e → holds pool rs rob →
  holds (<[k := RS.set_running e]> pool) rs rob.
Proof.
  intros Hk Hholds. destruct (decide (rs = k)) as [->|Hne].
  - destruct Hholds as (e' & He' & Hv & Hr & Hi). rewrite Hk in He'.
    injection He' as <-. exists (RS.set_running e).
    rewrite list_lookup_insert_eq by (by eapply lookup_lt_Some). done.
  - by apply holds_insert_other.
Qed.

Lemma holders_pool pool pool' fus (cdb : CDB.t) :
  holders pool fus cdb →
  (∀ rs rob, holds pool rs rob → holds pool' rs rob) →
  holders pool' fus cdb.
Proof.
  intros [Hbus Hunit Hua Hba] Hmono. split.
  - intros d Hd. apply Hmono. by apply Hbus.
  - intros t fu Ht Hb. apply Hmono. by eapply Hunit.
  - done.
  - done.
Qed.

Lemma names_station_mono pool pool' (id : Z) :
  names_station pool id →
  (∀ p ep, pool !! p = Some ep → RS.valid ep = true →
     ∃ ep', pool' !! p = Some ep' ∧ RS.valid ep' = true) →
  names_station pool' id.
Proof.
  intros [->|(p & ep & -> & Hp & Hv)] Hmono; [by left|].
  right. destruct (Hmono p ep Hp Hv) as (ep' & Hp' & Hv'). eauto.
Qed.

Lemma coherent_reset c : reset c → coherent c.
Proof.
  intros (Hinit & Hbus & Hfree & Hidle). split.
  - by apply rat_tracks_initial.
  - destruct Hinit as [_ Hcount]. split.
    + intros k e Hk Hv. rewrite (Hfree k e Hk) in Hv. done.
    + intros k1 k2 e1 e2 Hk1 _ Hv. rewrite (Hfree k1 e1 Hk1) in Hv. done.
    + intros i r Hi. unfold ROB.live in Hi. rewrite Hcount in Hi. by apply elem_of_nil in Hi.
    + intros k e Hk Hv. rewrite (Hfree k e Hk) in Hv. done.
    + intros k e Hk Hv. rewrite (Hfree k e Hk) in Hv. done.
  - split.
    + intros d Hd. congruence.
    + intros t fu Ht Hb. rewrite (Hidle t fu Ht) in Hb. done.
    + intros t1 t2 fu1 fu2 Ht1 _ Hb. rewrite (Hidle t1 fu1 Ht1) in Hb. done.
    + intros d t fu Hd. congruence.
Qed.

(** *** Issue *)

Lemma live_allocate q (x : ROB.entry_t) :
  ROB.live (ROB.mk (<[ROB.tail_index q := x]> (ROB.store q)) (ROB.head q)
              (S (ROB.count q)))
  = ROB.live q ++ [ROB.tail_index q].
Proof.
  unfold ROB.live, ROB.tail_index, ROB.capacity.
  cbn [ROB.store ROB.head ROB.count].
  by rewrite length_insert, seq_S, fmap_app.
Qed.

(** The producer id [issue] reads for a source names a valid station. *)
Lemma read_operand_names c (use_rs : bool) (rs : nat) (a d : Z) :
  rat_tracks_rob c → stations (RS_ c) (ROB_ c) (RST_ c) →
  read_operand c use_rs rs = Ok (a, d) →
  names_station (RS_ c) a.
Proof.
  intros [Hcap Hrat] Hst. unfold read_operand. destruct use_rs.
  2:{ intros [= <- <-]. by left. }
  destruct (RAT.exists_ (RAT_ c) rs) eqn:Hex.
  - apply RAT_exists_true in Hex as [i Hi]. unfold RAT.get. rewrite Hi. simpl.
    intros Hrd. unbind Hrd as r Hr. apply at_Ok in Hr.
    destruct (ROB.ready r) eqn:Hready; injection Hrd as <- <-; [by left|].
    rewrite Hrat in Hi.
    pose proof (youngest_writer_live _ _ _ Hi) as Hlive.
    pose proof (youngest_writer_writes _ _ _ Hi) as Hw.
    unfold ROB.writes in Hw. rewrite Hr in Hw. apply andb_true_iff in Hw as [Hrd _].
    destruct (entry_station _ _ _ Hst i r Hlive Hr Hready) as (k & e & Hk & Hv & Hidx).
    destruct (station_entry _ _ _ Hst k e Hk Hv) as (_ & r' & Hr' & _ & Hinstr).
    rewrite Hidx, Hr in Hr'. injection Hr' as <-.
    right. exists k, e. split; [|done].
    rewrite <- Hidx. apply (rst_station _ _ _ Hst k e Hk Hv). by rewrite <- Hinstr.
  - intros Hrd. unbind Hrd as v Hv. injection Hrd as <- <-. by left.
Qed.

Lemma coherent_issue c c' : coherent c → issue c = Ok c' → coherent c'.
Proof.
  intros [Hrat Hst Hho] Hrun.
  pose proof (rat_tracks_issue _ _ Hrat Hrun) as Hrat'.
  destruct (issue_inv _ _ Hrun) as [->|Hinv]; [done|].
  destruct Hinv as (instr & queue' & a1 & d1 & a2 & d2 & ks &
                    Hq & _ & Hfull & H1 & H2 & Hfree & ->).
  destruct Hrat as [Hcap Hratmap].
  pose proof (tail_in_store _ Hfull) as Htail.
  assert (Hfresh : ROB.tail_index (ROB_ c) ∉ ROB.live (ROB_ c)).
  { apply tail_not_live. unfold ROB.full in Hfull.
    apply bool_decide_eq_false in Hfull. lia. }
  destruct (RS_free_slot_Some _ _ Hfree) as (e0 & Hks & Hv0).
  pose proof (lookup_lt_Some _ _ _ Hks) as Hkslt.
  assert (Hkeep : ∀ p ep, RS_ c !! p = Some ep → RS.valid ep = true → p ≠ ks).
  { intros p ep Hp Hv ->. congruence. }
  pose proof (read_operand_names c _ _ _ _ (conj Hcap Hratmap) Hst H1) as Hn1.
  pose proof (read_operand_names c _ _ _ _ (conj Hcap Hratmap) Hst H2) as Hn2.
  set (new := RS.mk_entry true false (ROB.tail_index (ROB_ c)) a1 a2 d1 d2 instr) in *.
  assert (Hmono : ∀ p ep, RS_ c !! p = Some ep → RS.valid ep = true →
            ∃ ep', <[ks := new]> (RS_ c) !! p = Some ep' ∧ RS.valid ep' = true).
  { intros p ep Hp Hv. exists ep. rewrite list_lookup_insert_ne; [done|].
    intros <-. by eapply Hkeep. }
  split; [done| |]; simpl.
  - split.
    + intros k e Hk Hv. rewrite live_allocate. cbn [ROB.store].
      destruct (decide (k = ks)) as [->|Hne].
      * rewrite list_lookup_insert_eq in Hk by done. injection Hk as <-. simpl.
        split; [apply elem_of_app; right; apply list_elem_of_here|].
        eexists. rewrite list_lookup_insert_eq by done. done.
      * rewrite list_lookup_insert_ne in Hk by done.
        destruct (station_entry _ _ _ Hst k e Hk Hv) as (Hlive & r & Hr & Hready & Hi).
        split; [apply elem_of_app; by left|].
        exists r. rewrite list_lookup_insert_ne; [done|].
        intros Heq. by rewrite <- Heq in Hlive.
    + intros k1 k2 e1 e2 Hk1 Hk2 Hv1 Hv2 Hsame.
      destruct (decide (k1 = ks)) as [->|Hne1]; destruct (decide (k2 = ks)) as [->|Hne2];
        [done| | |].
      * rewrite list_lookup_insert_eq in Hk1 by done. injection Hk1 as <-.
        rewrite list_lookup_insert_ne in Hk2 by done.
        destruct (station_entry _ _ _ Hst k2 e2 Hk2 Hv2) as (Hlive & _).
        simpl in Hsame. by rewrite <- Hsame in Hlive.
      * rewrite list_lookup_insert_eq in Hk2 by done. injection Hk2 as <-.
        rewrite list_lookup_insert_ne in Hk1 by done.
        destruct (station_entry _ _ _ Hst k1 e1 Hk1 Hv1) as (Hlive & _).
        simpl in Hsame. by rewrite Hsame in Hlive.
      * rewrite list_lookup_insert_ne in Hk1, Hk2 by done.
        by eapply (station_unique _ _ _ Hst).
    + intros i r Hi Hr Hready. rewrite live_allocate in Hi. cbn [ROB.store] in Hr.
      apply elem_of_app in Hi as [Hi|Hi].
      * rewrite list_lookup_insert_ne in Hr by (by intros <-).
        destruct (entry_station _ _ _ Hst i r Hi Hr Hready) as (k & e & Hk & Hv & Hidx).
        exists k, e. rewrite list_lookup_insert_ne; [done|].
        intros <-. by eapply Hkeep.
      * apply list_elem_of_singleton in Hi as ->.
        exists ks, new. by rewrite list_lookup_insert_eq.
    + intros k e Hk Hv Hrd. destruct (decide (k = ks)) as [->|Hne].
      * rewrite list_lookup_insert_eq in Hk by done. injection Hk as <-.
        simpl in *. rewrite Hrd. unfold RST_put. by rewrite decide_True.
      * rewrite list_lookup_insert_ne in Hk by done.
        destruct (station_entry _ _ _ Hst k e Hk Hv) as (Hlive & _).
        assert (Hfar : RS.rob_index e ≠ ROB.tail_index (ROB_ c)).
        { intros Heq. by rewrite Heq in Hlive. }
        pose proof (rst_station _ _ _ Hst k e Hk Hv Hrd) as Hold.
        destruct (use_rd (getExeFlags instr)); [|done].
        unfold RST_put. by rewrite decide_False.
    + intros k e Hk Hv. destruct (decide (k = ks)) as [->|Hne].
      * rewrite list_lookup_insert_eq in Hk by done. injection Hk as <-. simpl.
        split; by eapply names_station_mono.
      * rewrite list_lookup_insert_ne in Hk by done.
        destruct (pending_station _ _ _ Hst k e Hk Hv) as [Hp1 Hp2].
        split; by eapply names_station_mono.
  - apply (holders_pool (RS_ c)); [done|].
    intros rs rob Hholds. apply holds_insert_other; [done|].
    destruct Hholds as (e & He & Hv & _). by eapply Hkeep.
Qed.

(** *** Execute *)

Lemma holders_advance pool fus (cdb : CDB.t) :
  holders pool fus cdb → holders pool (advance fus) cdb.
Proof.
  intros [Hbus Hunit Hua Hba].
  assert (Hback : ∀ t fu', advance fus !! t = Some fu' → FU.busy fu' = true →
            ∃ fu, fus !! t = Some fu ∧ FU.busy fu = true
              ∧ FU.rs_index (FU.get_output fu') = FU.rs_index (FU.get_output fu)
              ∧ FU.rob_index (FU.get_output fu') = FU.rob_index (FU.get_output fu)).
  { intros t fu' Ht Hb. unfold advance in Ht. rewrite list_lookup_fmap in Ht.
    destruct (fus !! t) as [fu|]; [|done]. simpl in Ht. injection Ht as <-.
    rewrite execute_busy in Hb. exists fu.
    by rewrite execute_rs_index, execute_rob_index. }
  split.
  - done.
  - intros t fu' Ht Hb. destruct (Hback t fu' Ht Hb) as (fu & Hfu & Hbf & -> & ->).
    by eapply Hunit.
  - intros t1 t2 fu1 fu2 Ht1 Ht2 Hb1 Hb2 Hsame.
    destruct (Hback t1 fu1 Ht1 Hb1) as (g1 & Hg1 & Hbg1 & Hrs1 & _).
    destruct (Hback t2 fu2 Ht2 Hb2) as (g2 & Hg2 & Hbg2 & Hrs2 & _).
    apply (Hua t1 t2 g1 g2); [done..|]. congruence.
  - intros d t fu' Hd Ht Hb. destruct (Hback t fu' Ht Hb) as (fu & Hfu & Hbf & -> & _).
    by eapply Hba.
Qed.

Lemma drain_inv fus : ∀ (cdb : CDB.t) fus1 (cdb' : CDB.t),
  drain fus cdb = Ok (fus1, cdb') →
  fus1 = fus ∧ cdb' = cdb
  ∨ cdb = None
    ∧ ∃ t fu, fus !! t = Some fu ∧ FU.done fu = true
        ∧ fus1 = <[t := FU.clear fu]> fus
        ∧ cdb' = Some (CDB.mk_data (FU.result (FU.get_output fu))
                         (FU.rob_index (FU.get_output fu))
                         (FU.rs_index (FU.get_output fu))).
Proof.
  induction fus as [|fu rest IH]; intros cdb fus1 cdb' Hrun; simpl in Hrun.
  { injection Hrun as <- <-. by left. }
  destruct (FU.done fu) eqn:Hdone; simpl in Hrun.
  - destruct cdb as [d|]; simpl in Hrun.
    + unbind Hrun as p Hrest. destruct p as [rest' cdb1]. injection Hrun as <- <-.
      destruct (IH _ _ _ Hrest) as [[-> ->]|[? _]]; [by left|done].
    + injection Hrun as <- <-. right. split; [done|]. by exists 0, fu.
  - unbind Hrun as p Hrest. destruct p as [rest' cdb1]. injection Hrun as <- <-.
    destruct (IH _ _ _ Hrest) as [[-> ->]|(-> & t & fu' & Ht & Hd & -> & ->)]; [by left|].
    right. split; [done|]. by exists (S t), fu'.
Qed.

Lemma holders_drained pool fus (t : nat) (fu : F) :
  holders pool fus None →
  fus !! t = Some fu → FU.done fu = true →
  holders pool (<[t := FU.clear fu]> fus)
    (Some (CDB.mk_data (FU.result (FU.get_output fu))
             (FU.rob_index (FU.get_output fu)) (FU.rs_index (FU.get_output fu)))).
Proof.
  intros [Hbus Hunit Hua Hba] Ht Hdone.
  pose proof (done_busy fu Hdone) as Hbusy.
  pose proof (lookup_lt_Some _ _ _ Ht) as Hlt.
  assert (Hback : ∀ t' fu', <[t := FU.clear fu]> fus !! t' = Some fu' →
            FU.busy fu' = true → t' ≠ t ∧ fus !! t' = Some fu').
  { intros t' fu' Ht' Hb. destruct (decide (t' = t)) as [->|Hne].
    - rewrite list_lookup_insert_eq in Ht' by done. injection Ht' as <-.
      by rewrite clear_idle in Hb.
    - by rewrite list_lookup_insert_ne in Ht'. }
  split.
  - intros d [= <-]. simpl. by eapply Hunit.
  - intros t' fu' Ht' Hb. destruct (Hback t' fu' Ht' Hb) as [_ Hold]. by eapply Hunit.
  - intros t1 t2 fu1 fu2 Ht1 Ht2 Hb1 Hb2.
    destruct (Hback t1 fu1 Ht1 Hb1) as [_ Ho1].
    destruct (Hback t2 fu2 Ht2 Hb2) as [_ Ho2]. by apply Hua.
  - intros d t' fu' [= <-] Ht' Hb. simpl.
    destruct (Hback t' fu' Ht' Hb) as [Hne Hold].
    intros Hsame. apply Hne. by apply (Hua t' t fu' fu).
Qed.

Lemma schedule_inv_idle (n : nat) : ∀ (i : nat) pool fus pool' fus',
  schedule n i pool fus = Ok (pool', fus') →
  pool' = pool ∧ fus' = fus
  ∨ ∃ k e fu,
      pool !! k = Some e
      ∧ RS.valid e = true ∧ RS.running e = false
      ∧ fus !! getFUType (RS.instr e) = Some fu
      ∧ FU.busy fu = false
      ∧ pool' = <[k := RS.set_running e]> pool
      ∧ fus' = <[getFUType (RS.instr e) :=
                   FU.issue (RS.instr e) (RS.rob_index e) k
                     (RS.rs1_data e) (RS.rs2_data e) fu]> fus.
Proof.
  induction n as [|n IH]; intros i pool fus pool' fus' Hrun; simpl in Hrun.
  { injection Hrun as <- <-. by left. }
  unbind Hrun as e He. apply at_Ok in He.
  destruct (RS.valid e && negb (RS.running e) && RS.operands_ready pool i
            && negb (RS.locked pool i)) eqn:Hready; [|by eapply IH].
  unbind Hrun as fu Hfu. apply at_Ok in Hfu.
  destruct (FU.busy fu) eqn:Hbusy; simpl in Hrun; [by eapply IH|].
  injection Hrun as <- <-. right. exists i, e, fu.
  destruct (RS.valid e); [|done]. destruct (RS.running e); done.
Qed.

Lemma holders_dispatch pool fus (cdb : CDB.t) (k ty : nat) (e : RS.entry_t)
    (fu : F) (i : Instr) (a b : Z) :
  holders pool fus cdb →
  pool !! k = Some e → RS.valid e = true → RS.running e = false →
  fus !! ty = Some fu →
  holders (<[k := RS.set_running e]> pool)
    (<[ty := FU.issue i (RS.rob_index e) k a b fu]> fus) cdb.
Proof.
  intros [Hbus Hunit Hua Hba] Hk Hvalid Hidle Hty.
  pose proof (lookup_lt_Some _ _ _ Hk) as Hklt.
  pose proof (lookup_lt_Some _ _ _ Hty) as Htylt.
  assert (Hfree : ∀ rob, ¬ holds pool k rob).
  { intros rob (e' & He' & _ & Hr & _). rewrite Hk in He'. injection He' as <-.
    congruence. }
  set (fu' := FU.issue i (RS.rob_index e) k a b fu).
  assert (Hnew : FU.rs_index (FU.get_output fu') = k
                 ∧ FU.rob_index (FU.get_output fu') = RS.rob_index e).
  { unfold fu'. by rewrite issue_rs_index, issue_rob_index. }
  destruct Hnew as [Hnrs Hnrob].
  assert (Hold : ∀ t g, <[ty := fu']> fus !! t = Some g → t ≠ ty → fus !! t = Some g).
  { intros t g Ht Hne. by rewrite list_lookup_insert_ne in Ht. }
  assert (Hat : ∀ g, <[ty := fu']> fus !! ty = Some g → g = fu').
  { intros g Hg. rewrite list_lookup_insert_eq in Hg by done. by injection Hg. }
  split.
  - intros d Hd. apply holds_set_running; [done|]. by apply Hbus.
  - intros t g Ht Hb. destruct (decide (t = ty)) as [->|Hne].
    + rewrite (Hat g Ht), Hnrs, Hnrob. exists (RS.set_running e).
      rewrite list_lookup_insert_eq by done. done.
    + apply holds_set_running; [done|]. eapply Hunit; [by apply Hold|done].
  - intros t1 t2 g1 g2 Ht1 Ht2 Hb1 Hb2 Hsame.
    destruct (decide (t1 = ty)) as [->|Hne1]; destruct (decide (t2 = ty)) as [->|Hne2];
      [done| | |].
    + exfalso. rewrite (Hat g1 Ht1), Hnrs in Hsame.
      apply (Hfree (FU.rob_index (FU.get_output g2))). rewrite Hsame.
      eapply Hunit; [by apply Hold|done].
    + exfalso. rewrite (Hat g2 Ht2), Hnrs in Hsame.
      apply (Hfree (FU.rob_index (FU.get_output g1))). rewrite <- Hsame.
      eapply Hunit; [by apply Hold|done].
    + apply (Hua t1 t2 g1 g2); [by apply Hold|by apply Hold|done..].
  - intros d t g Hd Ht Hb. destruct (decide (t = ty)) as [->|Hne].
    + rewrite (Hat g Ht), Hnrs. intros Heq.
      apply (Hfree (CDB.rob_index d)). rewrite Heq. by apply Hbus.
    + eapply Hba; [done|by apply Hold|done].
Qed.

Lemma stations_set_running pool q (rst : nat → Z) (k : nat) (e : RS.entry_t) :
  stations pool q rst → pool !! k = Some e →
  stations (<[k := RS.set_running e]> pool) q rst.
Proof.
  intros Hst Hk. pose proof (lookup_lt_Some _ _ _ Hk) as Hklt.
  assert (Hback : ∀ j e', <[k := RS.set_running e]> pool !! j = Some e' →
            ∃ e0, pool !! j = Some e0
              ∧ RS.valid e' = RS.valid e0 ∧ RS.rob_index e' = RS.rob_index e0
              ∧ RS.instr e' = RS.instr e0
              ∧ RS.rs1_index e' = RS.rs1_index e0 ∧ RS.rs2_index e' = RS.rs2_index e0).
  { intros j e' Hj. destruct (decide (j = k)) as [->|Hne].
    - rewrite list_lookup_insert_eq in Hj by done. injection Hj as <-. by exists e.
    - rewrite list_lookup_insert_ne in Hj by done. by exists e'. }
  assert (Hforth : ∀ j e0, pool !! j = Some e0 → RS.valid e0 = true →
            ∃ e', <[k := RS.set_running e]> pool !! j = Some e'
              ∧ RS.valid e' = true ∧ RS.rob_index e' = RS.rob_index e0).
  { intros j e0 Hj Hv. destruct (decide (j = k)) as [->|Hne].
    - rewrite Hk in Hj. injection Hj as <-. exists (RS.set_running e).
      by rewrite list_lookup_insert_eq.
    - exists e0. by rewrite list_lookup_insert_ne. }
  assert (Hnames : ∀ id, names_station pool id →
            names_station (<[k := RS.set_running e]> pool) id).
  { intros id Hid. eapply names_station_mono; [done|].
    intros p ep Hp Hv. destruct (Hforth p ep Hp Hv) as (ep' & ? & ? & _). eauto. }
  split.
  - intros j e' Hj Hv. destruct (Hback j e' Hj) as (e0 & Hlk0 & Hv0 & Hi0 & Hin0 & _).
    rewrite Hv0 in Hv. rewrite Hi0, Hin0. by eapply (station_entry _ _ _ Hst).
  - intros j1 j2 e1 e2 Hj1 Hj2 Hv1 Hv2 Hsame.
    destruct (Hback j1 e1 Hj1) as (a1 & Ha1 & Hva1 & Hia1 & _).
    destruct (Hback j2 e2 Hj2) as (a2 & Ha2 & Hva2 & Hia2 & _).
    apply (station_unique _ _ _ Hst j1 j2 a1 a2); congruence.
  - intros i r Hi Hr Hready.
    destruct (entry_station _ _ _ Hst i r Hi Hr Hready) as (j & e0 & Hj & Hv & Hidx).
    destruct (Hforth j e0 Hj Hv) as (e' & He' & Hv' & Hi'). exists j, e'.
    split; [done|]. split; [done|]. congruence.
  - intros j e' Hj Hv Hrd.
    destruct (Hback j e' Hj) as (e0 & Hlk0 & Hv0 & Hi0 & Hin0 & _).
    rewrite Hi0. apply (rst_station _ _ _ Hst j e0 Hlk0); congruence.
  - intros j e' Hj Hv.
    destruct (Hback j e' Hj) as (e0 & Hin0 & Hv0 & _ & _ & H1 & H2).
    rewrite H1, H2. rewrite Hv0 in Hv.
    destruct (pending_station _ _ _ Hst j e0 Hin0 Hv). split; by apply Hnames.
Qed.

Lemma coherent_execute c c' : coherent c → execute c = Ok c' → coherent c'.
Proof.
  intros [Hrat Hst Hho] Hrun. unfold execute in Hrun.
  unbind Hrun as p1 Hdrain. destruct p1 as [fus1 cdb'].
  unbind Hrun as p2 Hsched. destruct p2 as [pool' fus2]. injection Hrun as <-.
  assert (Hho1 : holders (RS_ c) fus1 cdb').
  { apply holders_advance in Hho.
    destruct (drain_inv _ _ _ _ Hdrain) as [[-> ->]|(Hbus & t & fu & Ht & Hd & -> & ->)];
      [done|].
    rewrite Hbus in Hho. by apply holders_drained. }
  split; [done| |]; simpl.
  - destruct (schedule_inv_idle _ _ _ _ _ _ Hsched)
      as [[-> ->]|(k & e & fu & Hk & _ & _ & _ & _ & -> & ->)]; [done|].
    by apply stations_set_running.
  - destruct (schedule_inv_idle _ _ _ _ _ _ Hsched)
      as [[-> ->]|(k & e & fu & Hk & Hv & Hr & Hfu & _ & -> & ->)]; [done|].
    by apply holders_dispatch.
Qed.

(** *** Writeback *)

Lemma live_update q (idx : nat) (x : ROB.entry_t) :
  ROB.live (ROB.mk (<[idx := x]> (ROB.store q)) (ROB.head q) (ROB.count q))
  = ROB.live q.
Proof. unfold ROB.live, ROB.capacity. simpl. by rewrite length_insert. Qed.

Lemma after_broadcast_fields (d : CDB.data_t) (k : nat) (e : RS.entry_t) :
  RS.valid (after_broadcast d k e)
  = (if decide (k = CDB.rs_index d) then false else RS.valid e)
  ∧ RS.running (after_broadcast d k e) = RS.running e
  ∧ RS.rob_index (after_broadcast d k e) = RS.rob_index e
  ∧ RS.instr (after_broadcast d k e) = RS.instr e.
Proof.
  unfold after_broadcast, woken.
  destruct (decide (k = CDB.rs_index d)); destruct (RS.valid e) eqn:Hv; done.
Qed.

Lemma coherent_writeback c c' : coherent c → writeback c = Ok c' → coherent c'.
Proof.
  intros Hcoh Hrun. pose proof Hcoh as [Hrat Hst Hho].
  pose proof (rat_tracks_writeback _ _ Hrat Hrun) as Hrat'.
  destruct (writeback_inv _ _ Hrun) as [->|(d & old & pool' & Hbus & Hold & Hc')]; [done|].
  destruct (bus_holds _ _ _ Hho d Hbus) as (ed & Hed & Hved & Hred & Hied).
  destruct (station_entry _ _ _ Hst _ _ Hed Hved) as (Hlived & _).
  assert (Hrange : bus_in_range c).
  { unfold bus_in_range. rewrite Hbus. split.
    - by eapply lookup_lt_Some.
    - by eapply lookup_lt_Some. }
  unfold bus_in_range in Hrange. rewrite Hbus in Hrange. destruct Hrange as [Hrs Hrob].
  destruct (writeback_message c d Hbus Hrs Hrob) as (old' & _ & Hrun').
  rewrite Hrun in Hrun'. injection Hrun' as ->. clear Hc' pool'.
  assert (Hback : ∀ j e', imap (after_broadcast d) (RS_ c) !! j = Some e' →
            RS.valid e' = true →
            j ≠ CDB.rs_index d
            ∧ ∃ e0, RS_ c !! j = Some e0 ∧ RS.valid e0 = true
                ∧ e' = RS.update_operands d e0).
  { intros j e' Hj Hv. rewrite list_lookup_imap in Hj.
    destruct (RS_ c !! j) as [e0|]; [|done]. simpl in Hj. injection Hj as <-.
    unfold after_broadcast, woken in *.
    destruct (decide (j = CDB.rs_index d)); [done|].
    destruct (RS.valid e0) eqn:Hv0; [|congruence]. split; [done|]. by exists e0. }
  assert (Hforth : ∀ j e0, RS_ c !! j = Some e0 → RS.valid e0 = true →
            j ≠ CDB.rs_index d →
            imap (after_broadcast d) (RS_ c) !! j = Some (RS.update_operands d e0)).
  { intros j e0 Hj Hv Hne. rewrite list_lookup_imap, Hj. simpl.
    unfold after_broadcast, woken. by rewrite decide_False, Hv. }
  assert (Hother : ∀ j e0, RS_ c !! j = Some e0 → RS.valid e0 = true →
            j ≠ CDB.rs_index d → RS.rob_index e0 ≠ CDB.rob_index d).
  { intros j e0 Hj Hv Hne Heq. apply Hne.
    apply (station_unique _ _ _ Hst j (CDB.rs_index d) e0 ed); congruence. }
  split; [done| |]; simpl.
  - split.
    + intros j e' Hj Hv. destruct (Hback j e' Hj Hv) as (Hne & e0 & Hin0 & Hv0 & ->).
      simpl. rewrite live_update. cbn [ROB.store].
      destruct (station_entry _ _ _ Hst j e0 Hin0 Hv0) as (Hlive & r & Hr & Hready & Hi).
      split; [done|]. exists r. rewrite list_lookup_insert_ne; [done|].
      intros Heq. by apply (Hother j e0 Hin0 Hv0 Hne).
    + intros j1 j2 e1 e2 Hj1 Hj2 Hv1 Hv2 Hsame.
      destruct (Hback j1 e1 Hj1 Hv1) as (_ & a1 & Ha1 & Hva1 & ->).
      destruct (Hback j2 e2 Hj2 Hv2) as (_ & a2 & Ha2 & Hva2 & ->).
      by apply (station_unique _ _ _ Hst j1 j2 a1 a2).
    + intros i r Hi Hr Hready. rewrite live_update in Hi. cbn [ROB.store] in Hr.
      assert (Hne : i ≠ CDB.rob_index d).
      { intros ->. rewrite list_lookup_insert_eq in Hr by done.
        injection Hr as <-. done. }
      rewrite list_lookup_insert_ne in Hr by done.
      destruct (entry_station _ _ _ Hst i r Hi Hr Hready) as (j & e0 & Hj & Hv & Hidx).
      assert (Hj' : j ≠ CDB.rs_index d).
      { intros ->. rewrite Hed in Hj. injection Hj as <-. congruence. }
      exists j, (RS.update_operands d e0). split; [by apply Hforth|]. done.
    + intros j e' Hj Hv Hrd. destruct (Hback j e' Hj Hv) as (_ & e0 & Hin0 & Hv0 & ->).
      simpl in *. by apply (rst_station _ _ _ Hst j e0 Hin0 Hv0).
    + intros j e' Hj Hv. destruct (Hback j e' Hj Hv) as (_ & e0 & Hin0 & Hv0 & ->).
      destruct (pending_station _ _ _ Hst j e0 Hin0 Hv0) as [Hp1 Hp2].
      assert (Hkeep : ∀ id, names_station (RS_ c) id →
                id ≠ Z.of_nat (CDB.rs_index d) →
                names_station (imap (after_broadcast d) (RS_ c)) id).
      { intros id [->|(p & ep & -> & Hp & Hvp)] Hid; [by left|].
        right. exists p, (RS.update_operands d ep). split; [done|].
        split; [|done]. apply Hforth; [done..|]. intros ->. done. }
      simpl. split; case_bool_decide; try (by left); by apply Hkeep.
  - split.
    + done.
    + intros t fu Ht Hb.
      destruct (unit_holds _ _ _ Hho t fu Ht Hb) as (e0 & Hin0 & Hv0 & Hr0 & Hi0).
      pose proof (bus_apart _ _ _ Hho d t fu Hbus Ht Hb) as Hne.
      exists (RS.update_operands d e0). split; [by apply Hforth|]. done.
    + apply (units_apart _ _ _ Hho).
    + done.
Qed.

(** *** Commit *)

Lemma coherent_commit c c' : coherent c → commit c = Ok c' → coherent c'.
Proof.
  intros [Hrat Hst Hho] Hrun.
  pose proof (rat_tracks_commit _ _ Hrat Hrun) as Hrat'.
  destruct (commit_inv _ _ Hrun) as [[-> _]|(eh & Hcount & Hhead & Hready & _ & ->)];
    [done|].
  pose proof (live_pop (ROB_ c) Hcount (lookup_lt_Some _ _ _ Hhead)) as Hlive.
  split; [done| |done]. simpl. split.
  - intros k e Hk Hv. cbn [ROB.store].
    destruct (station_entry _ _ _ Hst k e Hk Hv) as (Hin & r & Hr & Hnot & Hi).
    split; [|by exists r].
    rewrite Hlive in Hin. apply elem_of_cons in Hin as [Heq|Hin]; [|done].
    rewrite Heq, Hhead in Hr. injection Hr as <-. congruence.
  - apply (station_unique _ _ _ Hst).
  - intros i r Hi Hr Hnot. cbn [ROB.store] in Hr.
    apply (entry_station _ _ _ Hst i r); [|done..].
    rewrite Hlive. by apply list_elem_of_further.
  - apply (rst_station _ _ _ Hst).
  - apply (pending_station _ _ _ Hst).
Qed.

(** *** Runs *)

Lemma coherent_step c c' : coherent c → step c c' → coherent c'.
Proof.
  intros Hcoh Hstep.
  destruct Hstep as [c c' Hrun|c c' Hrun|c c' Hrun|c c' Hrun|c queue n].
  - by eapply coherent_issue.
  - by eapply coherent_execute.
  - by eapply coherent_writeback.
  - by eapply coherent_commit.
  - destruct Hcoh as [Hrat Hst Hho]. by split.
Qed.

Lemma coherent_run c c' : reset c → rtc step c c' → coherent c'.
Proof.
  intros Hreset Hrun. apply coherent_reset in Hreset.
  induction Hrun as [c|c c1 c' Hstep _ IH]; [done|].
  apply IH. by eapply coherent_step.
Qed.

(** X17: with lawful units, along every run from reset the bus only
    ever carries a message for a valid, running station and for the
    reorder entry of that station, which is in flight and not ready yet:
    [writeback] never throws, and no entry is written back twice. *)
Theorem writeback_safe_after_reset c c' :
  reset c → rtc step c c' →
  bus_in_range c'
  ∧ (∃ c'', writeback c' = Ok c'')
  ∧ ∀ d, CDB_ c' = Some d →
      ∃ e r, RS_ c' !! CDB.rs_index d = Some e
        ∧ RS.valid e = true ∧ RS.running e = true
        ∧ RS.rob_index e = CDB.rob_index d
        ∧ CDB.rob_index d ∈ ROB.live (ROB_ c')
        ∧ ROB.store (ROB_ c') !! CDB.rob_index d = Some r
        ∧ ROB.ready r = false
        ∧ ROB.instr r = RS.instr e.
Proof.
  intros Hreset Hrun. destruct (coherent_run c c' Hreset Hrun) as [Hrat Hst Hho].
  assert (Hmsg : ∀ d, CDB_ c' = Some d →
            ∃ e r, RS_ c' !! CDB.rs_index d = Some e
              ∧ RS.valid e = true ∧ RS.running e = true
              ∧ RS.rob_index e = CDB.rob_index d
              ∧ CDB.rob_index d ∈ ROB.live (ROB_ c')
              ∧ ROB.store (ROB_ c') !! CDB.rob_index d = Some r
              ∧ ROB.ready r = false
              ∧ ROB.instr r = RS.instr e).
  { intros d Hd. destruct (bus_holds _ _ _ Hho d Hd) as (e & He & Hv & Hr & Hi).
    destruct (station_entry _ _ _ Hst _ _ He Hv) as (Hlive & r & Hlook & Hready & Hin).
    rewrite Hi in *. by exists e, r. }
  assert (Hrange : bus_in_range c').
  { unfold bus_in_range. destruct (CDB_ c') as [d|] eqn:Hd; [|done].
    destruct (Hmsg d eq_refl) as (e & r & He & _ & _ & _ & _ & Hr & _).
    split; by eapply lookup_lt_Some. }
  split; [done|]. split; [|done].
  destruct (CDB_ c') as [d|] eqn:Hd.
  - unfold bus_in_range in Hrange. rewrite Hd in Hrange. destruct Hrange as [Hrs Hrob].
    destruct (writeback_message c' d Hd Hrs Hrob) as (old & _ & Hwb). eauto.
  - exists c'. unfold writeback. by rewrite Hd.
Qed.

(** X18: with lawful units, along every run from reset no station waits
    on a freed slot: a pending producer id of a valid station is the slot
    of a valid station whose reorder entry is in flight and not ready, so
    the broadcast it waits for is still to come. *)
Theorem pending_producer_is_in_flight c c' (k p : nat) (e : RS.entry_t) :
  reset c → rtc step c c' →
  RS_ c' !! k = Some e → RS.valid e = true →
  RS.rs1_index e = Z.of_nat p ∨ RS.rs2_index e = Z.of_nat p →
  ∃ ep r,
    RS_ c' !! p = Some ep
    ∧ RS.valid ep = true
    ∧ RS.rob_index ep ∈ ROB.live (ROB_ c')
    ∧ ROB.store (ROB_ c') !! RS.rob_index ep = Some r
    ∧ ROB.ready r = false.
Proof.
  intros Hreset Hrun Hk Hv Hwait.
  destruct (coherent_run c c' Hreset Hrun) as [Hrat Hst Hho].
  destruct (pending_station _ _ _ Hst k e Hk Hv) as [Hp1 Hp2].
  assert (Hnamed : names_station (RS_ c') (Z.of_nat p)).
  { destruct Hwait as [<-|<-]; done. }
  destruct Hnamed as [Hneg|(p' & ep & Hp' & Hep & Hvp)]; [lia|].
  apply Nat2Z.inj in Hp' as <-.
  destruct (station_entry _ _ _ Hst p ep Hep Hvp) as (Hlive & r & Hr & Hready & _).
  by exists ep, r.
Qed.

(** X19: with lawful units, along every run from reset every reorder
    entry that is in flight and not ready is held by exactly one valid
    station, which carries the same instruction; when the instruction
    writes a register, the RST at the entry's index is that station's
    slot. *)
Theorem pending_entry_has_one_station c c' (i : nat) (r : ROB.entry_t) :
  reset c → rtc step c c' →
  i ∈ ROB.live (ROB_ c') →
  ROB.store (ROB_ c') !! i = Some r → ROB.ready r = false →
  ∃ k e,
    RS_ c' !! k = Some e
    ∧ RS.valid e = true
    ∧ RS.rob_index e = i
    ∧ RS.instr e = ROB.instr r
    ∧ (use_rd (getExeFlags (ROB.instr r)) = true → RST_ c' i = Z.of_nat k)
    ∧ ∀ k' e', RS_ c' !! k' = Some e' → RS.valid e' = true →
        RS.rob_index e' = i → k' = k.
Proof.
  intros Hreset Hrun Hi Hr Hready.
  destruct (coherent_run c c' Hreset Hrun) as [Hrat Hst Hho].
  destruct (entry_station _ _ _ Hst i r Hi Hr Hready) as (k & e & Hk & Hv & Hidx).
  destruct (station_entry _ _ _ Hst k e Hk Hv) as (_ & r' & Hr' & _ & Hinstr).
  rewrite Hidx, Hr in Hr'. injection Hr' as <-.
  exists k, e. split; [done|]. split; [done|]. split; [done|]. split; [done|]. split.
  - intros Hrd. rewrite <- Hidx. apply (rst_station _ _ _ Hst k e Hk Hv). congruence.
  - intros k' e' Hk' Hv' Hidx'.
    apply (station_unique _ _ _ Hst k' k e' e); congruence.
Qed.

(** X20: with lawful units, along every run from reset every busy unit
    works for a valid, running station with the reorder index the unit
    reports, no two busy units work for the same station, and no busy unit
    works for the station whose result is on the bus: a station is never
    executed twice. *)
Theorem station_has_one_worker c c' :
  reset c → rtc step c c' →
  (∀ t fu, FUs_ c' !! t = Some fu → FU.busy fu = true →
     ∃ e, RS_ c' !! FU.rs_index (FU.get_output fu) = Some e
       ∧ RS.valid e = true ∧ RS.running e = true
       ∧ RS.rob_index e = FU.rob_index (FU.get_output fu))
  ∧ (∀ t1 t2 fu1 fu2,
       FUs_ c' !! t1 = Some fu1 → FUs_ c' !! t2 = Some fu2 →
       FU.busy fu1 = true → FU.busy fu2 = true →
       FU.rs_index (FU.get_output fu1) = FU.rs_index (FU.get_output fu2) →
       t1 = t2)
  ∧ (∀ d t fu,
       CDB_ c' = Some d → FUs_ c' !! t = Some fu → FU.busy fu = true →
       FU.rs_index (FU.get_output fu) ≠ CDB.rs_index d).
Proof.
  intros Hreset Hrun. destruct (coherent_run c c' Hreset Hrun) as [Hrat Hst Hho].
  split; [|split].
  - intros t fu Ht Hb. by apply (unit_holds _ _ _ Hho t fu).
  - apply (units_apart _ _ _ Hho).
  - apply (bus_apart _ _ _ Hho).
Qed.

End Coherence.

End CoreProperties.

(** * Runs on the concrete machine *)

Lemma units_present_Forall {F : Type} (pool : RS.t) (fus : list F) :
  Forall (λ e, getFUType (RS.instr e) < length fus) pool → units_present pool fus.
Proof.
  intros Hall rs_index entry Hentry _.
  by apply (Forall_lookup_1 _ _ _ _ Hall Hentry).
Qed.

Lemma s_issued_reachable : reachable Sample.s_issued.
Proof.
  apply (reachable_step (Sample.power_on [Sample.add_1_1_2; Sample.li_3])).
  - apply reachable_initial. split; reflexivity.
  - apply step_issue. reflexivity.
Defined.

Lemma s_renamed_reachable : reachable Sample.s_renamed.
Proof.
  apply (reachable_step (Sample.power_on [Sample.add_1_1_2; Sample.add_1_1_2])).
  - apply reachable_initial. split; reflexivity.
  - apply step_issue. reflexivity.
Defined.

Lemma rat_names_youngest_writer_witness :
  reachable Sample.s_issued
  ∧ RAT_ Sample.s_issued !! 1 = Some 0
  ∧ ROB.youngest_writer 1 (ROB_ Sample.s_issued) = Some 0.
Proof.
  split; [exact s_issued_reachable|]. split; [reflexivity|].
  apply (proj1 (rat_names_youngest_writer Sample.s_issued s_issued_reachable) 1 0).
  reflexivity.
Defined.

Lemma issue_resolves_sources_witness :
  ∃ c' rs_index e,
    issue Sample.s_renamed = Ok c'
    ∧ RS.free_slot (RS_ Sample.s_renamed) = Some rs_index
    ∧ RS_ c' !! rs_index = Some e
    ∧ RS.instr e = Sample.add_1_1_2
    ∧ (use_rs1 (getExeFlags Sample.add_1_1_2) = true →
       operand_source Sample.s_renamed (getRs1 Sample.add_1_1_2)
         (RS.rs1_index e) (RS.rs1_data e))
    ∧ (use_rs2 (getExeFlags Sample.add_1_1_2) = true →
       operand_source Sample.s_renamed (getRs2 Sample.add_1_1_2)
         (RS.rs2_index e) (RS.rs2_data e)).
Proof.
  apply (issue_resolves_sources Sample.s_renamed Sample.add_1_1_2 []).
  - reflexivity.
  - reflexivity.
  - reflexivity.
  - intros _. vm_compute. lia.
  - intros _. vm_compute. lia.
Defined.

Lemma issue_reads_before_rename_witness :
  ∃ c' rs_index e,
    issue Sample.s_renamed = Ok c'
    ∧ RS_ c' !! rs_index = Some e
    ∧ RS.instr e = Sample.add_1_1_2
    ∧ RS.rob_index e = ROB.tail_index (ROB_ Sample.s_renamed)
    ∧ RAT_ c' !! getRd Sample.add_1_1_2 = Some (ROB.tail_index (ROB_ Sample.s_renamed))
    ∧ (use_rs1 (getExeFlags Sample.add_1_1_2) = true →
       getRs1 Sample.add_1_1_2 = getRd Sample.add_1_1_2 →
       operand_source Sample.s_renamed (getRs1 Sample.add_1_1_2)
         (RS.rs1_index e) (RS.rs1_data e)
       ∧ RAT_ Sample.s_renamed !! getRs1 Sample.add_1_1_2
         ≠ Some (ROB.tail_index (ROB_ Sample.s_renamed)))
    ∧ (use_rs2 (getExeFlags Sample.add_1_1_2) = true →
       getRs2 Sample.add_1_1_2 = getRd Sample.add_1_1_2 →
       operand_source Sample.s_renamed (getRs2 Sample.add_1_1_2)
         (RS.rs2_index e) (RS.rs2_data e)
       ∧ RAT_ Sample.s_renamed !! getRs2 Sample.add_1_1_2
         ≠ Some (ROB.tail_index (ROB_ Sample.s_renamed))).
Proof.
  apply (issue_reads_before_rename Sample.s_renamed Sample.add_1_1_2 []).
  - exact s_renamed_reachable.
  - reflexivity.
  - reflexivity.
  - reflexivity.
  - intros _. vm_compute. lia.
  - intros _. vm_compute. lia.
  - reflexivity.
Defined.

Lemma unused_source_is_resolved_witness :
  ∃ c' rs_index e,
    issue Sample.s_issued = Ok c'
    ∧ RS_ c' !! rs_index = Some e
    ∧ RS.rs1_index e = (-1)%Z ∧ RS.rs1_data e = 0%Z
    ∧ RS.rs2_index e = (-1)%Z ∧ RS.rs2_data e = 0%Z.
Proof.
  destruct (unused_source_is_resolved Sample.s_issued Sample.li_3 [])
    as (c' & rs_index & e & Hrun & He & _ & H1 & H2).
  - reflexivity.
  - reflexivity.
  - reflexivity.
  - intros Huse. discriminate Huse.
  - intros Huse. discriminate Huse.
  - exists c', rs_index, e.
    destruct (H1 eq_refl) as (? & ? & _). destruct (H2 eq_refl) as (? & ? & _).
    repeat split; assumption.
Defined.

Lemma issue_stall_no_effect_witness :
  issue Sample.jammed = Ok Sample.jammed
  ∧ Nat.iter 3 (λ r, r ≫= issue) (Ok Sample.jammed) = Ok Sample.jammed.
Proof.
  apply (issue_stall_no_effect Sample.jammed 3).
  - discriminate.
  - reflexivity.
Defined.

Lemma writeback_broadcasts_witness :
  CDB_ Sample.s_done = Some (CDB.mk_data 23 0 0)
  ∧ ∃ c', writeback Sample.s_done = Ok c' ∧ CDB_ c' = None.
Proof.
  split; [reflexivity|].
  destruct (writeback_broadcasts Sample.s_done) as (c' & Hrun & Hbus & _).
  - vm_compute. split; lia.
  - exists c'. split; assumption.
Defined.

Lemma execute_dispatches_lowest_witness :
  ∃ c', execute Sample.s_issued2 = Ok c'
    ∧ RS_ Sample.s_issued2 !! 0
      = Some (RS.mk_entry true false 0 (-1) (-1) 11 12 Sample.add_1_1_2)
    ∧ RS_ c' !! 0 = Some (RS.mk_entry true true 0 (-1) (-1) 11 12 Sample.add_1_1_2).
Proof.
  destruct (execute_dispatches_lowest Sample.s_issued2)
    as (fus1 & cdb' & c' & Hdrain & Hrun & Hcases).
  - apply units_present_Forall. repeat constructor.
  - vm_compute in Hdrain. injection Hdrain as <- <-.
    exists c'. split; [exact Hrun|]. split; [reflexivity|].
    destruct Hcases
      as [[Hnone _]|(k & e & fu & He & _ & _ & Hlow & _ & Hafter & _)].
    + specialize (Hnone 0). vm_compute in Hnone. discriminate Hnone.
    + destruct k as [|k].
      * vm_compute in He. injection He as <-.
        destruct Hafter as (e' & He' & Hr & Hv & Hi & Hin & H1 & H2 & D1 & D2).
        destruct e'. simpl in *. subst. exact He'.
      * specialize (Hlow 0 (Nat.lt_0_succ k)). vm_compute in Hlow. discriminate Hlow.
Defined.

Lemma exit_only_at_commit_witness :
  exited_ (Sample.after (commit Sample.exiting)) = true
  ↔ commit Sample.exiting = Ok (Sample.after (commit Sample.exiting))
    ∧ retires_exit Sample.exiting.
Proof.
  apply (exit_only_at_commit Sample.exiting (Sample.after (commit Sample.exiting))).
  - apply step_commit. reflexivity.
  - reflexivity.
Defined.

Lemma execute_drains_one_witness :
  ∃ c', execute Sample.s_running = Ok c'
    ∧ CDB_ c' = Some (CDB.mk_data 23 0 0).
Proof.
  destruct (execute_drains_one Sample.s_running)
    as (fus1 & cdb' & _ & _ & Hbus & _ & _ & Hfirst & _).
  destruct (Hfirst eq_refl 0 (Sample.mk_unit true 0 (FU.mk_output 23 0 0)))
    as (_ & Hcdb & _).
  - reflexivity.
  - reflexivity.
  - intros j fu' Hj. inversion Hj.
  - eexists. split; [reflexivity|].
    transitivity cdb'; [apply Hbus; reflexivity|exact Hcdb].
Defined.

(** ** The further properties on the concrete machine *)

Lemma issue_frame_witness :
  CDB_ (Sample.after (issue Sample.s_renamed)) = CDB_ Sample.s_renamed
  ∧ reg_file_ (Sample.after (issue Sample.s_renamed)) = reg_file_ Sample.s_renamed.
Proof.
  destruct (issue_frame Sample.s_renamed (Sample.after (issue Sample.s_renamed)))
    as (Hbus & _ & Hregs & _).
  - reflexivity.
  - split; [exact Hbus|exact Hregs].
Defined.

Lemma issue_keeps_in_flight_witness :
  RS_ (Sample.after (issue Sample.s_issued)) !! 0 = RS_ Sample.s_issued !! 0.
Proof.
  destruct (issue_keeps_in_flight Sample.s_issued (Sample.after (issue Sample.s_issued)))
    as [Hstations _].
  - vm_compute. lia.
  - reflexivity.
  - apply (Hstations 0 (RS.mk_entry true false 0 (-1) (-1) 11 12 Sample.add_1_1_2));
      reflexivity.
Defined.

Lemma issue_chains_dependency_witness :
  ∃ ka kb eb,
    RS.free_slot (RS_ (Sample.power_on [Sample.add_1_1_2; Sample.add_1_1_2])) = Some ka
    ∧ RS.free_slot (RS_ Sample.s_renamed) = Some kb
    ∧ ka ≠ kb
    ∧ RS_ (Sample.after (issue Sample.s_renamed)) !! kb = Some eb
    ∧ RS.instr eb = Sample.add_1_1_2
    ∧ RS.rs1_index eb = Z.of_nat ka
    ∧ RS.rs1_data eb = 0%Z
    ∧ RS.operands_ready (RS_ (Sample.after (issue Sample.s_renamed))) kb = false.
Proof.
  apply (issue_chains_dependency
           (Sample.power_on [Sample.add_1_1_2; Sample.add_1_1_2])
           Sample.s_renamed (Sample.after (issue Sample.s_renamed))
           Sample.add_1_1_2 Sample.add_1_1_2 []); reflexivity.
Defined.

Lemma writeback_wakes_every_waiter_witness :
  ∃ c' e', writeback Sample.s_waiting = Ok c'
    ∧ RS_ c' !! 1 = Some e'
    ∧ RS.rs1_index e' = (-1)%Z ∧ RS.rs1_data e' = 23%Z.
Proof.
  destruct (writeback_wakes_every_waiter Sample.s_waiting (CDB.mk_data 23 0 0))
    as (c' & Hrun & _ & Hwake & _).
  - reflexivity.
  - vm_compute. split; lia.
  - destruct (Hwake 1 (RS.mk_entry true false 1 0 (-1) 0 12 Sample.add_1_1_2))
      as (e' & He' & _ & _ & _ & _ & Hhit & _).
    + reflexivity.
    + reflexivity.
    + discriminate.
    + destruct (Hhit eq_refl) as [Hid Hdata].
      exists c', e'. split; [exact Hrun|]. split; [exact He'|]. split; assumption.
Defined.

Lemma issue_after_writeback_forwards_witness :
  ∃ c1 c2 kb eb,
    writeback Sample.s_forward = Ok c1
    ∧ issue c1 = Ok c2
    ∧ RS_ c2 !! kb = Some eb
    ∧ RS.instr eb = Sample.add_1_1_2
    ∧ RS.rs1_index eb = (-1)%Z
    ∧ RS.rs1_data eb = CDB.result (CDB.mk_data 23 0 0).
Proof.
  apply (issue_after_writeback_forwards Sample.s_forward (CDB.mk_data 23 0 0)
           Sample.add_1_1_2 []).
  - reflexivity.
  - vm_compute. split; lia.
  - reflexivity.
  - reflexivity.
  - reflexivity.
  - reflexivity.
  - intros _. vm_compute. lia.
Defined.

Lemma execute_frame_witness :
  ROB_ (Sample.after (execute Sample.s_issued2)) = ROB_ Sample.s_issued2
  ∧ RS.size (RS_ (Sample.after (execute Sample.s_issued2))) = RS.size (RS_ Sample.s_issued2).
Proof.
  destruct (execute_frame Sample.s_issued2 (Sample.after (execute Sample.s_issued2)))
    as (_ & _ & Hrob & _ & _ & _ & _ & _ & Hsize & _).
  - reflexivity.
  - split; [exact Hrob|exact Hsize].
Defined.

Lemma execute_missing_unit_witness : execute Sample.s_no_unit = Abort OutOfRange.
Proof.
  apply (execute_missing_unit Sample.s_no_unit 0
           (RS.mk_entry true false 0 (-1) (-1) 0 0 Sample.on_unit_5)).
  - reflexivity.
  - reflexivity.
  - intros j Hj. lia.
  - vm_compute. lia.
Defined.

Lemma execute_drains_then_dispatches_witness :
  ∃ c', execute Sample.s_running = Ok c'
    ∧ CDB_ c' = Some (CDB.mk_data 23 0 0)
    ∧ FUs_ c' !! 0 = Some (Sample.mk_unit true 1 (FU.mk_output 0 1 1))
    ∧ RS_ c' !! 1 = Some (RS.set_running (RS.mk_entry true false 1 (-1) (-1) 0 0 Sample.li_3)).
Proof.
  refine (execute_drains_then_dispatches Sample.s_running 0 1
            (Sample.mk_unit true 0 (FU.mk_output 23 0 0))
            (RS.mk_entry true false 1 (-1) (-1) 0 0 Sample.li_3) _ _ _ _ _ _ _ _ _).
  - reflexivity.
  - reflexivity.
  - reflexivity.
  - intros j fu' Hj. lia.
  - reflexivity.
  - reflexivity.
  - reflexivity.
  - intros j Hj. assert (j = 0) as -> by lia. reflexivity.
  - reflexivity.
Defined.

Lemma commit_outcome_witness :
  ∃ c', commit Sample.s_written = Ok c'
    ∧ ROB.count (ROB_ c') = ROB.count (ROB_ Sample.s_written) - 1
    ∧ perf_stats_instrs c' = S (perf_stats_instrs Sample.s_written).
Proof.
  exact (commit_outcome Sample.s_written eq_refl).
Defined.

Lemma commit_writes_one_register_witness :
  reg_file_ Sample.s_committed !! 1 = Some 23%Z
  ∧ reg_file_ Sample.s_committed !! 2 = reg_file_ Sample.s_written !! 2.
Proof.
  destruct (commit_writes_one_register Sample.s_written Sample.s_committed
              (ROB.mk_entry Sample.add_1_1_2 true 23))
    as (_ & _ & _ & _ & _ & _ & _ & Hwrite & _).
  - reflexivity.
  - reflexivity.
  - reflexivity.
  - reflexivity.
  - destruct (Hwrite eq_refl) as [Hrd Hother]. split; [exact Hrd|].
    apply Hother. discriminate.
Defined.

Lemma writeback_then_commit_witness :
  ∃ c1 c2,
    writeback Sample.s_done = Ok c1
    ∧ commit c1 = Ok c2
    ∧ reg_file_ c2 !! getRd Sample.add_1_1_2 = Some (CDB.result (CDB.mk_data 23 0 0))
    ∧ ROB.count (ROB_ c2) = ROB.count (ROB_ Sample.s_done) - 1
    ∧ perf_stats_instrs c2 = S (perf_stats_instrs Sample.s_done)
    ∧ CDB_ c2 = None.
Proof.
  apply (writeback_then_commit Sample.s_done (CDB.mk_data 23 0 0)
           (ROB.mk_entry Sample.add_1_1_2 false 0)).
  - reflexivity.
  - vm_compute. split; lia.
  - reflexivity.
  - reflexivity.
  - reflexivity.
  - reflexivity.
  - vm_compute. lia.
  - vm_compute. lia.
Defined.

Lemma exited_is_final_witness :
  exited_ Sample.x_written = false
  ∧ exited_ Sample.x_exited = true
  ∧ perf_stats_instrs Sample.y_committed = 2
  ∧ exited_ Sample.y_committed = true.
Proof.
  split; [reflexivity|]. split; [reflexivity|]. split; [reflexivity|].
  apply (exited_is_final Sample.x_exited Sample.y_committed).
  - apply (rtc_l _ _ Sample.y_issued); [apply step_issue; reflexivity|].
    apply (rtc_l _ _ Sample.y_running); [apply step_execute; reflexivity|].
    apply (rtc_l _ _ Sample.y_done); [apply step_execute; reflexivity|].
    apply (rtc_l _ _ Sample.y_written); [apply step_writeback; reflexivity|].
    apply rtc_once. apply step_commit. reflexivity.
  - reflexivity.
Defined.

Lemma s_committed_run :
  run (Sample.power_on [Sample.add_1_1_2; Sample.li_3])
    ([] ++ retired_by Sample.s_written Sample.s_committed) [] Sample.s_committed.
Proof.
  apply run_commit; [|reflexivity].
  apply (run_writeback _ _ _ Sample.s_done); [|reflexivity].
  apply (run_execute _ _ _ Sample.s_running); [|reflexivity].
  apply (run_execute _ _ _ Sample.s_issued2); [|reflexivity].
  apply (run_issue _ _ _ Sample.s_issued); [|reflexivity].
  apply (run_issue _ _ _ (Sample.power_on [Sample.add_1_1_2; Sample.li_3])); [|reflexivity].
  apply run_here.
Defined.

Lemma run_retires_in_program_order_witness :
  [Sample.add_1_1_2] ++ program_order Sample.s_committed
  = program_order (Sample.power_on [Sample.add_1_1_2; Sample.li_3]) ++ []
  ∧ perf_stats_instrs Sample.s_committed = 0 + 1.
Proof.
  destruct (run_retires_in_program_order _ _ _ _ s_committed_run) as (Hpo & Hperf & _).
  - vm_compute. lia.
  - split; [exact Hpo|exact Hperf].
Defined.

Lemma power_on_reachable (queue : list Instr) : reachable (Sample.power_on queue).
Proof. apply reachable_initial. split; reflexivity. Defined.

Lemma issue_safe_when_reachable_witness :
  ∃ c', issue (Sample.power_on [Sample.add_1_1_2]) = Ok c'
    ∧ issue_queue_ c' = []
    ∧ ROB.count (ROB_ c') = 1.
Proof.
  apply (issue_safe_when_reachable (Sample.power_on [Sample.add_1_1_2])
           Sample.add_1_1_2 []).
  - apply power_on_reachable.
  - reflexivity.
  - reflexivity.
  - reflexivity.
  - intros _. vm_compute. lia.
  - intros _. vm_compute. lia.
Defined.

Lemma issue_on_drained_core_witness :
  ∃ c' rs_index e,
    issue (Sample.power_on [Sample.add_1_1_2]) = Ok c'
    ∧ RS_ c' !! rs_index = Some e
    ∧ RS.operands_ready (RS_ c') rs_index = true
    ∧ RS.rs1_data e = 11%Z ∧ RS.rs2_data e = 12%Z.
Proof.
  destruct (issue_on_drained_core (Sample.power_on [Sample.add_1_1_2])
              Sample.add_1_1_2 [])
    as (_ & c' & rs_index & e & Hrun & He & _ & Hready & H1 & H2).
  - apply power_on_reachable.
  - reflexivity.
  - reflexivity.
  - reflexivity.
  - reflexivity.
  - intros _. vm_compute. lia.
  - intros _. vm_compute. lia.
  - exists c', rs_index, e. split; [exact Hrun|]. split; [exact He|].
    split; [exact Hready|].
    specialize (H1 eq_refl). specialize (H2 eq_refl).
    cbn in H1, H2. split; congruence.
Defined.

(** ** Coherence on the concrete machine *)

Lemma unit_fu_lawful : LawfulUnit Sample.unit_t.
Proof.
  split; try done.
  intros fu Hdone. simpl in *. by apply andb_true_iff in Hdone as [? _].
Qed.

#[local] Existing Instance unit_fu_lawful.

Lemma power_on_reset (queue : list Instr) : reset (Sample.power_on queue).
Proof.
  split; [split; reflexivity|]. split; [reflexivity|]. split.
  - intros k e Hk. destruct k as [|[|k]]; simpl in Hk; [by injection Hk as <-..|done].
  - intros t fu Ht. destruct t as [|t]; simpl in Ht; [by injection Ht as <-|done].
Defined.

Lemma s_dispatched_run :
  rtc step (Sample.power_on [Sample.add_1_1_2; Sample.add_1_1_2]) Sample.s_dispatched.
Proof.
  apply (rtc_l _ _ Sample.s_renamed); [apply step_issue; reflexivity|].
  apply (rtc_l _ _ (Sample.after (issue Sample.s_renamed)));
    [apply step_issue; reflexivity|].
  apply rtc_once. apply step_execute. reflexivity.
Defined.

Lemma s_waiting_run :
  rtc step (Sample.power_on [Sample.add_1_1_2; Sample.add_1_1_2]) Sample.s_waiting.
Proof.
  apply (rtc_r _ Sample.s_dispatched); [exact s_dispatched_run|].
  apply step_execute. reflexivity.
Defined.

Lemma writeback_safe_after_reset_witness :
  bus_in_range Sample.s_waiting ∧ ∃ c'', writeback Sample.s_waiting = Ok c''.
Proof.
  destruct (writeback_safe_after_reset _ _ (power_on_reset _) s_waiting_run)
    as (Hrange & Hrun & _).
  split; [exact Hrange|exact Hrun].
Defined.

Lemma pending_producer_is_in_flight_witness :
  ∃ ep r,
    RS_ Sample.s_waiting !! 0 = Some ep
    ∧ RS.valid ep = true
    ∧ RS.rob_index ep ∈ ROB.live (ROB_ Sample.s_waiting)
    ∧ ROB.store (ROB_ Sample.s_waiting) !! RS.rob_index ep = Some r
    ∧ ROB.ready r = false.
Proof.
  apply (pending_producer_is_in_flight _ _ 1 0
           (RS.mk_entry true false 1 0 (-1) 0 12 Sample.add_1_1_2)
           (power_on_reset _) s_waiting_run).
  - reflexivity.
  - reflexivity.
  - left. reflexivity.
Defined.

Lemma pending_entry_has_one_station_witness :
  ∃ k e,
    RS_ Sample.s_waiting !! k = Some e
    ∧ RS.valid e = true
    ∧ RS.rob_index e = 1
    ∧ RS.instr e = Sample.add_1_1_2.
Proof.
  destruct (pending_entry_has_one_station _ _ 1 (ROB.mk_entry Sample.add_1_1_2 false 0)
              (power_on_reset _) s_waiting_run)
    as (k & e & Hk & Hv & Hi & Hinstr & _).
  - vm_compute. apply list_elem_of_further, list_elem_of_here.
  - reflexivity.
  - reflexivity.
  - exists k, e. repeat split; assumption.
Defined.

Lemma station_has_one_worker_witness :
  ∃ e, RS_ Sample.s_dispatched !! 0 = Some e
    ∧ RS.valid e = true ∧ RS.running e = true ∧ RS.rob_index e = 0.
Proof.
  destruct (station_has_one_worker _ _ (power_on_reset _) s_dispatched_run)
    as (Hworks & _ & _).
  apply (Hworks 0 (Sample.mk_unit true 1 (FU.mk_output 23 0 0))); reflexivity.
Defined.

(** ** The retirement count on the concrete machine *)

Lemma s_written_counted_run :
  rtc counted_step (Sample.power_on []) Sample.s_written.
Proof.
  apply (rtc_l _ _ (Sample.power_on [Sample.add_1_1_2; Sample.li_3])).
  { apply (counted_fetch (Sample.power_on []) [Sample.add_1_1_2; Sample.li_3] 2).
    reflexivity. }
  apply (rtc_l _ _ Sample.s_issued); [apply counted_issue; reflexivity|].
  apply (rtc_l _ _ Sample.s_issued2); [apply counted_issue; reflexivity|].
  apply (rtc_l _ _ Sample.s_running); [apply counted_execute; reflexivity|].
  apply (rtc_l _ _ Sample.s_done); [apply counted_execute; reflexivity|].
  apply rtc_once. apply counted_writeback. reflexivity.
Defined.

Lemma committed_never_exceeds_fetched_witness :
  perf_stats_instrs Sample.s_written ≤ fetched_instrs_ Sample.s_written
  ∧ commit Sample.s_written = Ok Sample.s_committed
  ∧ perf_stats_instrs Sample.s_committed = S (perf_stats_instrs Sample.s_written)
  ∧ perf_stats_instrs Sample.s_committed ≤ fetched_instrs_ Sample.s_committed.
Proof.
  destruct (committed_never_exceeds_fetched (Sample.power_on []) Sample.s_written)
    as (Hle & _ & Hretire & _).
  - vm_compute. lia.
  - exact s_written_counted_run.
  - split; [exact Hle|]. split; [reflexivity|].
    destruct (Hretire Sample.s_committed eq_refl)
      as [[Hsame _]|(Hinc & _ & _ & Hle')].
    + apply (f_equal perf_stats_instrs) in Hsame. vm_compute in Hsame. discriminate Hsame.
    + split; [exact Hinc|exact Hle'].
Defined.
